(** * Attention and Transformer building blocks of neural_sp

    A shallow embedding of
      - neural_sp/models/seq2seq/decoders/attention.py  (AttentionMechanism)
      - neural_sp/models/modules/transformer.py         (PositionalEncoding,
        PositionwiseFeedForward, TransformerEncoderBlock, TransformerDecoderBlock)

    Numbers.  Tensor entries are real numbers: arithmetic on finite values is
    exact (rounding, overflow and signed zeros are not represented).  The
    attention layer writes [-float('inf')] into its energies, so the values
    that flow through the softmax carry the IEEE special values as well
    ([xfloat]).

    Tensors.  A tensor of rank n is an n-fold nested list; a dimension of
    extent 0 is the empty list.  Operations of the tensor library that check
    shapes return [Raise RuntimeError] where the library raises. *)

From Stdlib Require Import String.
From Stdlib Require Import Reals Lra Lia ZArith Bool Arith List.
Import ListNotations.

Open Scope R_scope.

(** ** Exceptions and the error monad *)

Inductive exn : Set :=
| NotImplementedError
| RuntimeError
| IndexError
| UnboundLocalError
| AttributeError
| ZeroDivisionError
| ValueError.

Inductive result (A : Type) : Type :=
| Ok (a : A)
| Raise (e : exn).

Arguments Ok {A} a.
Arguments Raise {A} e.

Definition bind {A B : Type} (c : result A) (k : A -> result B) : result B :=
  match c with
  | Ok a => k a
  | Raise e => Raise e
  end.

Notation "x <- c ;; k" := (bind c (fun x => k))
  (at level 61, c at next level, right associativity).

Fixpoint mapM {A B : Type} (f : A -> result B) (l : list A) : result (list B) :=
  match l with
  | [] => Ok []
  | a :: l' => b <- f a ;; bs <- mapM f l' ;; Ok (b :: bs)
  end.

Fixpoint zipM {A B C : Type} (f : A -> B -> result C)
         (xs : list A) (ys : list B) : result (list C) :=
  match xs, ys with
  | [], [] => Ok []
  | x :: xs', y :: ys' => c <- f x y ;; cs <- zipM f xs' ys' ;; Ok (c :: cs)
  | _, _ => Raise RuntimeError
  end.

(** [imap f l] is [[f 0 l0; f 1 l1; ...]]. *)
Fixpoint imap_from {A B : Type} (i : nat) (f : nat -> A -> B) (l : list A) : list B :=
  match l with
  | [] => []
  | a :: l' => f i a :: imap_from (S i) f l'
  end.

Definition imap {A B : Type} (f : nat -> A -> B) (l : list A) : list B :=
  imap_from 0 f l.

(** ** The tensor library *)

Module Torch.

(** *** Scalars with the IEEE special values *)

Inductive xfloat : Type :=
| Fin (r : R)
| PInf
| NInf
| NaN.

(** [r] times an infinity: the sign of [r] picks the infinity, zero gives NaN. *)
Definition by_sign (r : R) (pos neg : xfloat) : xfloat :=
  if Rlt_dec 0 r then pos else if Rlt_dec r 0 then neg else NaN.

Definition xadd (x y : xfloat) : xfloat :=
  match x, y with
  | NaN, _ | _, NaN => NaN
  | Fin a, Fin b => Fin (a + b)
  | PInf, NInf | NInf, PInf => NaN
  | PInf, _ | _, PInf => PInf
  | NInf, _ | _, NInf => NInf
  end.

Definition xmul (x y : xfloat) : xfloat :=
  match x, y with
  | NaN, _ | _, NaN => NaN
  | Fin a, Fin b => Fin (a * b)
  | Fin a, PInf | PInf, Fin a => by_sign a PInf NInf
  | Fin a, NInf | NInf, Fin a => by_sign a NInf PInf
  | PInf, PInf | NInf, NInf => PInf
  | PInf, NInf | NInf, PInf => NInf
  end.

Definition xdiv (x y : xfloat) : xfloat :=
  match x, y with
  | NaN, _ | _, NaN => NaN
  | Fin a, Fin b => if Req_dec_T b 0 then by_sign a PInf NInf else Fin (a / b)
  | Fin _, PInf | Fin _, NInf => Fin 0
  | PInf, Fin b => if Rlt_dec b 0 then NInf else PInf
  | NInf, Fin b => if Rlt_dec b 0 then PInf else NInf
  | _, _ => NaN
  end.

Definition xexp (x : xfloat) : xfloat :=
  match x with
  | Fin a => Fin (exp a)
  | PInf => PInf
  | NInf => Fin 0
  | NaN => NaN
  end.

(** [torch.sigmoid]: 1 / (1 + exp (-x)). *)
Definition xsigmoid (x : xfloat) : xfloat :=
  match x with
  | Fin a => Fin (1 / (1 + exp (- a)))
  | PInf => Fin 1
  | NInf => Fin 0
  | NaN => NaN
  end.

Definition xsum (l : list xfloat) : xfloat := fold_right xadd (Fin 0) l.

(** *** Tensors *)

Definition vec := list R.
Definition mat := list vec.
Definition tensor3 := list mat.

Definition xvec := list xfloat.
Definition xmat := list xvec.
Definition xtensor3 := list xmat.

(** [t.size(1)] of a tensor of rank at least two. *)
Definition size1 {A : Type} (t : list (list A)) : nat := length (hd [] t).

(** [t.size(2)] of a tensor of rank at least three. *)
Definition size2 {A : Type} (t : list (list (list A))) : nat := length (hd [] (hd [] t)).

(** Broadcasting of two tensors along their leading axis: equal extents are
    paired, an extent of 1 is repeated, anything else is a shape error. *)
Definition bzip {A B C : Type} (f : A -> B -> result C)
           (xs : list A) (ys : list B) : result (list C) :=
  if Nat.eqb (length xs) (length ys) then zipM f xs ys
  else match xs, ys with
       | [x], _ => mapM (f x) ys
       | _, [y] => mapM (fun x => f x y) xs
       | _, _ => Raise RuntimeError
       end.

(** In-place variant ([masked_fill_], slice assignment): only the second
    operand may be broadcast, the first keeps its shape. *)
Definition bzip_into {A B C : Type} (f : A -> B -> result C)
           (xs : list A) (ys : list B) : result (list C) :=
  if Nat.eqb (length xs) (length ys) then zipM f xs ys
  else match ys with
       | [y] => mapM (fun x => f x y) xs
       | _ => Raise RuntimeError
       end.

Definition add1 : vec -> vec -> result vec := bzip (fun a b => Ok (a + b)).
Definition add2 : mat -> mat -> result mat := bzip add1.
Definition add3 : tensor3 -> tensor3 -> result tensor3 := bzip add2.

(** [t.expand(n, ...)] on the leading axis. *)
Definition expand0 {A : Type} (n : nat) (t : list A) : result (list A) :=
  if Nat.eqb (length t) n then Ok t
  else match t with
       | [x] => Ok (repeat x n)
       | _ => Raise RuntimeError
       end.

(** Inner product of two vectors of the same length. *)
Fixpoint dot (x y : vec) : result R :=
  match x, y with
  | [], [] => Ok 0
  | a :: x', b :: y' => r <- dot x' y' ;; Ok (a * b + r)
  | _, _ => Raise RuntimeError
  end.

(** [m.transpose(-2, -1)] of a matrix with [c] columns. *)
Fixpoint transpose (c : nat) (m : mat) : mat :=
  match m with
  | [] => repeat [] c
  | row :: m' => map (fun p => fst p :: snd p) (combine row (transpose c m'))
  end.

(** Matrix product [a @ b] of [n x k] by [k x c]. *)
Definition mm (c : nat) (a b : mat) : result mat :=
  mapM (fun row => mapM (dot row) (transpose c b)) a.

(** Batched [torch.matmul(a, b.transpose(-2, -1))] of two rank-3 tensors
    (batch axis broadcast): the product has one column per row of [b]. *)
Definition matmul3_t (a b : tensor3) : result tensor3 :=
  bzip (fun x y => mm (length y) x (transpose (size1 y) y)) a b.

(** [t.squeeze(2)] of a rank-3 tensor whose last extent is 1. *)
Definition squeeze2 (t : tensor3) : result mat :=
  mapM (mapM (fun cell : vec => match cell with
                                | [r] => Ok r
                                | _ => Raise RuntimeError
                                end)) t.

(** [t.view(rows, cols)] of the flattened data. *)
Fixpoint chunks (rows cols : nat) (flat : vec) : mat :=
  match rows with
  | O => []
  | S r => firstn cols flat :: chunks r cols (skipn cols flat)
  end.

Definition view2 (rows cols : nat) (t : mat) : result mat :=
  let flat := concat t in
  if Nat.eqb (length flat) (rows * cols) then Ok (chunks rows cols flat)
  else Raise RuntimeError.

(** [F.softmax(row, dim=-1)]: exp(x_i) / sum_j exp(x_j). *)
Definition softmax (row : xvec) : xvec :=
  let es := map xexp row in
  let s := xsum es in
  map (fun e => xdiv e s) es.

(** *** nn.Dropout

    [keep] is the Bernoulli sample the layer draws in the call at hand,
    indexed by the position of the entry. *)
Record Dropout : Type := mkDropout {
  p : R;
  training : bool;
  keep : list nat -> bool
}.

(** [nn.Dropout(p)] refuses a probability outside [0, 1]. *)
Definition Dropout_init (prob : R) (keep : list nat -> bool) : result Dropout :=
  if Rlt_dec prob 0 then Raise ValueError
  else if Rlt_dec 1 prob then Raise ValueError
  else Ok (mkDropout prob true keep).

Definition drop_active (d : Dropout) : bool :=
  training d && (if Req_dec_T (p d) 0 then false else true).

Definition drop_scale (d : Dropout) (idx : list nat) : R :=
  if keep d idx then / (1 - p d) else 0.

Definition dropout2x (d : Dropout) (t : xmat) : xmat :=
  if drop_active d
  then imap (fun b => imap (fun i x => xmul x (Fin (drop_scale d [b; i])))) t
  else t.

Definition dropout3 (d : Dropout) (t : tensor3) : tensor3 :=
  if drop_active d
  then imap (fun b => imap (fun i => imap (fun k x => x * drop_scale d [b; i; k]))) t
  else t.

End Torch.

(** ** neural_sp/models/seq2seq/decoders/attention.py *)

Module Attention.
Import Torch.

(** [LinearND] (neural_sp.models.linear) is not part of these sources: a
    layer is taken as the map it applies to every vector of the last axis. *)
Definition LinearND (f : vec -> vec) (t : tensor3) : tensor3 := map (map f) t.

(** [nn.Conv2d(1, conv_out_channels, kernel_size=(1, 2k+1), stride=1,
    padding=(0, k), bias=False)]: one filter of width 2k+1 per channel. *)
Record Conv2d : Type := mkConv2d {
  conv_weight : list vec;
  conv_kernel_size : nat
}.

Definition sumprod (w window : vec) : R :=
  fold_right Rplus 0 (map (fun q => fst q * snd q) (combine w window)).

Definition conv_row (k : nat) (w row : vec) : vec :=
  let padded := repeat 0 k ++ row ++ repeat 0 k in
  map (fun t => sumprod w (firstn (2 * k + 1) (skipn t padded))) (seq 0 (length row)).

(** Input [B, T] (the view [B, 1, 1, T]), output [B, conv_out_channels, T]
    (after [squeeze(2)]). *)
Definition conv_forward (c : Conv2d) (aw : mat) : tensor3 :=
  map (fun row => map (fun w => conv_row (conv_kernel_size c) w row) (conv_weight c)) aw.

Record AttentionMechanism : Type := mkAttentionMechanism {
  attn_type : string;
  attn_dim : nat;
  sharpening_factor : R;
  sigmoid_smoothing : bool;
  nheads : nat;
  enc_out_a : option tensor3;
  mask : option mat;
  dropout : option Dropout;
  w_enc : vec -> vec;
  w_dec : vec -> vec;
  w_conv : vec -> vec;
  v : vec -> R;          (* LinearND(attn_dim, 1): the single output unit *)
  conv : Conv2d
}.

Definition set_enc_out_a (m : AttentionMechanism) (a : option tensor3) : AttentionMechanism :=
  mkAttentionMechanism (attn_type m) (attn_dim m) (sharpening_factor m)
    (sigmoid_smoothing m) (nheads m) a (mask m) (dropout m)
    (w_enc m) (w_dec m) (w_conv m) (v m) (conv m).

Definition set_mask (m : AttentionMechanism) (k : option mat) : AttentionMechanism :=
  mkAttentionMechanism (attn_type m) (attn_dim m) (sharpening_factor m)
    (sigmoid_smoothing m) (nheads m) (enc_out_a m) k (dropout m)
    (w_enc m) (w_dec m) (w_conv m) (v m) (conv m).

(** The layers that [__init__] creates with fresh weights are its last
    arguments here. *)
Definition init (attn_type : string) (attn_dim : nat) (sharpening_factor : R)
           (sigmoid_smoothing : bool) (dropout : R) (keep : list nat -> bool)
           (w_enc w_dec w_conv : vec -> vec) (v : vec -> R) (conv : Conv2d)
  : result AttentionMechanism :=
  d <- (if Rlt_dec 0 dropout
        then (x <- Dropout_init dropout keep ;; Ok (Some x))
        else Ok None) ;;
  let m := mkAttentionMechanism attn_type attn_dim sharpening_factor
             sigmoid_smoothing 1 None None d w_enc w_dec w_conv v conv in
  if String.eqb attn_type "add" then Ok m
  else if String.eqb attn_type "location" then Ok m
  else if String.eqb attn_type "dot" then Ok m
  else if String.eqb attn_type "luong_dot" then Raise NotImplementedError
  else if String.eqb attn_type "luong_general" then Raise NotImplementedError
  else if String.eqb attn_type "luong_concat" then Raise NotImplementedError
  else Ok m.

Definition reset (m : AttentionMechanism) : AttentionMechanism :=
  set_mask (set_enc_out_a m None) None.

(** Start of the slice [row[s:]] of a row of [n] entries. *)
Definition slice_start (s : Z) (n : nat) : nat :=
  if (s <? 0)%Z then Z.to_nat (Z.max 0 (s + Z.of_nat n))
  else Nat.min (Z.to_nat s) n.

(** [row[start:] = 0] *)
Definition fill_from (start : nat) (row : vec) : vec :=
  firstn start row ++ repeat 0 (length row - start).

(** The loop [for b in range(bs)] over the rows of the mask, from row [b]
    on.  The mask is updated in place: when [x_lens[b]] raises, the rows
    done so far stay masked. *)
Fixpoint mask_rows (enc_time : nat) (x_lens : list Z) (b : nat) (rows : mat)
  : mat * option exn :=
  match rows with
  | [] => ([], None)
  | row :: rest =>
      match nth_error x_lens b with
      | None => (row :: rest, Some IndexError)
      | Some l =>
          let row' := if (l <? Z.of_nat enc_time)%Z
                      then fill_from (slice_start l enc_time) row
                      else row in
          let '(rest', e) := mask_rows enc_time x_lens (S b) rest in
          (row' :: rest', e)
      end
  end.

Definition make_mask (bs enc_time : nat) (x_lens : list Z) : mat * option exn :=
  mask_rows enc_time x_lens 0 (repeat (repeat 1 enc_time) bs).

(** [dec_out.expand_as(torch.zeros((bs, enc_time, dec_out.size(2))))] for
    [dec_out] of shape [B, 1, dec_units], given as its [B] vectors. *)
Definition expand_dec (bs enc_time : nat) (dec_out : list vec) : result tensor3 :=
  rows <- expand0 bs dec_out ;;
  Ok (map (fun d => repeat d enc_time) rows).

Definition unsqueeze1 {A : Type} (t : list A) : list (list A) := map (fun d => [d]) t.

Definition Tanh (t : tensor3) : tensor3 := map (map (map tanh)) t.

(** Lines 137-161: the energy before masking. *)
Definition energy_of (m : AttentionMechanism) (a : tensor3) (bs enc_time : nat)
           (dec_out : list vec) (aw_step : mat) : result mat :=
  let ty := attn_type m in
  if String.eqb ty "add" then
    dec <- expand_dec bs enc_time dec_out ;;
    s <- add3 a (LinearND (w_dec m) dec) ;;
    Ok (map (map (v m)) (Tanh s))
  else if String.eqb ty "location" then
    dec <- expand_dec bs enc_time dec_out ;;
    aw <- view2 bs enc_time aw_step ;;
    let conv_feat := map (transpose enc_time) (conv_forward (conv m) aw) in
    s <- add3 a (LinearND (w_dec m) dec) ;;
    s' <- add3 s (LinearND (w_conv m) conv_feat) ;;
    Ok (map (map (v m)) (Tanh s'))
  else if String.eqb ty "dot" then
    let dec := LinearND (w_dec m) (unsqueeze1 dec_out) in
    r <- matmul3_t a dec ;;
    squeeze2 r
  else if String.eqb ty "luong_dot" then Raise NotImplementedError
  else if String.eqb ty "luong_general" then Raise NotImplementedError
  else if String.eqb ty "luong_concat" then Raise NotImplementedError
  else Raise UnboundLocalError.

(** [energy.masked_fill_(mask == 0, -float('inf'))] *)
Definition fill_cell (e k : R) : result xfloat :=
  Ok (if Req_dec_T k 0 then NInf else Fin e).

Definition masked_fill (energy mk : mat) : result xmat :=
  bzip_into (bzip_into fill_cell) energy mk.

Fixpoint xdot (x : xvec) (y : vec) : result xfloat :=
  match x, y with
  | [], [] => Ok (Fin 0)
  | a :: x', b :: y' => r <- xdot x' y' ;; Ok (xadd (xmul a (Fin b)) r)
  | _, _ => Raise RuntimeError
  end.

(** [torch.matmul(aw_step.unsqueeze(1), enc_out)] *)
Definition context_of (aw : xmat) (enc_out : tensor3) : result xtensor3 :=
  bzip (fun (x : xmat) (y : mat) =>
          mapM (fun row => mapM (xdot row) (transpose (size1 y) y)) x)
       (unsqueeze1 aw) enc_out.

(** Lines 163-179. *)
Definition attend (m : AttentionMechanism) (mk : mat) (energy : mat)
           (enc_out : tensor3) : result (xtensor3 * xmat) :=
  e <- masked_fill energy mk ;;
  let scaled := map (map (fun x => xmul x (Fin (sharpening_factor m)))) e in
  let aw := if sigmoid_smoothing m
            then map (map xsigmoid) scaled
            else map softmax scaled in
  let aw := match dropout m with
            | Some d => dropout2x d aw
            | None => aw
            end in
  context <- context_of aw enc_out ;;
  Ok (context, aw).

(** Lines 126-128: the encoder-side features, computed once. *)
Definition cached_enc_out_a (m : AttentionMechanism) (enc_out : tensor3) : tensor3 :=
  match enc_out_a m with
  | None => LinearND (w_enc m) enc_out
  | Some a => a
  end.

(** Lines 130-135: the mask, computed once. *)
Definition cached_mask (m : AttentionMechanism) (bs enc_time : nat) (x_lens : list Z)
  : mat * option exn :=
  match mask m with
  | None => make_mask bs enc_time x_lens
  | Some k => (k, None)
  end.

(** The energy of lines 137-161 in a call of [forward]. *)
Definition forward_energy (m : AttentionMechanism) (enc_out : tensor3)
           (dec_out : list vec) (aw_step : option mat) : result mat :=
  let bs := length enc_out in
  let enc_time := size1 enc_out in
  let aw_step := match aw_step with
                 | None => repeat (repeat 0 enc_time) bs
                 | Some a => a
                 end in
  energy_of m (cached_enc_out_a m enc_out) bs enc_time dec_out aw_step.

(** [forward]: the module after the call, and what the call returns or
    raises. *)
Definition forward (m : AttentionMechanism) (enc_out : tensor3) (x_lens : list Z)
           (dec_out : list vec) (aw_step : option mat)
  : AttentionMechanism * result (xtensor3 * xmat) :=
  let bs := length enc_out in
  let enc_time := size1 enc_out in
  let a := cached_enc_out_a m enc_out in
  let '(mk, err) := cached_mask m bs enc_time x_lens in
  let m' := set_mask (set_enc_out_a m (Some a)) (Some mk) in
  (m', match err with
       | Some e => Raise e
       | None =>
           energy <- forward_energy m enc_out dec_out aw_step ;;
           attend m mk energy enc_out
       end).

(** *** The weights from the energy as the floating-point computation left it

    [energy_of] computes over the reals.  The tensor that lines 137-161
    leave in a run has float entries, and an overflow or a non-finite input
    makes one of them infinite or NaN.  Lines 163-179 are therefore embedded
    a second time, on an energy with such entries; [forward_float] is
    [forward] with the outcome of lines 137-161 given. *)

Definition fill_cell_float (e : xfloat) (k : R) : result xfloat :=
  Ok (if Req_dec_T k 0 then NInf else e).

Definition masked_fill_float (energy : xmat) (mk : mat) : result xmat :=
  bzip_into (bzip_into fill_cell_float) energy mk.

Definition attend_float (m : AttentionMechanism) (mk : mat) (energy : xmat)
           (enc_out : tensor3) : result (xtensor3 * xmat) :=
  e <- masked_fill_float energy mk ;;
  let scaled := map (map (fun x => xmul x (Fin (sharpening_factor m)))) e in
  let aw := if sigmoid_smoothing m
            then map (map xsigmoid) scaled
            else map softmax scaled in
  let aw := match dropout m with
            | Some d => dropout2x d aw
            | None => aw
            end in
  context <- context_of aw enc_out ;;
  Ok (context, aw).

Definition forward_float (m : AttentionMechanism) (enc_out : tensor3) (x_lens : list Z)
           (energy : result xmat)
  : AttentionMechanism * result (xtensor3 * xmat) :=
  let bs := length enc_out in
  let enc_time := size1 enc_out in
  let a := cached_enc_out_a m enc_out in
  let '(mk, err) := cached_mask m bs enc_time x_lens in
  let m' := set_mask (set_enc_out_a m (Some a)) (Some mk) in
  (m', match err with
       | Some e => Raise e
       | None =>
           energy <- energy ;;
           attend_float m mk energy enc_out
       end).

End Attention.

(** ** neural_sp/models/modules/transformer.py *)

Module Transformer.
Import Torch.

(** *** PositionalEncoding *)

Record PositionalEncoding : Type := mkPositionalEncoding {
  d_model : nat;
  pe_type : option string;
  pe : option tensor3;             (* the registered buffer, [1, max_len, d_model] *)
  pe_dropout : option Dropout
}.

(** Truth value of a [pe_type] that is a string or None. *)
Definition truthy (t : option string) : bool :=
  match t with
  | Some s => negb (String.eqb s "")
  | None => false
  end.

Definition is_type (t : option string) (name : string) : bool :=
  match t with
  | Some s => String.eqb s name
  | None => false
  end.

(** [torch.arange(0, n, 2)] *)
Definition arange2 (n : nat) : list nat := map (fun i => (2 * i)%nat) (seq 0 ((n + 1) / 2)).

(** Writes [vals] at the positions [start], [start + 2], ... of [row]. *)
Fixpoint scatter (start : nat) (row vals : vec) : vec :=
  match row with
  | [] => []
  | r :: row' =>
      match start with
      | S s => r :: scatter s row' vals
      | O => match vals with
             | x :: vals' => x :: scatter 1 row' vals'
             | [] => r :: row'
             end
      end
  end.

(** [row[start::2] = vals], with the right-hand side broadcast from one
    entry where it has one. *)
Definition assign_stride_row (start : nat) (row vals : vec) : result vec :=
  let n := ((length row + 1 - start) / 2)%nat in
  if Nat.eqb (length vals) n then Ok (scatter start row vals)
  else match vals with
       | [x] => Ok (scatter start row (repeat x n))
       | _ => Raise RuntimeError
       end.

(** [t[:, start::2] = vals] *)
Definition assign_stride (start : nat) (t vals : mat) : result mat :=
  bzip_into (assign_stride_row start) t vals.

Definition div_term (d_model : nat) : vec :=
  map (fun k => exp (INR k * - (ln 10000 / INR d_model))) (arange2 d_model).

Definition pe_init (d_model : nat) (dropout : R) (keep : list nat -> bool)
           (pe_type : option string) (max_len : nat) : result PositionalEncoding :=
  if truthy pe_type then
    let pe0 := repeat (repeat 0 d_model) max_len in
    let position := map INR (seq 0 max_len) in
    if Nat.eqb d_model 0 then Raise ZeroDivisionError
    else
      let dt := div_term d_model in
      pe1 <- assign_stride 0 pe0 (map (fun pos => map (fun w => sin (pos * w)) dt) position) ;;
      pe2 <- assign_stride 1 pe1 (map (fun pos => map (fun w => cos (pos * w)) dt) position) ;;
      d <- Dropout_init dropout keep ;;
      Ok (mkPositionalEncoding d_model pe_type (Some [pe2]) (Some d))
  else Ok (mkPositionalEncoding d_model pe_type None None).

Definition scale3 (c : R) (t : tensor3) : tensor3 := map (map (map (fun x => x * c))) t.

Definition attr {A : Type} (o : option A) : result A :=
  match o with
  | Some a => Ok a
  | None => Raise AttributeError
  end.

(** [torch.cat([a, b], dim=-1)]: the leading extents must agree. *)
Definition cat_last (a b : tensor3) : result tensor3 :=
  zipM (zipM (fun x y => Ok (x ++ y))) a b.

Definition pe_forward (m : PositionalEncoding) (xs : tensor3) : result tensor3 :=
  let xs := scale3 (sqrt (INR (d_model m))) xs in
  if negb (truthy (pe_type m)) then Ok xs
  else if is_type (pe_type m) "add" then
    tbl <- attr (pe m) ;;
    xs <- add3 xs (map (firstn (size1 xs)) tbl) ;;
    d <- attr (pe_dropout m) ;;
    Ok (dropout3 d xs)
  else if is_type (pe_type m) "concat" then
    tbl <- attr (pe m) ;;
    xs <- cat_last xs (map (firstn (size1 xs)) tbl) ;;
    d <- attr (pe_dropout m) ;;
    Ok (dropout3 d xs)
  else Raise NotImplementedError.

(** *** PositionwiseFeedForward *)

(** [nn.Linear(in_features, out_features)]: weight [out, in], bias [out]. *)
Record Linear : Type := mkLinear {
  in_features : nat;
  out_features : nat;
  weight : mat;
  bias : vec
}.

(** [F.linear(xs, weight, bias)] = [xs.matmul(weight.t()) + bias] *)
Definition linear (l : Linear) (xs : tensor3) : result tensor3 :=
  let wt := transpose (in_features l) (weight l) in
  r <- mapM (fun x => mm (out_features l) x wt) xs ;;
  add3 r [[bias l]].

Definition relu (x : R) : R := Rmax 0 x.

Record PositionwiseFeedForward : Type := mkPositionwiseFeedForward {
  w_1 : Linear;
  w_2 : Linear;
  ff_dropout : Dropout
}.

Definition ff_forward (f : PositionwiseFeedForward) (xs : tensor3) : result tensor3 :=
  h <- linear (w_1 f) xs ;;
  linear (w_2 f) (dropout3 (ff_dropout f) (map (map (map relu)) h)).

(** *** Masks (uint8 tensors) *)

Definition byte := Z.
Definition bmask2 := list (list byte).
Definition bmask3 := list bmask2.
Definition bmask4 := list bmask3.

(** [pad.unsqueeze(1).expand(bs, rows, cols)] for [pad] of rank 2. *)
Definition expand_rows (bs rows cols : nat) (pad : bmask2) : result bmask3 :=
  r0 <- expand0 bs pad ;;
  mapM (fun row => row' <- expand0 cols row ;; Ok (repeat row' rows)) r0.

(** [pad.unsqueeze(2).expand(bs, rows, cols)] for [pad] of rank 2. *)
Definition expand_cols (bs rows cols : nat) (pad : bmask2) : result bmask3 :=
  r0 <- expand0 bs pad ;;
  mapM (fun row => row' <- expand0 rows row ;; Ok (map (fun x => repeat x cols) row')) r0.

(** [m.unsqueeze(1).expand(bs, n_heads, rows, cols)] *)
Definition expand_heads (n_heads : nat) (m : bmask3) : bmask4 :=
  map (fun x => repeat x n_heads) m.

(** [torch.tril(ones((n, n)).byte(), diagonal=0)] *)
Definition tril_ones (n : nat) : bmask2 :=
  map (fun i => map (fun j => if (j <=? i)%nat then 1%Z else 0%Z) (seq 0 n)) (seq 0 n).

Definition band (a b : byte) : byte := Z.land a b.
Definition bmul (a b : byte) : byte := ((a * b) mod 256)%Z.

Definition zip4 (f : byte -> byte -> byte) (a b : bmask4) : result bmask4 :=
  zipM (zipM (zipM (zipM (fun x y => Ok (f x y))))) a b.

Definition zip3 (f : byte -> byte -> byte) (a b : bmask3) : result bmask3 :=
  zipM (zipM (zipM (fun x y => Ok (f x y)))) a b.

(** Lines 244-248 of the decoder block. *)
Definition make_yy_mask (n_heads bs ymax : nat) (pad : bmask2) : result bmask4 :=
  yy <- expand_rows bs ymax ymax pad ;;
  let yy := expand_heads n_heads yy in
  let subsequent := repeat (repeat (tril_ones ymax) n_heads) bs in
  zip4 band yy subsequent.

(** Lines 146-147 of the encoder block. *)
Definition make_xx_mask (n_heads bs xmax : nat) (pad : bmask2) : result bmask4 :=
  xx <- expand_rows bs xmax xmax pad ;;
  Ok (expand_heads n_heads xx).

(** Lines 263-266 of the decoder block. *)
Definition make_xy_mask (n_heads bs ymax xmax : nat) (xpad ypad : bmask2) : result bmask4 :=
  x_mask <- expand_rows bs ymax xmax xpad ;;
  y_mask <- expand_cols bs ymax xmax ypad ;;
  xy <- zip3 bmul x_mask y_mask ;;
  Ok (expand_heads n_heads xy).

(** *** Encoder and decoder blocks

    [MultiheadAttentionMechanism] (neural_sp.models.modules.multihead_attention),
    [make_pad_mask] (neural_sp.models.torch_utils) and [nn.LayerNorm] are not
    part of these sources.  The attention layer is an arbitrary stateful
    object with a [reset] and a call [(key, value, query, mask)] that returns
    a context and attention weights or raises; [make_pad_mask] is an
    arbitrary map from the lengths to a rank-2 byte mask; a layer
    normalisation is the map it applies. *)

Section Blocks.

Variable MHA : Type.
Variable AW : Type.
Variable mha_reset : MHA -> MHA.
Variable mha_call : MHA -> tensor3 -> tensor3 -> tensor3 -> bmask4 -> MHA * result (tensor3 * AW).
Variable make_pad_mask : list Z -> bmask2.

Record TransformerEncoderBlock : Type := mkTransformerEncoderBlock {
  enc_n_heads : nat;
  enc_self_attn : MHA;
  enc_norm1 : tensor3 -> tensor3;
  enc_dropout1 : Dropout;
  enc_feed_forward : PositionwiseFeedForward;
  enc_norm2 : tensor3 -> tensor3;
  enc_dropout2 : Dropout
}.

Definition enc_set_self_attn (blk : TransformerEncoderBlock) (a : MHA) : TransformerEncoderBlock :=
  mkTransformerEncoderBlock (enc_n_heads blk) a (enc_norm1 blk) (enc_dropout1 blk)
    (enc_feed_forward blk) (enc_norm2 blk) (enc_dropout2 blk).

Definition encoder_forward (blk : TransformerEncoderBlock) (xs : tensor3)
           (xlens : list Z) (cache : bool)
  : TransformerEncoderBlock * result (tensor3 * AW) :=
  let bs := length xs in
  let xmax := size1 xs in
  match make_xx_mask (enc_n_heads blk) bs xmax (make_pad_mask xlens) with
  | Raise e => (blk, Raise e)
  | Ok xx_mask =>
      let sa := if negb cache then mha_reset (enc_self_attn blk) else enc_self_attn blk in
      let _xs := enc_norm1 blk xs in
      let '(sa', r) := mha_call sa _xs _xs _xs xx_mask in
      (enc_set_self_attn blk sa',
       out <- r ;;
       let '(_xs, xx_aws) := out in
       xs1 <- add3 (dropout3 (enc_dropout1 blk) _xs) xs ;;
       let _xs := enc_norm2 blk xs1 in
       _xs <- ff_forward (enc_feed_forward blk) _xs ;;
       xs2 <- add3 (dropout3 (enc_dropout2 blk) _xs) xs1 ;;
       Ok (xs2, xx_aws))
  end.

Record TransformerDecoderBlock : Type := mkTransformerDecoderBlock {
  dec_attn_type : string;
  dec_n_heads : nat;
  src_attention : bool;
  dec_self_attn : MHA;
  dec_norm1 : tensor3 -> tensor3;
  dec_dropout1 : Dropout;
  src_attn : option MHA;
  dec_norm2 : option (tensor3 -> tensor3);
  dec_dropout2 : option Dropout;
  dec_feed_forward : PositionwiseFeedForward;
  dec_norm3 : tensor3 -> tensor3;
  dec_dropout3 : Dropout
}.

(** The sub-layers that [__init__] creates are its last arguments. *)
Definition decoder_init (attn_type : string) (n_heads : nat) (src_attention : bool)
           (self_attn : MHA) (norm1 : tensor3 -> tensor3) (dropout1 : Dropout)
           (src_attn : MHA) (norm2 : tensor3 -> tensor3) (dropout2 : Dropout)
           (feed_forward : PositionwiseFeedForward) (norm3 : tensor3 -> tensor3)
           (dropout3 : Dropout)
  : result TransformerDecoderBlock :=
  if String.eqb attn_type "average" then Raise NotImplementedError
  else
    Ok (mkTransformerDecoderBlock attn_type n_heads src_attention
          self_attn norm1 dropout1
          (if src_attention then Some src_attn else None)
          (if src_attention then Some norm2 else None)
          (if src_attention then Some dropout2 else None)
          feed_forward norm3 dropout3).

Definition dec_set_self_attn (blk : TransformerDecoderBlock) (a : MHA) : TransformerDecoderBlock :=
  mkTransformerDecoderBlock (dec_attn_type blk) (dec_n_heads blk) (src_attention blk)
    a (dec_norm1 blk) (dec_dropout1 blk) (src_attn blk) (dec_norm2 blk)
    (dec_dropout2 blk) (dec_feed_forward blk) (dec_norm3 blk) (dec_dropout3 blk).

Definition dec_set_src_attn (blk : TransformerDecoderBlock) (a : MHA) : TransformerDecoderBlock :=
  mkTransformerDecoderBlock (dec_attn_type blk) (dec_n_heads blk) (src_attention blk)
    (dec_self_attn blk) (dec_norm1 blk) (dec_dropout1 blk) (Some a) (dec_norm2 blk)
    (dec_dropout2 blk) (dec_feed_forward blk) (dec_norm3 blk) (dec_dropout3 blk).

(** Lines 273-278: the feed-forward sub-layer and the return. *)
Definition decoder_tail (blk : TransformerDecoderBlock) (ys : tensor3)
           (yy_aw : AW) (xy_aw : option AW) : result (tensor3 * AW * option AW) :=
  let _ys := dec_norm3 blk ys in
  _ys <- ff_forward (dec_feed_forward blk) _ys ;;
  ys' <- add3 (dropout3 (dec_dropout3 blk) _ys) ys ;;
  Ok (ys', yy_aw, xy_aw).

(** Lines 259-271: attention over the encoder outputs. *)
Definition decoder_src (blk : TransformerDecoderBlock) (bs ymax : nat)
           (ys : tensor3) (ylens : list Z)
           (xs : option tensor3) (xlens : list Z) (yy_aw : AW)
  : TransformerDecoderBlock * result (tensor3 * AW * option AW) :=
  if src_attention blk then
    match xs with
    | None => (blk, Raise AttributeError)
    | Some xs =>
        let xmax := size1 xs in
        match make_xy_mask (dec_n_heads blk) bs ymax xmax
                (make_pad_mask xlens) (make_pad_mask ylens),
              src_attn blk, dec_norm2 blk, dec_dropout2 blk with
        | Raise e, _, _, _ => (blk, Raise e)
        | Ok xy_mask, Some sa, Some norm2, Some drop2 =>
            let sa := mha_reset sa in
            let _ys := norm2 ys in
            let '(sa', r) := mha_call sa xs xs _ys xy_mask in
            let blk' := dec_set_src_attn blk sa' in
            (blk',
             out <- r ;;
             let '(_ys, xy_aw) := out in
             ys' <- add3 (dropout3 drop2 _ys) ys ;;
             decoder_tail blk' ys' yy_aw (Some xy_aw))
        | Ok _, _, _, _ => (blk, Raise AttributeError)
        end
    end
  else (blk, decoder_tail blk ys yy_aw None).

Definition decoder_forward (blk : TransformerDecoderBlock) (ys : tensor3)
           (ylens : list Z) (xs : option tensor3) (xlens : list Z)
  : TransformerDecoderBlock * result (tensor3 * AW * option AW) :=
  let bs := length ys in
  let ymax := size1 ys in
  match make_yy_mask (dec_n_heads blk) bs ymax (make_pad_mask ylens) with
  | Raise e => (blk, Raise e)
  | Ok yy_mask =>
      if String.eqb (dec_attn_type blk) "average" then (blk, Raise NotImplementedError)
      else
        let sa := mha_reset (dec_self_attn blk) in
        let _ys := dec_norm1 blk ys in
        let '(sa', r) := mha_call sa _ys _ys _ys yy_mask in
        let blk1 := dec_set_self_attn blk sa' in
        match (out <- r ;;
               let '(_ys, yy_aw) := out in
               ys1 <- add3 (dropout3 (dec_dropout1 blk) _ys) ys ;;
               Ok (ys1, yy_aw)) with
        | Raise e => (blk1, Raise e)
        | Ok (ys1, yy_aw) => decoder_src blk1 bs ymax ys1 ylens xs xlens yy_aw
        end
  end.

End Blocks.

End Transformer.

(** ** Concrete modules used to exercise the statements *)

Module Examples.
Import Torch Attention Transformer.

(** A single-unit attention layer whose linear maps are the identity. *)
Definition attn (ty : string) (s : R) : AttentionMechanism :=
  mkAttentionMechanism ty 1 s false 1 None None None
    (fun x => x) (fun x => x) (fun x => x) (fun x => hd 0 x)
    (mkConv2d [[1]] 0).

Definition no_drop : Dropout := mkDropout 0 true (fun _ => true).

(** The same layer with sigmoid smoothing and attention dropout as given. *)
Definition attn_with (ty : string) (s : R) (sig : bool) (d : option Dropout)
  : AttentionMechanism :=
  mkAttentionMechanism ty 1 s sig 1 None None d
    (fun x => x) (fun x => x) (fun x => x) (fun x => hd 0 x)
    (mkConv2d [[1]] 0).

Definition half_drop : Dropout := mkDropout (1 / 2) true (fun _ => true).

(** A location-aware layer with attention dimension 1 and one filter of
    width 3. *)
Definition attn_loc : AttentionMechanism :=
  mkAttentionMechanism "location" 1 1 false 1 None None None
    (fun x => [hd 0 x]) (fun x => [hd 0 x]) (fun x => [hd 0 x]) (fun x => hd 0 x)
    (mkConv2d [[1; 1; 1]] 1).

(** A feed-forward network with [d_model = 1] and [d_ff = 1]. *)
Definition ffn : PositionwiseFeedForward :=
  mkPositionwiseFeedForward (mkLinear 1 1 [[2]] [1]) (mkLinear 1 1 [[3]] [0])
                            (mkDropout (1 / 2) true (fun _ => true)).

(** An attention layer without state that returns its query. *)
Definition echo_call (st : unit) (k v q : tensor3) (mk : bmask4)
  : unit * result (tensor3 * unit) := (st, Ok (q, tt)).

Definition encoder_block : TransformerEncoderBlock unit :=
  mkTransformerEncoderBlock unit 1 tt (fun t => t) no_drop ffn (fun t => t) no_drop.

(** A decoder block over the echoing attention layer, with and without
    attention to the encoder. *)
Definition decoder_block (src : bool) : TransformerDecoderBlock unit :=
  mkTransformerDecoderBlock unit "scaled_dot" 1 src tt (fun t => t) no_drop
    (if src then Some tt else None)
    (if src then Some (fun t => t) else None)
    (if src then Some no_drop else None)
    ffn (fun t => t) no_drop.

End Examples.

(** ** The vocabulary of the statements *)

Module Spec.
Import Torch Attention Transformer.

(** No position [i] may look at a later position [j]. *)
Definition causal (m : bmask4) : Prop :=
  forall b h i j mb mh row x,
    nth_error m b = Some mb -> nth_error mb h = Some mh ->
    nth_error mh i = Some row -> nth_error row j = Some x ->
    (i < j)%nat -> x = 0%Z.

(** The weight [exp x] of an energy in the softmax; a masked energy weighs 0. *)
Definition ex (x : xfloat) : R :=
  match x with
  | Fin a => exp a
  | _ => 0
  end.

(** An energy that is finite or masked. *)
Definition fin_or_masked (x : xfloat) : Prop :=
  match x with
  | Fin _ | NInf => True
  | _ => False
  end.

Definition Rsum (l : list R) : R := fold_right Rplus 0 l.

(** A non-negative finite weight. *)
Definition weight_ok (x : xfloat) : Prop := exists r, x = Fin r /\ 0 <= r.

(** [sum_t row[t] * enc[t]], a vector of [width] entries. *)
Definition weighted_sum (width : nat) (row : xvec) (enc : mat) : xvec :=
  fold_right
    (fun (q : xfloat * vec) acc =>
       map (fun c => xadd (xmul (fst q) (Fin (fst c))) (snd c)) (combine (snd q) acc))
    (repeat (Fin 0) width) (combine row enc).

(** Every row of [t] has [T] entries. *)
Definition rows_of (T : nat) {A : Type} (t : list (list A)) : Prop :=
  Forall (fun r => length r = T) t.

(** The additive energy as the statement has it:
    [e[b][t] = v (tanh (w_enc enc_out[b][t] + w_dec dec_out[b]))]. *)
Definition energy_add_spec (m : AttentionMechanism) (enc_out : tensor3)
           (dec_out : list vec) : result mat :=
  zipM (fun encb d =>
          mapM (fun x => s <- add1 (w_enc m x) (w_dec m d) ;; Ok (v m (map tanh s))) encb)
       enc_out dec_out.

(** The dot-product energy as the statement has it:
    [e[b][t] = <w_enc enc_out[b][t], w_dec dec_out[b]>]. *)
Definition energy_dot_spec (m : AttentionMechanism) (enc_out : tensor3)
           (dec_out : list vec) : result mat :=
  zipM (fun encb d => mapM (fun x => dot (w_enc m x) (w_dec m d)) encb)
       enc_out dec_out.

(** The same two energies from encoder-side features [a] that the module
    holds: [a[b][t]] stands where [w_enc enc_out[b][t]] stood. *)
Definition energy_add_at (m : AttentionMechanism) (a : tensor3)
           (dec_out : list vec) : result mat :=
  zipM (fun ab d =>
          mapM (fun f => s <- add1 f (w_dec m d) ;; Ok (v m (map tanh s))) ab)
       a dec_out.

Definition energy_dot_at (m : AttentionMechanism) (a : tensor3)
           (dec_out : list vec) : result mat :=
  zipM (fun ab d => mapM (fun f => dot f (w_dec m d)) ab) a dec_out.

(** The weights computed from masked energies: scaled by the sharpening
    factor, then sigmoid or softmax. *)
Definition weights_spec (m : AttentionMechanism) (e : xmat) : xmat :=
  if sigmoid_smoothing m
  then map (map (fun x => xsigmoid (xmul x (Fin (sharpening_factor m))))) e
  else map (fun row => softmax (map (fun x => xmul x (Fin (sharpening_factor m))) row)) e.

(** What [nn.Linear(in_features, out_features)] guarantees of its parameters. *)
Definition linear_wf (l : Linear) : Prop :=
  length (weight l) = out_features l /\
  Forall (fun r => length r = in_features l) (weight l) /\
  length (bias l) = out_features l.

(** [sum_k x[k] * y[k]] *)
Definition inner (x y : vec) : R :=
  fold_right Rplus 0 (map (fun q => fst q * snd q) (combine x y)).

(** The affine map [W x + b] of a linear layer on one vector. *)
Definition affine (l : Linear) (x : vec) : vec :=
  map (fun q => fst q + snd q) (combine (map (inner x) (weight l)) (bias l)).

(** Dropout on the vector at position [b, t]. *)
Definition dropout_at (d : Dropout) (b t : nat) (h : vec) : vec :=
  if drop_active d then imap (fun k x => x * drop_scale d [b; t; k]) h else h.

(** The feed-forward network on the vector at position [b, t]:
    linear, ReLU, dropout, linear. *)
Definition ff_position (f : PositionwiseFeedForward) (b t : nat) (x : vec) : vec :=
  affine (w_2 f) (dropout_at (ff_dropout f) b t (map relu (affine (w_1 f) x))).

(** A tensor of shape [B, T, n]. *)
Definition last_dim (n : nat) (t : tensor3) : Prop :=
  Forall (Forall (fun x : vec => length x = n)) t.

(** The encoder block as the statement has it: with
    [r = xs + self_attn(norm1(xs), norm1(xs), norm1(xs), mask)] the result is
    [r + feed_forward(norm2(r))]. *)
Definition encoder_spec (MHA AW : Type) (mha_reset : MHA -> MHA)
           (mha_call : MHA -> tensor3 -> tensor3 -> tensor3 -> bmask4 ->
                       MHA * result (tensor3 * AW))
           (make_pad_mask : list Z -> bmask2)
           (blk : TransformerEncoderBlock MHA) (xs : tensor3) (xlens : list Z)
           (cache : bool)
  : TransformerEncoderBlock MHA * result (tensor3 * AW) :=
  match make_xx_mask (enc_n_heads MHA blk) (length xs) (size1 xs) (make_pad_mask xlens) with
  | Raise e => (blk, Raise e)
  | Ok mask =>
      let sa := if cache then enc_self_attn MHA blk else mha_reset (enc_self_attn MHA blk) in
      let n1 := enc_norm1 MHA blk xs in
      let '(sa', a) := mha_call sa n1 n1 n1 mask in
      (enc_set_self_attn MHA blk sa',
       out <- a ;;
       r <- add3 xs (fst out) ;;
       h <- ff_forward (enc_feed_forward MHA blk) (enc_norm2 MHA blk r) ;;
       y <- add3 r h ;;
       Ok (y, snd out))
  end.

(** [[a0; b0; a1; b1; ...]] *)
Fixpoint interleave (a b : vec) : vec :=
  match a, b with
  | x :: a', y :: b' => x :: y :: interleave a' b'
  | _, _ => []
  end.

(** The rows that [__init__] writes for an even [d_model]. *)
Definition pe_row (d_model : nat) (pos : R) : vec :=
  interleave (map (fun w => sin (pos * w)) (div_term d_model))
             (map (fun w => cos (pos * w)) (div_term d_model)).

(** The angle of the statement: [pos * 10000^(-k / d_model)]. *)
Definition pe_angle (d_model : nat) (pos k : nat) : R :=
  INR pos * Rpower 10000 (- INR k / INR d_model).

(** Entry-wise sums of two vectors, and of two matrices. *)
Definition vadd (x y : vec) : vec := map (fun c => fst c + snd c) (combine x y).
Definition madd (a b : mat) : mat := map (fun q => vadd (fst q) (snd q)) (combine a b).

(** Concatenation of the rows of two matrices. *)
Definition mcat (a b : mat) : mat := map (fun q => fst q ++ snd q) (combine a b).

(** Sigmoid or softmax, as the module is configured (lines 165-170). *)
Definition act_row (m : AttentionMechanism) (scaled : xvec) : xvec :=
  if sigmoid_smoothing m then map xsigmoid scaled else softmax scaled.

(** The attention dropout on row [b] (lines 172-173). *)
Definition drop_row (m : AttentionMechanism) (b : nat) (row : xvec) : xvec :=
  match dropout m with
  | Some d => if drop_active d
              then imap (fun i x => xmul x (Fin (drop_scale d [b; i]))) row
              else row
  | None => row
  end.

(** A mask entry is 0 or 1. *)
Definition is_bit (x : R) : Prop := x = 0 \/ x = 1.

(** The previous attention weights around position [t]: the entries
    [t - k .. t + k], zeros outside the sequence. *)
Definition loc_window (k : nat) (prev : vec) (t : nat) : vec :=
  firstn (2 * k + 1) (skipn t (repeat 0 k ++ prev ++ repeat 0 k)).

(** The location features of position [t]: one filter response per channel. *)
Definition loc_feat (c : Conv2d) (prev : vec) (t : nat) : vec :=
  map (fun w => sumprod w (loc_window (conv_kernel_size c) prev t)) (conv_weight c).

(** The location-aware energy:
    [e[b][t] = v (tanh (w_enc enc_out[b][t] + w_dec dec_out[b] + w_conv f[b][t]))]
    with [f[b][t]] the location features of the previous weights of [b]. *)
Definition energy_location_spec (m : AttentionMechanism) (enc_out : tensor3)
           (dec_out : list vec) (prev : mat) : mat :=
  map (fun q : (mat * vec) * vec =>
         map (fun xt : vec * nat =>
                v m (map tanh
                         (vadd (vadd (w_enc m (fst xt)) (w_dec m (snd (fst q))))
                               (w_conv m (loc_feat (conv m) (snd q) (snd xt))))))
             (combine (fst (fst q)) (seq 0 (length (fst (fst q))))))
      (combine (combine enc_out dec_out) prev).


(** Entries of nested lists by position; [None] outside the shape. *)
Definition entry2 {A : Type} (m : list (list A)) (i j : nat) : option A :=
  match nth_error m i with
  | Some r => nth_error r j
  | None => None
  end.

Definition entry3 {A : Type} (t : list (list (list A))) (b i j : nat) : option A :=
  match nth_error t b with
  | Some m => entry2 m i j
  | None => None
  end.

Definition entry4 {A : Type} (t : list (list (list (list A)))) (b h i j : nat) : option A :=
  match nth_error t b with
  | Some m => entry3 m h i j
  | None => None
  end.

(** A mask whose entries depend on the batch element and the key position
    only, not on the head or the query position. *)
Definition key_only (m : bmask4) : Prop :=
  forall b h h' i i' j x x',
    entry4 m b h i j = Some x -> entry4 m b h' i' j = Some x' -> x = x'.

(** The decoder block without dropout: with
    [r1 = ys + self_attn(norm1(ys), norm1(ys), norm1(ys), yy_mask)] and, when
    the block attends to the encoder,
    [r2 = r1 + src_attn(key=xs, value=xs, query=norm2(r1), xy_mask)]
    (otherwise [r2 = r1]) the result is [r2 + feed_forward(norm3(r2))]. *)
Definition decoder_spec (MHA AW : Type) (mha_reset : MHA -> MHA)
           (mha_call : MHA -> tensor3 -> tensor3 -> tensor3 -> bmask4 ->
                       MHA * result (tensor3 * AW))
           (make_pad_mask : list Z -> bmask2)
           (blk : TransformerDecoderBlock MHA) (ys : tensor3) (ylens : list Z)
           (xs : option tensor3) (xlens : list Z)
  : TransformerDecoderBlock MHA * result (tensor3 * AW * option AW) :=
  let ff r := h <- ff_forward (dec_feed_forward MHA blk) (dec_norm3 MHA blk r) ;;
              add3 r h in
  match make_yy_mask (dec_n_heads MHA blk) (length ys) (size1 ys) (make_pad_mask ylens) with
  | Raise e => (blk, Raise e)
  | Ok yy_mask =>
      if String.eqb (dec_attn_type MHA blk) "average" then (blk, Raise NotImplementedError)
      else
        let n1 := dec_norm1 MHA blk ys in
        let '(sa1, a1) := mha_call (mha_reset (dec_self_attn MHA blk)) n1 n1 n1 yy_mask in
        let blk1 := dec_set_self_attn MHA blk sa1 in
        match (out <- a1 ;; r1 <- add3 ys (fst out) ;; Ok (r1, snd out)) with
        | Raise e => (blk1, Raise e)
        | Ok (r1, yy_aw) =>
            if src_attention MHA blk then
              match xs with
              | None => (blk1, Raise AttributeError)
              | Some xs =>
                  match make_xy_mask (dec_n_heads MHA blk) (length ys) (size1 ys) (size1 xs)
                          (make_pad_mask xlens) (make_pad_mask ylens),
                        src_attn MHA blk, dec_norm2 MHA blk, dec_dropout2 MHA blk with
                  | Raise e, _, _, _ => (blk1, Raise e)
                  | Ok xy_mask, Some sa, Some norm2, Some _ =>
                      let '(sa2, a2) := mha_call (mha_reset sa) xs xs (norm2 r1) xy_mask in
                      (dec_set_src_attn MHA blk1 sa2,
                       out <- a2 ;;
                       r2 <- add3 r1 (fst out) ;;
                       y <- ff r2 ;;
                       Ok (y, yy_aw, Some (snd out)))
                  | Ok _, _, _, _ => (blk1, Raise AttributeError)
                  end
              end
            else (blk1, y <- ff r1 ;; Ok (y, yy_aw, None))
        end
  end.

(** What [TransformerDecoderBlock.__init__] establishes: the attention type
    is not "average", and the layers of the source attention exist exactly
    when [src_attention] is set. *)
Definition decoder_wf (MHA : Type) (blk : TransformerDecoderBlock MHA) : Prop :=
  dec_attn_type MHA blk <> "average"%string /\
  if src_attention MHA blk
  then src_attn MHA blk <> None /\ dec_norm2 MHA blk <> None /\ dec_dropout2 MHA blk <> None
  else src_attn MHA blk = None /\ dec_norm2 MHA blk = None /\ dec_dropout2 MHA blk = None.

(** The largest finite value and the smallest positive value of a 32-bit
    float. *)
Definition float_max : R := (2 - / 2 ^ 23) * 2 ^ 127.
Definition float_tiny : R := / 2 ^ 149.

(** A real within the range of the finite floats. *)
Definition float_ok (r : R) : Prop := Rabs r <= float_max.

(** A positive number that is positive and finite as a float, too. *)
Definition positive_float (s : R) : Prop := float_tiny <= s <= float_max.

(** The energies of the real positions (those before [l]) of a row are
    finite and stay finite when scaled by [s]. *)
Definition finite_before (s : R) (l : Z) (en : xvec) : Prop :=
  forall t x, nth_error en t = Some x -> (Z.of_nat t < l)%Z ->
              exists r, x = Fin r /\ float_ok (r * s).

(** An attention dropout, if any, whose scale [1 / (1 - p)] is a finite
    float. *)
Definition dropout_ok (m : AttentionMechanism) : Prop :=
  forall d, dropout m = Some d -> 0 <= p d < 1 /\ float_ok (/ (1 - p d)).

(** A computation whose only exception is the shape error of PyTorch. *)
Definition shape_error_only {A : Type} (r : result A) : Prop :=
  forall e, r = Raise e -> e = RuntimeError.

End Spec.

(** * Properties *)

(** ** The error monad and its list traversals *)

Section Traversals.

Context {A B C : Type}.

Lemma mapM_length (f : A -> result B) (l : list A) (r : list B) :
  mapM f l = Ok r -> length r = length l.
Proof.
  revert r; induction l as [|a l IH]; simpl; intros r H.
  - now inversion H.
  - destruct (f a); simpl in H; try discriminate.
    destruct (mapM f l); simpl in H; try discriminate.
    inversion H; subst; simpl; f_equal; now apply IH.
Qed.

Lemma mapM_nth (f : A -> result B) (l : list A) (r : list B) (i : nat) (y : B) :
  mapM f l = Ok r -> nth_error r i = Some y ->
  exists x, nth_error l i = Some x /\ f x = Ok y.
Proof.
  revert r i; induction l as [|a l IH]; simpl; intros r i H Hi.
  - inversion H; subst; destruct i; discriminate.
  - destruct (f a) eqn:Fa; simpl in H; try discriminate.
    destruct (mapM f l) eqn:Ml; simpl in H; try discriminate.
    inversion H; subst; destruct i; simpl in *.
    + inversion Hi; subst; eauto.
    + eapply IH; eauto.
Qed.

Lemma mapM_total (f : A -> result B) (g : A -> B) (l : list A) :
  (forall x, In x l -> f x = Ok (g x)) -> mapM f l = Ok (map g l).
Proof.
  induction l as [|a l IH]; simpl; intros H; [reflexivity|].
  rewrite (H a) by now left. simpl.
  rewrite IH by (intros; apply H; now right). reflexivity.
Qed.

Lemma mapM_ext (f g : A -> result B) (l : list A) :
  (forall x, In x l -> f x = g x) -> mapM f l = mapM g l.
Proof.
  induction l as [|a l IH]; simpl; intros H; [reflexivity|].
  rewrite (H a) by now left.
  rewrite IH by (intros; apply H; now right). reflexivity.
Qed.

Lemma zipM_length (f : A -> B -> result C) (xs : list A) (ys : list B) (r : list C) :
  zipM f xs ys = Ok r -> length r = length xs /\ length r = length ys.
Proof.
  revert ys r; induction xs as [|x xs IH]; intros [|y ys] r H; simpl in H;
    try discriminate.
  - inversion H; auto.
  - destruct (f x y); simpl in H; try discriminate.
    destruct (zipM f xs ys) eqn:Z; simpl in H; try discriminate.
    inversion H; subst; simpl. destruct (IH _ _ Z); split; congruence.
Qed.

Lemma zipM_nth (f : A -> B -> result C) (xs : list A) (ys : list B) (r : list C)
      (i : nat) (z : C) :
  zipM f xs ys = Ok r -> nth_error r i = Some z ->
  exists x y, nth_error xs i = Some x /\ nth_error ys i = Some y /\ f x y = Ok z.
Proof.
  revert ys r i; induction xs as [|x xs IH]; intros [|y ys] r i H Hi; simpl in H;
    try discriminate.
  - inversion H; subst; destruct i; discriminate.
  - destruct (f x y) eqn:F; simpl in H; try discriminate.
    destruct (zipM f xs ys) eqn:Z; simpl in H; try discriminate.
    inversion H; subst; destruct i; simpl in *.
    + inversion Hi; subst; eauto.
    + eapply IH; eauto.
Qed.

Lemma zipM_comm (f : A -> B -> result C) (g : B -> A -> result C)
      (xs : list A) (ys : list B) :
  (forall x y, f x y = g y x) -> zipM f xs ys = zipM g ys xs.
Proof.
  intros H; revert ys; induction xs as [|x xs IH]; intros [|y ys]; simpl; auto.
  now rewrite H, IH.
Qed.

End Traversals.

Lemma mapM_map {A B C : Type} (f : B -> result C) (g : A -> B) (l : list A) :
  mapM f (map g l) = mapM (fun x => f (g x)) l.
Proof.
  induction l as [|a l IH]; simpl; [reflexivity|]. now rewrite IH.
Qed.

Lemma nth_error_repeat {A : Type} (x : A) (n i : nat) :
  (i < n)%nat -> nth_error (repeat x n) i = Some x.
Proof.
  revert i; induction n as [|n IH]; intros i H; [lia|].
  destruct i; simpl; [reflexivity|]. apply IH; lia.
Qed.

(** ** Unsupported variants *)

Section Unsupported.
Import Torch Attention Transformer.

Lemma mask_rows_no_error (enc_time : nat) (x_lens : list Z) (rows : mat) (b : nat) :
  (b + length rows <= length x_lens)%nat ->
  snd (mask_rows enc_time x_lens b rows) = None.
Proof.
  revert b; induction rows as [|row rows IH]; intros b H; simpl in *; [reflexivity|].
  destruct (nth_error x_lens b) eqn:E.
  - specialize (IH (S b)).
    destruct (mask_rows enc_time x_lens (S b) rows); simpl in *.
    apply IH; lia.
  - apply nth_error_None in E; lia.
Qed.

Lemma cached_mask_no_error (m : AttentionMechanism) (enc_out : tensor3) (x_lens : list Z) :
  mask m <> None \/ (length enc_out <= length x_lens)%nat ->
  snd (cached_mask m (length enc_out) (size1 enc_out) x_lens) = None.
Proof.
  unfold cached_mask, make_mask; intros [H|H].
  - destruct (mask m); [reflexivity | congruence].
  - destruct (mask m); [reflexivity|].
    apply mask_rows_no_error. rewrite repeat_length. lia.
Qed.

Lemma energy_of_luong (m : AttentionMechanism) a bs enc_time dec_out aw_step :
  In (attn_type m) ["luong_dot"; "luong_general"; "luong_concat"]%string ->
  energy_of m a bs enc_time dec_out aw_step = Raise NotImplementedError.
Proof.
  unfold energy_of; intros [H|[H|[H|[]]]]; rewrite <- H; reflexivity.
Qed.

(** C10.  [AttentionMechanism.forward] raises NotImplementedError for the
    three Luong attention types (on a call whose [x_lens] covers the batch,
    or whose mask is cached, so that the mask loop does not raise first);
    [TransformerDecoderBlock.__init__] raises NotImplementedError for the
    attention type "average"; [PositionalEncoding.forward] raises
    NotImplementedError for every truthy [pe_type] that is neither "add" nor
    "concat".  A raised exception is the whole outcome: nothing is
    returned. *)
Theorem unsupported_variants_raise :
  (forall (m : AttentionMechanism) enc_out x_lens dec_out aw_step,
      In (attn_type m) ["luong_dot"; "luong_general"; "luong_concat"]%string ->
      mask m <> None \/ (length enc_out <= length x_lens)%nat ->
      snd (forward m enc_out x_lens dec_out aw_step) = Raise NotImplementedError)
  /\ (forall (MHA : Type) n_heads src_attention (self_attn : MHA) norm1 dropout1
             src_attn norm2 dropout2 feed_forward norm3 dropout3,
         decoder_init MHA "average" n_heads src_attention self_attn norm1 dropout1
                      src_attn norm2 dropout2 feed_forward norm3 dropout3
         = Raise NotImplementedError)
  /\ (forall (m : PositionalEncoding) xs,
         truthy (pe_type m) = true ->
         is_type (pe_type m) "add" = false ->
         is_type (pe_type m) "concat" = false ->
         pe_forward m xs = Raise NotImplementedError).
Proof.
  split; [|split].
  - intros m enc_out x_lens dec_out aw_step Hty Hx.
    unfold forward.
    pose proof (cached_mask_no_error m enc_out x_lens Hx) as E.
    destruct (cached_mask m (length enc_out) (size1 enc_out) x_lens) as [mk err].
    simpl in E; subst err; simpl.
    unfold forward_energy. now rewrite energy_of_luong.
  - reflexivity.
  - intros m xs Ht Ha Hc. unfold pe_forward. now rewrite Ht, Ha, Hc.
Qed.

Lemma unsupported_variants_raise_witness :
  snd (forward (Examples.attn "luong_general" 1) [[[1]]] [1%Z] [[1]] None)
  = Raise NotImplementedError
  /\ pe_forward (mkPositionalEncoding 2 (Some "mul"%string) None None) [[[1; 1]]]
     = Raise NotImplementedError.
Proof.
  destruct unsupported_variants_raise as [H1 [_ H3]]. split.
  - apply H1; [simpl; tauto | right; simpl; lia].
  - apply H3; reflexivity.
Defined.

End Unsupported.

(** ** The padding mask and the cache of the attention layer *)

Section Cache.
Import Torch Attention.

Lemma mask_rows_nth (enc_time : nat) (x_lens : list Z) (rows rows' : mat) (b : nat) :
  mask_rows enc_time x_lens b rows = (rows', None) ->
  forall i row', nth_error rows' i = Some row' ->
    exists row l, nth_error rows i = Some row /\
                  nth_error x_lens (b + i) = Some l /\
                  row' = if (l <? Z.of_nat enc_time)%Z
                         then fill_from (slice_start l enc_time) row
                         else row.
Proof.
  revert rows' b; induction rows as [|row rows IH]; intros rows' b H i row' Hi;
    simpl in H.
  - inversion H; subst. destruct i; discriminate.
  - destruct (nth_error x_lens b) as [l|] eqn:E; [|discriminate].
    destruct (mask_rows enc_time x_lens (S b) rows) as [rest e] eqn:M.
    inversion H; subst. destruct i as [|i]; simpl in Hi.
    + inversion Hi; subst. exists row, l. rewrite Nat.add_0_r. auto.
    + destruct (IH _ _ M i row' Hi) as (r & l' & H1 & H2 & H3).
      exists r, l'. simpl. replace (b + S i)%nat with (S b + i)%nat by lia. auto.
Qed.

Lemma mask_rows_length (enc_time : nat) (x_lens : list Z) (rows : mat) (b : nat) :
  length (fst (mask_rows enc_time x_lens b rows)) = length rows.
Proof.
  revert b; induction rows as [|row rows IH]; intros b; simpl; [reflexivity|].
  destruct (nth_error x_lens b); [|reflexivity].
  specialize (IH (S b)).
  destruct (mask_rows enc_time x_lens (S b) rows); simpl in *. now rewrite IH.
Qed.

Lemma make_mask_length (bs enc_time : nat) (x_lens : list Z) (mk : mat) (e : option exn) :
  make_mask bs enc_time x_lens = (mk, e) -> length mk = bs.
Proof.
  unfold make_mask. intros H.
  pose proof (mask_rows_length enc_time x_lens (repeat (repeat 1 enc_time) bs) 0) as L.
  rewrite H in L. simpl in L. now rewrite repeat_length in L.
Qed.

Lemma make_mask_covered (bs enc_time : nat) (x_lens : list Z) (mk : mat) (e : option exn) :
  make_mask bs enc_time x_lens = (mk, e) -> (bs <= length x_lens)%nat -> e = None.
Proof.
  unfold make_mask. intros H L.
  pose proof (mask_rows_no_error enc_time x_lens (repeat (repeat 1 enc_time) bs) 0) as N.
  rewrite H in N. apply N. rewrite repeat_length. lia.
Qed.

Lemma fill_from_length (s : nat) (row : vec) :
  (s <= length row)%nat -> length (fill_from s row) = length row.
Proof.
  intros H. unfold fill_from. rewrite length_app, length_firstn, repeat_length. lia.
Qed.

Lemma fill_from_ones (s n t : nat) :
  (s <= n)%nat -> (t < n)%nat ->
  nth_error (fill_from s (repeat 1 n)) t = Some (if (t <? s)%nat then 1 else 0).
Proof.
  intros Hs Ht. unfold fill_from. rewrite repeat_length.
  destruct (Nat.ltb_spec t s).
  - rewrite nth_error_app1 by (rewrite length_firstn, repeat_length; lia).
    rewrite nth_error_firstn.
    destruct (Nat.ltb_spec t s); [|lia]. apply nth_error_repeat; lia.
  - rewrite nth_error_app2 by (rewrite length_firstn, repeat_length; lia).
    apply nth_error_repeat. rewrite length_firstn, repeat_length. lia.
Qed.

(** The mask of a call whose [x_lens] are lengths: row [b] is 1 on the first
    [x_lens[b]] positions and 0 behind them. *)
Lemma make_mask_entry (bs enc_time : nat) (x_lens : list Z) (mk : mat) (b t : nat) (l : Z) :
  make_mask bs enc_time x_lens = (mk, None) ->
  nth_error x_lens b = Some l -> (0 <= l)%Z ->
  (b < bs)%nat -> (t < enc_time)%nat ->
  exists row, nth_error mk b = Some row /\ length row = enc_time /\
              nth_error row t = Some (if (Z.of_nat t <? l)%Z then 1 else 0).
Proof.
  unfold make_mask; intros H Hl Hpos Hb Ht.
  assert (Hlen : length mk = bs).
  { pose proof (mask_rows_length enc_time x_lens (repeat (repeat 1 enc_time) bs) 0) as L.
    rewrite H in L; simpl in L. now rewrite repeat_length in L. }
  destruct (nth_error mk b) as [row'|] eqn:E.
  2:{ apply nth_error_None in E; lia. }
  destruct (mask_rows_nth _ _ _ _ _ H b row' E) as (row & l' & H1 & H2 & H3).
  simpl in H2. rewrite Hl in H2; inversion H2; subst l'.
  rewrite nth_error_repeat in H1 by lia. inversion H1; subst row.
  exists row'; split; [reflexivity|].
  destruct (Z.ltb_spec l (Z.of_nat enc_time)) as [Hlt|Hge]; subst row'.
  - assert (S : slice_start l enc_time = Z.to_nat l).
    { unfold slice_start. destruct (Z.ltb_spec l 0); lia. }
    rewrite S. split.
    + rewrite fill_from_length; rewrite repeat_length; lia.
    + rewrite fill_from_ones by lia.
      destruct (Nat.ltb_spec t (Z.to_nat l)); destruct (Z.ltb_spec (Z.of_nat t) l);
        try reflexivity; lia.
  - split; [apply repeat_length|].
    rewrite nth_error_repeat by lia.
    destruct (Z.ltb_spec (Z.of_nat t) l); [reflexivity | lia].
Qed.

Lemma set_cached_same (m : AttentionMechanism) (a : tensor3) (k : mat) :
  enc_out_a m = Some a -> mask m = Some k ->
  set_mask (set_enc_out_a m (Some a)) (Some k) = m.
Proof.
  destruct m; simpl; intros; subst; reflexivity.
Qed.

(** C9.  The first call of [forward] (both caches empty) stores
    [w_enc(enc_out)] in [enc_out_a] and the padding mask built from
    [x_lens] in [mask]: ones on the first [x_lens[b]] positions of row [b],
    zeros behind them.  A call on a module whose caches are filled leaves
    the whole module as it is and computes its result from the cached
    values, whatever [enc_out], [x_lens] and the shapes of the call are.
    [reset] empties both caches and changes no other attribute. *)
Theorem cache_until_reset :
  (forall (m : AttentionMechanism) enc_out x_lens dec_out aw_step,
      enc_out_a m = None -> mask m = None ->
      let m' := fst (forward m enc_out x_lens dec_out aw_step) in
      enc_out_a m' = Some (LinearND (w_enc m) enc_out) /\
      mask m' = Some (fst (make_mask (length enc_out) (size1 enc_out) x_lens)) /\
      ((length enc_out <= length x_lens)%nat ->
       forall b t l, nth_error x_lens b = Some l -> (0 <= l)%Z ->
         (b < length enc_out)%nat -> (t < size1 enc_out)%nat ->
         exists k row, mask m' = Some k /\ nth_error k b = Some row /\
           nth_error row t = Some (if (Z.of_nat t <? l)%Z then 1 else 0)))
  /\ (forall (m : AttentionMechanism) a k enc_out x_lens dec_out aw_step,
         enc_out_a m = Some a -> mask m = Some k ->
         fst (forward m enc_out x_lens dec_out aw_step) = m /\
         snd (forward m enc_out x_lens dec_out aw_step)
         = (energy <- energy_of m a (length enc_out) (size1 enc_out) dec_out
                        (match aw_step with
                         | None => repeat (repeat 0 (size1 enc_out)) (length enc_out)
                         | Some w => w
                         end) ;;
            attend m k energy enc_out))
  /\ (forall m : AttentionMechanism,
         enc_out_a (reset m) = None /\ mask (reset m) = None /\
         attn_type (reset m) = attn_type m /\ attn_dim (reset m) = attn_dim m /\
         sharpening_factor (reset m) = sharpening_factor m /\
         sigmoid_smoothing (reset m) = sigmoid_smoothing m /\
         nheads (reset m) = nheads m /\ dropout (reset m) = dropout m /\
         w_enc (reset m) = w_enc m /\ w_dec (reset m) = w_dec m /\
         w_conv (reset m) = w_conv m /\ v (reset m) = v m /\ conv (reset m) = conv m).
Proof.
  split; [|split].
  - intros m enc_out x_lens dec_out aw_step Ha Hm m'.
    assert (E : m' = set_mask (set_enc_out_a m (Some (LinearND (w_enc m) enc_out)))
                       (Some (fst (make_mask (length enc_out) (size1 enc_out) x_lens)))).
    { subst m'. unfold forward, cached_mask, cached_enc_out_a. rewrite Ha, Hm.
      destruct (make_mask (length enc_out) (size1 enc_out) x_lens); reflexivity. }
    rewrite E; simpl. split; [reflexivity|]. split; [reflexivity|].
    intros Hx b t l Hl Hpos Hb Ht.
    destruct (make_mask (length enc_out) (size1 enc_out) x_lens) as [mk e] eqn:M.
    assert (e = None).
    { pose proof (mask_rows_no_error (size1 enc_out) x_lens
                    (repeat (repeat 1 (size1 enc_out)) (length enc_out)) 0) as N.
      unfold make_mask in M. rewrite M in N. simpl in N. apply N.
      rewrite repeat_length. lia. }
    subst e.
    destruct (make_mask_entry _ _ _ _ b t l M Hl Hpos Hb Ht) as (row & R1 & _ & R2).
    exists mk, row. simpl. auto.
  - intros m a k enc_out x_lens dec_out aw_step Ha Hm.
    unfold forward, forward_energy, cached_mask, cached_enc_out_a.
    rewrite Ha, Hm. simpl. split; [|reflexivity].
    now apply set_cached_same.
  - intros m. destruct m; simpl. repeat split.
Qed.

Lemma cache_until_reset_witness :
  let m1 := fst (forward (Examples.attn "dot" 1) [[[1]; [2]]] [1%Z] [[1]] None) in
  enc_out_a m1 = Some [[[1]; [2]]] /\
  fst (forward m1 [[[5]; [6]; [7]]; [[8]; [9]; [10]]] [3%Z; 3%Z] [[1]; [1]] None) = m1.
Proof.
  destruct cache_until_reset as [H1 [H2 _]].
  destruct (H1 (Examples.attn "dot" 1) [[[1]; [2]]] [1%Z] [[1]] None
               eq_refl eq_refl) as (E1 & E2 & _).
  split; [exact E1|].
  exact (proj1 (H2 _ _ _ [[[5]; [6]; [7]]; [[8]; [9]; [10]]] [3%Z; 3%Z]
                  [[1]; [1]] None E1 E2)).
Defined.

End Cache.

(** ** The self-attention mask of the decoder block *)

Section Causal.
Import Torch Transformer Spec.

Lemma nth_error_repeat_inv {A : Type} (x y : A) (n i : nat) :
  nth_error (repeat x n) i = Some y -> y = x.
Proof.
  intros H. apply nth_error_In, repeat_spec in H. exact H.
Qed.

Lemma nth_error_map_seq {A : Type} (f : nat -> A) (n i : nat) (y : A) :
  nth_error (map f (seq 0 n)) i = Some y -> y = f i /\ (i < n)%nat.
Proof.
  intros H. rewrite nth_error_map in H.
  destruct (nth_error (seq 0 n) i) as [k|] eqn:E; simpl in H; [|discriminate].
  inversion H; subst.
  assert (L : (i < n)%nat).
  { assert (N : nth_error (seq 0 n) i <> None) by congruence.
    apply nth_error_Some in N. now rewrite length_seq in N. }
  rewrite nth_error_seq in E.
  destruct (Nat.ltb_spec i n); [|lia]. inversion E; subst. auto.
Qed.

Lemma tril_ones_upper (n i j : nat) (row : list byte) (x : byte) :
  nth_error (tril_ones n) i = Some row -> nth_error row j = Some x ->
  (i < j)%nat -> x = 0%Z.
Proof.
  unfold tril_ones; intros Hi Hj Hlt.
  apply nth_error_map_seq in Hi as [-> _].
  apply nth_error_map_seq in Hj as [-> _].
  destruct (Nat.leb_spec j i); [lia | reflexivity].
Qed.

Lemma make_yy_mask_causal (n_heads bs ymax : nat) (pad : bmask2) (m : bmask4) :
  make_yy_mask n_heads bs ymax pad = Ok m -> causal m.
Proof.
  unfold make_yy_mask, zip4. intros H b h i j mb mh row x Hb Hh Hi Hj Hlt.
  destruct (expand_rows bs ymax ymax pad) as [yy|]; simpl in H; [|discriminate].
  destruct (zipM_nth _ _ _ _ _ _ H Hb) as (pb & sb & _ & Sb & Zb).
  destruct (zipM_nth _ _ _ _ _ _ Zb Hh) as (ph & sh & _ & Sh & Zh).
  destruct (zipM_nth _ _ _ _ _ _ Zh Hi) as (pi & si & _ & Si & Zi).
  destruct (zipM_nth _ _ _ _ _ _ Zi Hj) as (u & w & _ & Sj & Zj).
  apply nth_error_repeat_inv in Sb; subst sb.
  apply nth_error_repeat_inv in Sh; subst sh.
  rewrite (tril_ones_upper _ _ _ _ _ Si Sj Hlt) in Zj.
  inversion Zj. unfold band. apply Z.land_0_r.
Qed.

Lemma zipM_ok {A B C : Type} (f : A -> B -> result C) (xs : list A) (ys : list B) :
  length xs = length ys ->
  (forall x y, In x xs -> In y ys -> exists z, f x y = Ok z) ->
  exists zs, zipM f xs ys = Ok zs.
Proof.
  revert ys; induction xs as [|x xs IH]; intros [|y ys] L H; simpl in L;
    try discriminate.
  - now exists [].
  - destruct (H x y) as [z Hz]; [now left | now left |].
    destruct (IH ys) as [zs Hzs]; [lia | intros; apply H; now right |].
    exists (z :: zs). simpl. now rewrite Hz, Hzs.
Qed.

Lemma expand_rows_ok (bs rows cols : nat) (pad : bmask2) :
  length pad = bs -> Forall (fun r => length r = cols) pad ->
  expand_rows bs rows cols pad = Ok (map (fun r => repeat r rows) pad).
Proof.
  intros L F. unfold expand_rows, expand0.
  rewrite L, Nat.eqb_refl. simpl.
  apply mapM_total. intros r Hr.
  rewrite Forall_forall in F. rewrite (F r Hr), Nat.eqb_refl. reflexivity.
Qed.

Lemma make_yy_mask_ok (n_heads bs ymax : nat) (pad : bmask2) :
  length pad = bs -> Forall (fun r => length r = ymax) pad ->
  exists m, make_yy_mask n_heads bs ymax pad = Ok m.
Proof.
  intros L F. unfold make_yy_mask. rewrite (expand_rows_ok _ _ _ _ L F). simpl.
  unfold zip4, expand_heads.
  apply zipM_ok; [now rewrite !length_map, repeat_length|].
  intros x y Hx Hy.
  apply in_map_iff in Hx as (x' & <- & Hx).
  apply in_map_iff in Hx as (r & <- & Hr).
  apply repeat_spec in Hy; subst y.
  apply zipM_ok; [now rewrite !repeat_length|].
  intros x y Hx Hy. apply repeat_spec in Hx, Hy; subst x y.
  apply zipM_ok; [unfold tril_ones; now rewrite repeat_length, length_map, length_seq|].
  intros x y Hx Hy. apply repeat_spec in Hx; subst x.
  unfold tril_ones in Hy. apply in_map_iff in Hy as (i & <- & _).
  apply zipM_ok.
  - rewrite Forall_forall in F. rewrite (F r Hr). now rewrite length_map, length_seq.
  - intros; eauto.
Qed.

Variable MHA : Type.
Variable AW : Type.
Variable mha_reset : MHA -> MHA.
Variable make_pad_mask : list Z -> bmask2.

(** C4.  The mask that [TransformerDecoderBlock.forward] builds for its
    self-attention (the padding mask intersected with the lower-triangular
    mask) is 0 at every [b, h, i, j] with [j > i]; it is built without error
    when the padding mask has one row of [ymax] entries per batch element;
    and the outcome of [forward] is the same with any two attention
    implementations that agree on masks of that kind and on the calls of
    the source-attention module, so the self-attention is only ever called
    with such a mask. *)
Theorem decoder_mask_causal :
  (forall n_heads bs ymax pad m,
      make_yy_mask n_heads bs ymax pad = Ok m -> causal m)
  /\ (forall n_heads bs ymax pad,
         length pad = bs -> Forall (fun r => length r = ymax) pad ->
         exists m, make_yy_mask n_heads bs ymax pad = Ok m /\ causal m)
  /\ (forall (call1 call2 : MHA -> tensor3 -> tensor3 -> tensor3 -> bmask4 ->
                             MHA * result (tensor3 * AW))
             (blk : TransformerDecoderBlock MHA) ys ylens xs xlens,
         (forall st k v q m, causal m -> call1 st k v q m = call2 st k v q m) ->
         (forall src k v q m, src_attn MHA blk = Some src ->
                              call1 (mha_reset src) k v q m = call2 (mha_reset src) k v q m) ->
         decoder_forward MHA AW mha_reset call1 make_pad_mask blk ys ylens xs xlens
         = decoder_forward MHA AW mha_reset call2 make_pad_mask blk ys ylens xs xlens).
Proof.
  split; [|split].
  - exact make_yy_mask_causal.
  - intros n_heads bs ymax pad L F.
    destruct (make_yy_mask_ok n_heads bs ymax pad L F) as [m Hm].
    exists m; split; [exact Hm | eapply make_yy_mask_causal; eauto].
  - intros call1 call2 blk ys ylens xs xlens Hagree Hsrc.
    unfold decoder_forward.
    destruct (make_yy_mask (dec_n_heads MHA blk) (length ys) (size1 ys)
                           (make_pad_mask ylens)) as [m|e] eqn:M; [|reflexivity].
    rewrite (Hagree _ _ _ _ m (make_yy_mask_causal _ _ _ _ _ M)).
    destruct (String.eqb (dec_attn_type MHA blk) "average"); [reflexivity|].
    destruct (call2 _ _ _ _ m) as [sa' r].
    destruct r as [[_ys yy_aw]|e]; simpl; [|reflexivity].
    destruct (add3 _ ys) as [ys1|e]; simpl; [|reflexivity].
    unfold decoder_src. cbn [src_attention src_attn dec_norm2 dec_dropout2
                             dec_n_heads dec_set_self_attn].
    destruct (src_attention MHA blk); [|reflexivity].
    destruct xs as [xs|]; [|reflexivity].
    destruct (make_xy_mask _ _ _ _ _ _) as [xy|e]; [|reflexivity].
    destruct (src_attn MHA blk) as [src|] eqn:S; [|reflexivity].
    destruct (dec_norm2 MHA blk) as [n2|]; [|reflexivity].
    destruct (dec_dropout2 MHA blk) as [d2|]; [|reflexivity].
    now rewrite (Hsrc src _ _ _ _ eq_refl).
Qed.

End Causal.

Lemma decoder_mask_causal_witness :
  exists m, Transformer.make_yy_mask 1 1 2 [[1%Z; 1%Z]] = Ok m /\ Spec.causal m.
Proof.
  apply (proj1 (proj2 (decoder_mask_causal unit unit (fun u => u) (fun _ => [])))).
  - reflexivity.
  - repeat constructor.
Defined.

(** ** Softmax over masked energies *)

Section Softmax.
Import Torch Attention Spec.

Lemma ex_nonneg (x : xfloat) : 0 <= ex x.
Proof.
  destruct x; simpl; try lra. left; apply exp_pos.
Qed.

Lemma Rsum_ex_nonneg (row : xvec) : 0 <= Rsum (map ex row).
Proof.
  induction row as [|x row IH]; simpl; [lra|].
  pose proof (ex_nonneg x). lra.
Qed.

Lemma Rsum_ex_pos (row : xvec) (a : R) :
  In (Fin a) row -> 0 < Rsum (map ex row).
Proof.
  induction row as [|x row IH]; simpl; [tauto|].
  intros [->|H].
  - simpl. pose proof (exp_pos a). pose proof (Rsum_ex_nonneg row). lra.
  - pose proof (ex_nonneg x). specialize (IH H). lra.
Qed.

Lemma xsum_Fin {A : Type} (f : A -> R) (l : list A) :
  xsum (map (fun x => Fin (f x)) l) = Fin (Rsum (map f l)).
Proof.
  unfold xsum.
  induction l as [|x l IH]; simpl; [reflexivity|].
  now rewrite IH.
Qed.

Lemma xexp_ok (x : xfloat) : fin_or_masked x -> xexp x = Fin (ex x).
Proof.
  destruct x; simpl; intros H; try reflexivity; contradiction.
Qed.

Lemma softmax_masked (row : xvec) :
  Forall fin_or_masked row -> 0 < Rsum (map ex row) ->
  softmax row = map (fun x => Fin (ex x / Rsum (map ex row))) row.
Proof.
  intros F P. unfold softmax.
  assert (E : map xexp row = map (fun x => Fin (ex x)) row).
  { apply map_ext_in. intros x Hx. apply xexp_ok.
    rewrite Forall_forall in F. now apply F. }
  rewrite E, xsum_Fin, map_map.
  apply map_ext. intros x. simpl.
  destruct (Req_dec_T (Rsum (map ex row)) 0); [lra | reflexivity].
Qed.

Lemma Rsum_div (l : list R) (s : R) :
  Rsum (map (fun x => x / s) l) = Rsum l / s.
Proof.
  induction l as [|x l IH]; simpl; [unfold Rdiv; ring|].
  rewrite IH. unfold Rdiv. ring.
Qed.

(** The softmax of a row of finite or masked energies with at least one
    finite entry is a probability distribution that vanishes exactly where
    the energy is masked. *)
Lemma softmax_distribution (row : xvec) (a : R) :
  Forall fin_or_masked row -> In (Fin a) row ->
  Forall weight_ok (softmax row) /\
  xsum (softmax row) = Fin 1 /\
  (forall t, nth_error row t = Some NInf -> nth_error (softmax row) t = Some (Fin 0)).
Proof.
  intros F I. pose proof (Rsum_ex_pos row a I) as P.
  rewrite (softmax_masked row F P). split; [|split].
  - apply Forall_forall. intros w Hw. apply in_map_iff in Hw as (x & <- & _).
    eexists; split; [reflexivity|].
    apply Rmult_le_pos; [apply ex_nonneg | left; now apply Rinv_0_lt_compat].
  - rewrite (xsum_Fin (fun x => ex x / Rsum (map ex row))). f_equal.
    pose proof (Rsum_div (map ex row) (Rsum (map ex row))) as D.
    rewrite map_map in D. rewrite D. field. lra.
  - intros t Ht. rewrite nth_error_map, Ht. simpl. do 2 f_equal.
    unfold Rdiv. ring.
Qed.

End Softmax.

(** ** Masking of the attention distribution *)

Ltac decide_reals :=
  repeat match goal with
         | |- context [Req_dec_T ?a ?b] => destruct (Req_dec_T a b); try lra
         | |- context [Rlt_dec ?a ?b] => destruct (Rlt_dec a b); try lra
         end.

Section Masking.
Import Torch Attention Spec.

Lemma mapM_Forall {A B : Type} (P : B -> Prop) (f : A -> result B) (l : list A) (r : list B) :
  mapM f l = Ok r -> (forall x y, In x l -> f x = Ok y -> P y) -> Forall P r.
Proof.
  intros H HP. apply Forall_forall. intros y Hy.
  apply In_nth_error in Hy as [i Hi].
  destruct (mapM_nth _ _ _ _ _ H Hi) as (x & Hx & Fx).
  eapply HP; eauto. eapply nth_error_In; eauto.
Qed.

Lemma zipM_Forall {A B C : Type} (P : C -> Prop) (f : A -> B -> result C)
      (xs : list A) (ys : list B) (r : list C) :
  zipM f xs ys = Ok r ->
  (forall x y z, In x xs -> In y ys -> f x y = Ok z -> P z) -> Forall P r.
Proof.
  intros H HP. apply Forall_forall. intros z Hz.
  apply In_nth_error in Hz as [i Hi].
  destruct (zipM_nth _ _ _ _ _ _ H Hi) as (x & y & Hx & Hy & Fxy).
  eapply HP; eauto; eapply nth_error_In; eauto.
Qed.

Lemma bzip_into_Forall {A B C : Type} (P : C -> Prop) (f : A -> B -> result C)
      (xs : list A) (ys : list B) (r : list C) :
  bzip_into f xs ys = Ok r ->
  (forall x y z, In x xs -> In y ys -> f x y = Ok z -> P z) -> Forall P r.
Proof.
  unfold bzip_into. intros H HP.
  destruct (Nat.eqb (length xs) (length ys)).
  - eapply zipM_Forall; eauto.
  - destruct ys as [|y [|y' ys]]; simpl in H; try discriminate.
    eapply mapM_Forall; eauto. intros x z Hx Hz. simpl in Hz.
    eapply HP; [exact Hx | now left | exact Hz].
Qed.

Lemma bzip_into_nth {A B C : Type} (f : A -> B -> result C)
      (xs : list A) (ys : list B) (r : list C) (i : nat) (z : C) :
  bzip_into f xs ys = Ok r -> (i < length ys)%nat -> nth_error r i = Some z ->
  exists x y, nth_error xs i = Some x /\ nth_error ys i = Some y /\ f x y = Ok z.
Proof.
  unfold bzip_into. intros H L Hi.
  destruct (Nat.eqb (length xs) (length ys)).
  - eapply zipM_nth; eauto.
  - destruct ys as [|y [|y' ys]]; simpl in H; try discriminate.
    simpl in L. assert (i = 0)%nat by lia. subst i.
    destruct (mapM_nth _ _ _ _ _ H Hi) as (x & Hx & Fx).
    exists x, y. auto.
Qed.

Lemma bzip_into_long {A B C : Type} (f : A -> B -> result C)
      (xs : list A) (ys : list B) (r : list C) :
  bzip_into f xs ys = Ok r -> (2 <= length ys)%nat -> zipM f xs ys = Ok r.
Proof.
  unfold bzip_into. intros H L.
  destruct (Nat.eqb (length xs) (length ys)); [exact H|].
  destruct ys as [|y [|y' ys]]; simpl in H; try discriminate. simpl in L; lia.
Qed.

Lemma forward_fresh (m : AttentionMechanism) enc_out x_lens dec_out aw_in m' ctx aw :
  mask m = None ->
  forward m enc_out x_lens dec_out aw_in = (m', Ok (ctx, aw)) ->
  exists mk energy,
    make_mask (length enc_out) (size1 enc_out) x_lens = (mk, None) /\
    forward_energy m enc_out dec_out aw_in = Ok energy /\
    attend m mk energy enc_out = Ok (ctx, aw).
Proof.
  intros Hm H. unfold forward, cached_mask in H. rewrite Hm in H.
  destruct (make_mask (length enc_out) (size1 enc_out) x_lens) as [mk err].
  inversion H as [[H1 H2]]; clear H H1.
  destruct err; [discriminate|].
  destruct (forward_energy m enc_out dec_out aw_in) as [energy|]; simpl in H2;
    [|discriminate].
  exists mk, energy. auto.
Qed.

End Masking.

(** With a sharpening factor of 0 the masked energies [-inf * 0] are NaN and
    so is the whole softmax row. *)
Lemma zero_sharpening_row :
  snd (Attention.forward (Examples.attn "dot" 0) [[[1]; [1]]] [1%Z] [[1]] None)
  = Ok ([[[Torch.NaN]]], [[Torch.NaN; Torch.NaN]]).
Proof.
  cbn. change (Pos.to_nat 1) with 1%nat. cbn.
  unfold Attention.attend, Attention.masked_fill, Attention.fill_cell. cbn.
  decide_reals.
  assert (N : Torch.xmul Torch.NInf (Torch.Fin 0) = Torch.NaN).
  { simpl. unfold Torch.by_sign. decide_reals. reflexivity. }
  rewrite !N. reflexivity.
Qed.

(** C1 as stated, without a condition on the sharpening factor, fails:
    [sharpening_factor = 0], [enc_time = 2], [x_lens = [1]] gives
    [aw_step[0, 1] = NaN]. *)
Lemma padded_positions_counterexample :
  ~ (forall (m : Attention.AttentionMechanism) enc_out x_lens dec_out aw_in m' ctx aw
            (b t : nat) (l : Z) (row : Torch.xvec),
        Attention.mask m = None -> Attention.sigmoid_smoothing m = false ->
        Attention.dropout m = None ->
        Attention.forward m enc_out x_lens dec_out aw_in = (m', Ok (ctx, aw)) ->
        (b < length enc_out)%nat -> nth_error x_lens b = Some l ->
        (1 <= l < Z.of_nat (Torch.size1 enc_out))%Z ->
        nth_error aw b = Some row ->
        (l <= Z.of_nat t < Z.of_nat (Torch.size1 enc_out))%Z ->
        nth_error row t = Some (Torch.Fin 0)).
Proof.
  intros H.
  assert (Hf : Attention.forward (Examples.attn "dot" 0) [[[1]; [1]]] [1%Z] [[1]] None
               = (fst (Attention.forward (Examples.attn "dot" 0) [[[1]; [1]]] [1%Z] [[1]] None),
                  Ok ([[[Torch.NaN]]], [[Torch.NaN; Torch.NaN]]))).
  { rewrite <- zero_sharpening_row. apply surjective_pairing. }
  assert (C : nth_error [Torch.NaN; Torch.NaN] 1 = Some (Torch.Fin 0)).
  { apply (H (Examples.attn "dot" 0) _ _ _ _ _ _ _ 0%nat 1%nat 1%Z _
              eq_refl eq_refl eq_refl Hf);
      try reflexivity; simpl; lia. }
  discriminate C.
Qed.

(** ** Shapes of the energies and the context vector *)

Section Shapes.
Import Torch Attention Spec.

Lemma mapM_nth_fwd {A B : Type} (f : A -> result B) (l : list A) (r : list B)
      (i : nat) (x : A) :
  mapM f l = Ok r -> nth_error l i = Some x ->
  exists y, nth_error r i = Some y /\ f x = Ok y.
Proof.
  revert r i; induction l as [|a l IH]; simpl; intros r i H Hi.
  - destruct i; discriminate.
  - destruct (f a) eqn:Fa; simpl in H; try discriminate.
    destruct (mapM f l) eqn:Ml; simpl in H; try discriminate.
    inversion H; subst; destruct i; simpl in *.
    + inversion Hi; subst; eauto.
    + eapply IH; eauto.
Qed.

Lemma zipM_nth_fwd {A B C : Type} (f : A -> B -> result C) (xs : list A) (ys : list B)
      (r : list C) (i : nat) (x : A) (y : B) :
  zipM f xs ys = Ok r -> nth_error xs i = Some x -> nth_error ys i = Some y ->
  exists z, nth_error r i = Some z /\ f x y = Ok z.
Proof.
  revert ys r i; induction xs as [|a xs IH]; intros [|b ys] r i H Hx Hy; simpl in H;
    try discriminate.
  - destruct i; discriminate.
  - destruct (f a b) eqn:F; simpl in H; try discriminate.
    destruct (zipM f xs ys) eqn:Z; simpl in H; try discriminate.
    inversion H; subst; destruct i; simpl in *.
    + inversion Hx; inversion Hy; subst; eauto.
    + eapply IH; eauto.
Qed.

Lemma bzip_same_length {A B C : Type} (f : A -> B -> result C) (xs : list A) (ys : list B) :
  length xs = length ys -> bzip f xs ys = zipM f xs ys.
Proof.
  intros L. unfold bzip. now rewrite L, Nat.eqb_refl.
Qed.

Lemma bzip_cases {A B C : Type} (f : A -> B -> result C) (xs : list A) (ys : list B)
      (r : list C) :
  bzip f xs ys = Ok r ->
  zipM f xs ys = Ok r
  \/ (exists x, xs = [x] /\ mapM (f x) ys = Ok r)
  \/ (exists y, ys = [y] /\ mapM (fun x => f x y) xs = Ok r).
Proof.
  unfold bzip. intros H.
  destruct (Nat.eqb (length xs) (length ys)); [now left|].
  destruct xs as [|x0 [|x1 xs]]; destruct ys as [|y0 [|y1 ys]]; simpl in H;
    try discriminate; eauto.
Qed.

Lemma bzip_Forall {A B C : Type} (P : C -> Prop) (f : A -> B -> result C)
      (xs : list A) (ys : list B) (r : list C) :
  bzip f xs ys = Ok r ->
  (forall x y z, In x xs -> In y ys -> f x y = Ok z -> P z) -> Forall P r.
Proof.
  intros H HP. destruct (bzip_cases _ _ _ _ H) as [Z|[(x & -> & M)|(y & -> & M)]].
  - eapply zipM_Forall; eauto.
  - eapply mapM_Forall; eauto. intros y z Hy Hz. eapply HP; eauto. now left.
  - eapply mapM_Forall; eauto. intros x z Hx Hz. simpl in Hz.
    eapply HP; [exact Hx | now left | exact Hz].
Qed.

Lemma bzip_nth_fwd {A B C : Type} (f : A -> B -> result C) (xs : list A) (ys : list B)
      (r : list C) (i : nat) (x : A) (y : B) :
  bzip f xs ys = Ok r -> nth_error xs i = Some x -> nth_error ys i = Some y ->
  exists z, nth_error r i = Some z /\ f x y = Ok z.
Proof.
  intros H Hx Hy. destruct (bzip_cases _ _ _ _ H) as [Z|[(x0 & -> & M)|(y0 & -> & M)]].
  - eapply zipM_nth_fwd; eauto.
  - destruct i as [|[|i]]; simpl in Hx; try discriminate. inversion Hx; subst x0.
    eapply mapM_nth_fwd; eauto.
  - destruct i as [|[|i]]; simpl in Hy; try discriminate. inversion Hy; subst y0.
    destruct (mapM_nth_fwd _ _ _ _ _ M Hx) as (z & Hz & Fz). eauto.
Qed.

Lemma add3_rows (T : nat) (x y z : tensor3) :
  rows_of T x -> rows_of T y -> add3 x y = Ok z -> rows_of T z.
Proof.
  unfold rows_of. intros Hx Hy H. eapply bzip_Forall; [exact H|].
  intros xb yb zb Ix Iy Hz. rewrite Forall_forall in Hx, Hy.
  unfold add2 in Hz. rewrite bzip_same_length in Hz by (rewrite Hx, Hy; auto).
  destruct (zipM_length _ _ _ _ Hz) as [L _]. rewrite L. now apply Hx.
Qed.

Lemma LinearND_rows (T : nat) (f : vec -> vec) (t : tensor3) :
  rows_of T t -> rows_of T (LinearND f t).
Proof.
  unfold rows_of, LinearND. intros H. apply Forall_map.
  eapply Forall_impl; [|exact H]. intros a Ha. simpl. now rewrite length_map.
Qed.

Lemma expand_dec_rows (bs T : nat) (dec_out : list vec) (dec : tensor3) :
  expand_dec bs T dec_out = Ok dec -> rows_of T dec.
Proof.
  unfold expand_dec. destruct (expand0 bs dec_out); simpl; intros H; [|discriminate].
  inversion H. unfold rows_of. apply Forall_map, Forall_forall.
  intros d _. apply repeat_length.
Qed.

Lemma transpose_length (c : nat) (m : mat) :
  Forall (fun r => length r = c) m -> length (transpose c m) = c.
Proof.
  induction m as [|row m IH]; simpl; intros H.
  - apply repeat_length.
  - inversion H; subst. rewrite length_map, length_combine, IH by assumption.
    apply Nat.min_id.
Qed.

Lemma chunks_rows (r c : nat) (flat : vec) :
  length flat = (r * c)%nat -> rows_of c (chunks r c flat).
Proof.
  unfold rows_of. revert flat; induction r as [|r IH]; simpl; intros flat L.
  - constructor.
  - constructor.
    + rewrite length_firstn. lia.
    + apply IH. rewrite length_skipn. lia.
Qed.

Lemma conv_feat_rows (c : Conv2d) (T : nat) (aw : mat) :
  rows_of T aw -> rows_of T (map (transpose T) (conv_forward c aw)).
Proof.
  unfold rows_of, conv_forward. intros H. rewrite map_map. apply Forall_map.
  eapply Forall_impl; [|exact H]. intros row Hrow. simpl.
  apply transpose_length. apply Forall_map, Forall_forall. intros w _.
  unfold conv_row. now rewrite length_map, length_seq.
Qed.

Lemma squeeze2_rows (T : nat) (t : tensor3) (e : mat) :
  rows_of T t -> squeeze2 t = Ok e -> rows_of T e.
Proof.
  unfold rows_of, squeeze2. intros Ht H.
  eapply mapM_Forall; [exact H|]. intros x y Hx Hy.
  rewrite (mapM_length _ _ _ Hy). rewrite Forall_forall in Ht. now apply Ht.
Qed.

(** Every row of the energy has [enc_time] entries. *)
Lemma energy_rows (m : AttentionMechanism) (a : tensor3) (bs T : nat)
      (dec_out : list vec) (aw_step : mat) (energy : mat) :
  rows_of T a -> energy_of m a bs T dec_out aw_step = Ok energy -> rows_of T energy.
Proof.
  intros Ha. unfold energy_of.
  destruct (String.eqb (attn_type m) "add").
  { destruct (expand_dec bs T dec_out) as [dec|] eqn:D; simpl; [|discriminate].
    destruct (add3 a (LinearND (w_dec m) dec)) as [s|] eqn:S; simpl; [|discriminate].
    intros H; inversion H.
    pose proof (add3_rows T _ _ _ Ha (LinearND_rows T _ _ (expand_dec_rows _ _ _ _ D)) S) as R.
    unfold rows_of, Tanh in *. rewrite map_map. apply Forall_map.
    eapply Forall_impl; [|exact R]. intros r Hr. simpl. now rewrite !length_map. }
  destruct (String.eqb (attn_type m) "location").
  { destruct (expand_dec bs T dec_out) as [dec|] eqn:D; simpl; [|discriminate].
    unfold view2.
    destruct (Nat.eqb (length (concat aw_step)) (bs * T)) eqn:V; simpl; [|discriminate].
    apply Nat.eqb_eq in V.
    destruct (add3 a (LinearND (w_dec m) dec)) as [s|] eqn:S; simpl; [|discriminate].
    destruct (add3 s _) as [s'|] eqn:S'; simpl; [|discriminate].
    intros H; inversion H.
    pose proof (add3_rows T _ _ _ Ha (LinearND_rows T _ _ (expand_dec_rows _ _ _ _ D)) S) as R.
    pose proof (add3_rows T _ _ _ R
                  (LinearND_rows T _ _ (conv_feat_rows _ T _ (chunks_rows _ _ _ V))) S') as R'.
    unfold rows_of, Tanh in *. rewrite map_map. apply Forall_map.
    eapply Forall_impl; [|exact R']. intros r Hr. simpl. now rewrite !length_map. }
  destruct (String.eqb (attn_type m) "dot").
  { destruct (matmul3_t a _) as [r|] eqn:M; simpl; [|discriminate].
    intros H. eapply squeeze2_rows; [|exact H].
    unfold rows_of. eapply bzip_Forall; [exact M|].
    intros x y z Hx _ Hz. unfold mm in Hz.
    rewrite (mapM_length _ _ _ Hz). unfold rows_of in Ha.
    rewrite Forall_forall in Ha. now apply Ha. }
  repeat (destruct (String.eqb (attn_type m) _); [discriminate|]).
  discriminate.
Qed.

Lemma xdot_cons (w : xfloat) (row : xvec) (x : R) (col : vec) :
  xdot (w :: row) (x :: col) = (r <- xdot row col ;; Ok (xadd (xmul w (Fin x)) r)).
Proof. reflexivity. Qed.

Lemma xdot_columns (w : xfloat) (row : xvec) (e : vec) (M : mat) (r : xvec) :
  length e = length M ->
  mapM (xdot (w :: row)) (map (fun q => fst q :: snd q) (combine e M)) = Ok r ->
  exists r', mapM (xdot row) M = Ok r' /\
             r = map (fun c => xadd (xmul w (Fin (fst c))) (snd c)) (combine e r').
Proof.
  revert M r; induction e as [|x e IH]; intros [|col M] r L H;
    try (simpl in L; discriminate).
  - cbn in H. inversion H. now exists [].
  - cbn [combine map mapM fst snd] in H. rewrite xdot_cons in H.
    destruct (xdot row col) as [d|] eqn:D; [|discriminate].
    cbn [bind] in H.
    destruct (mapM (xdot (w :: row)) (map (fun q => fst q :: snd q) (combine e M)))
      as [rs|] eqn:R; [|discriminate].
    cbn [bind] in H. inversion H; subst r.
    simpl in L. assert (L' : length e = length M) by lia.
    destruct (IH M rs L' R) as (r' & Hr' & ->).
    exists (d :: r'). cbn [mapM]. rewrite D, Hr'. cbn. auto.
Qed.

Lemma xdot_no_rows (E : nat) (row r : xvec) :
  mapM (xdot row) (repeat [] E) = Ok r -> r = repeat (Fin 0) E.
Proof.
  revert r; induction E as [|E IHE]; intros r H; cbn [repeat mapM] in H.
  - now inversion H.
  - destruct row as [|w row]; [|discriminate].
    change (xdot [] []) with (Ok (Fin 0)) in H. cbn [bind] in H.
    destruct (mapM (xdot []) (repeat [] E)) as [rs|] eqn:R; [|discriminate].
    cbn [bind] in H. inversion H. cbn [repeat]. f_equal. now apply IHE.
Qed.

(** The product of a row of weights with the encoder outputs is the
    weighted sum of the encoder vectors. *)
Lemma xdot_transpose (E : nat) (enc : mat) (row r : xvec) :
  Forall (fun v => length v = E) enc ->
  mapM (xdot row) (transpose E enc) = Ok r ->
  r = weighted_sum E row enc.
Proof.
  unfold weighted_sum.
  revert row r; induction enc as [|e enc IH]; intros row r F H;
    cbn [transpose] in H.
  - assert (C : combine row (@nil vec) = []) by (destruct row; reflexivity).
    rewrite C. cbn [fold_right]. now apply xdot_no_rows in H.
  - inversion F as [|? ? Le Fe]; subst.
    pose proof (transpose_length _ _ Fe) as LT.
    destruct row as [|w row].
    + cbn [combine fold_right].
      destruct e as [|x e]; [cbn in *; now inversion H|].
      destruct (transpose (length (x :: e)) enc) as [|col M]; [discriminate LT|].
      cbn in H. discriminate H.
    + assert (L : length e = length (transpose (length e) enc)) by lia.
      destruct (xdot_columns w row e _ r L H) as (r' & Hr' & ->).
      cbn [combine fold_right fst snd]. now rewrite (IH row r' Fe Hr').
Qed.

End Shapes.

(** ** The attention weights as a probability distribution *)

Section Distribution.
Import Torch Attention Spec.

Lemma context_row (aw : xmat) (enc_out : tensor3) (ctx : xtensor3)
      (b : nat) (row : xvec) (encb : mat) :
  context_of aw enc_out = Ok ctx ->
  nth_error aw b = Some row -> nth_error enc_out b = Some encb ->
  rows_of (size1 encb) encb ->
  nth_error ctx b = Some [weighted_sum (size1 encb) row encb].
Proof.
  unfold context_of, unsqueeze1. intros H Hrow Henc R.
  assert (U : nth_error (map (fun d : xvec => [d]) aw) b = Some [row]).
  { rewrite nth_error_map. unfold xmat, xvec in *. now rewrite Hrow. }
  destruct (bzip_nth_fwd _ _ _ _ _ _ _ H U Henc) as (z & Hz & Fz).
  cbn [mapM] in Fz.
  destruct (mapM (xdot row) (transpose (size1 encb) encb)) as [r|] eqn:D;
    [|discriminate].
  cbn in Fz. inversion Fz; subst z.
  now rewrite (xdot_transpose _ _ _ _ R D) in Hz.
Qed.

End Distribution.

(** C8 as stated, without a condition on the sharpening factor, fails: with
    [sharpening_factor = 0], [enc_time = 2] and [x_lens = [1]] the returned
    row is [NaN, NaN], which is no distribution. *)
Lemma attention_weights_counterexample :
  ~ (forall (m : Attention.AttentionMechanism) enc_out x_lens dec_out aw_in m' ctx aw
            (b : nat) (l : Z) (row : Torch.xvec),
        Attention.enc_out_a m = None -> Attention.mask m = None ->
        Attention.sigmoid_smoothing m = false -> Attention.dropout m = None ->
        Attention.forward m enc_out x_lens dec_out aw_in = (m', Ok (ctx, aw)) ->
        (b < length enc_out)%nat ->
        nth_error x_lens b = Some l -> (1 <= l)%Z ->
        nth_error aw b = Some row ->
        Forall Spec.weight_ok row /\ Torch.xsum row = Torch.Fin 1).
Proof.
  intros H.
  assert (Hf : Attention.forward (Examples.attn "dot" 0) [[[1]; [1]]] [1%Z] [[1]] None
               = (fst (Attention.forward (Examples.attn "dot" 0) [[[1]; [1]]] [1%Z] [[1]] None),
                  Ok ([[[Torch.NaN]]], [[Torch.NaN; Torch.NaN]]))).
  { rewrite <- zero_sharpening_row. apply surjective_pairing. }
  destruct (H (Examples.attn "dot" 0) _ _ _ _ _ _ _ 0%nat 1%Z [Torch.NaN; Torch.NaN]
              eq_refl eq_refl eq_refl eq_refl Hf) as [W _];
    try reflexivity; try (simpl; lia).
  inversion W as [|x r [w [Hw _]] _]. discriminate Hw.
Qed.

(** ** The energies of the additive and the dot-product attention *)

Section Energies.
Import Torch Attention Spec.

Lemma bind_assoc {A B C : Type} (c : result A) (f : A -> result B) (g : B -> result C) :
  bind (bind c f) g = bind c (fun x => bind (f x) g).
Proof. destruct c; reflexivity. Qed.

Lemma bind_ret {A : Type} (c : result A) : bind c (fun x => Ok x) = c.
Proof. destruct c; reflexivity. Qed.

Lemma mapM_fmap {A B C : Type} (f : A -> result B) (g : B -> C) (l : list A) :
  mapM (fun x => y <- f x ;; Ok (g y)) l = (r <- mapM f l ;; Ok (map g r)).
Proof.
  induction l as [|a l IH]; cbn [mapM]; [reflexivity|].
  rewrite IH. destruct (f a); [|reflexivity]. cbn [bind].
  destruct (mapM f l); reflexivity.
Qed.

Lemma zipM_fmap {A B C D : Type} (f : A -> B -> result C) (g : C -> D)
      (xs : list A) (ys : list B) :
  zipM (fun x y => z <- f x y ;; Ok (g z)) xs ys = (r <- zipM f xs ys ;; Ok (map g r)).
Proof.
  revert ys; induction xs as [|x xs IH]; intros [|y ys]; cbn [zipM]; try reflexivity.
  rewrite IH. destruct (f x y); [|reflexivity]. cbn [bind].
  destruct (zipM f xs ys); reflexivity.
Qed.

Lemma zipM_map {A A' B B' C : Type} (f : A' -> B' -> result C) (g : A -> A') (h : B -> B')
      (xs : list A) (ys : list B) :
  zipM f (map g xs) (map h ys) = zipM (fun x y => f (g x) (h y)) xs ys.
Proof.
  revert ys; induction xs as [|x xs IH]; intros [|y ys]; cbn [zipM map]; try reflexivity.
  now rewrite IH.
Qed.

Lemma zipM_map_r {A B B' C : Type} (f : A -> B' -> result C) (h : B -> B')
      (xs : list A) (ys : list B) :
  zipM f xs (map h ys) = zipM (fun x y => f x (h y)) xs ys.
Proof.
  revert ys; induction xs as [|x xs IH]; intros [|y ys]; cbn [zipM map]; try reflexivity.
  now rewrite IH.
Qed.

Lemma zipM_ext_in {A B C : Type} (f g : A -> B -> result C) (xs : list A) (ys : list B) :
  (forall x y, In x xs -> In y ys -> f x y = g x y) -> zipM f xs ys = zipM g xs ys.
Proof.
  revert ys; induction xs as [|x xs IH]; intros [|y ys] H; cbn [zipM]; try reflexivity.
  rewrite (H x y) by now left.
  rewrite IH by (intros; apply H; now right). reflexivity.
Qed.

Lemma zipM_repeat {A B C : Type} (f : A -> B -> result C) (l : list A) (y : B) (n : nat) :
  length l = n -> zipM f l (repeat y n) = mapM (fun x => f x y) l.
Proof.
  revert n; induction l as [|a l IH]; intros [|n] L; simpl in L; try discriminate;
    cbn [zipM mapM repeat]; [reflexivity|].
  rewrite IH by lia. reflexivity.
Qed.

Lemma expand0_same {A : Type} (n : nat) (t : list A) :
  length t = n -> expand0 n t = Ok t.
Proof.
  intros L. unfold expand0. now rewrite L, Nat.eqb_refl.
Qed.

(** One row of the additive energy. *)
Lemma add2_broadcast_row (f g : vec -> vec) (encb : mat) (d : vec) (T : nat) :
  length encb = T ->
  add2 (map f encb) (map g (repeat d T)) = mapM (fun x => add1 (f x) (g d)) encb.
Proof.
  intros L. unfold add2.
  rewrite bzip_same_length by (now rewrite !length_map, repeat_length).
  rewrite map_repeat, zipM_repeat by (now rewrite length_map).
  apply mapM_map.
Qed.

Lemma energy_add_correct (m : AttentionMechanism) (enc_out : tensor3) (dec_out : list vec) :
  rows_of (size1 enc_out) enc_out -> length dec_out = length enc_out ->
  (dec <- expand_dec (length enc_out) (size1 enc_out) dec_out ;;
   s <- add3 (LinearND (w_enc m) enc_out) (LinearND (w_dec m) dec) ;;
   Ok (map (map (v m)) (Tanh s)))
  = energy_add_spec m enc_out dec_out.
Proof.
  intros R L. unfold expand_dec. rewrite (expand0_same _ _ L). cbn [bind].
  unfold add3, LinearND, energy_add_spec, Tanh.
  rewrite bzip_same_length by (now rewrite !length_map).
  rewrite !map_map, zipM_map.
  transitivity
    (r <- zipM (fun encb d => mapM (fun x => add1 (w_enc m x) (w_dec m d)) encb)
               enc_out dec_out ;;
     Ok (map (map (fun s => v m (map tanh s))) r)).
  - rewrite (zipM_ext_in _ (fun encb d => mapM (fun x => add1 (w_enc m x) (w_dec m d)) encb)).
    + match goal with |- bind ?c _ = bind ?c _ => destruct c end; [|reflexivity].
      cbn [bind]. rewrite !map_map. f_equal. apply map_ext. intros rw. now rewrite !map_map.
    + intros encb d He _. apply add2_broadcast_row.
      unfold rows_of in R. rewrite Forall_forall in R. now apply R.
  - rewrite <- zipM_fmap. apply zipM_ext_in. intros encb d _ _.
    now rewrite <- mapM_fmap.
Qed.

Lemma transpose_single (w : vec) :
  transpose (length w) [w] = map (fun x => [x]) w.
Proof.
  cbn [transpose].
  induction w as [|x w IH]; cbn [length repeat combine map fst snd]; [reflexivity|].
  now rewrite IH.
Qed.

Lemma transpose_column (w : vec) :
  transpose 1 (map (fun x => [x]) w) = [w].
Proof.
  induction w as [|x w IH]; cbn [map transpose]; [reflexivity|].
  rewrite IH. reflexivity.
Qed.

Lemma squeeze2_cells (e : mat) :
  squeeze2 (map (map (fun r => [r])) e) = Ok e.
Proof.
  unfold squeeze2. rewrite mapM_map.
  rewrite (mapM_total _ (fun x => x)); [now rewrite map_id|].
  intros row _. rewrite mapM_map.
  rewrite (mapM_total _ (fun x => x)); [now rewrite map_id|]. reflexivity.
Qed.

(** The dot-product energy from given features, whatever the attention
    dimension. *)
Lemma energy_dot_at_correct (m : AttentionMechanism) (a : tensor3) (dec_out : list vec) :
  length dec_out = length a ->
  (r <- matmul3_t a (LinearND (w_dec m) (unsqueeze1 dec_out)) ;; squeeze2 r)
  = energy_dot_at m a dec_out.
Proof.
  intros L. unfold matmul3_t, LinearND, unsqueeze1, energy_dot_at.
  rewrite bzip_same_length by (now rewrite !length_map).
  rewrite !map_map, zipM_map_r.
  rewrite (zipM_ext_in _
             (fun ab d => z <- mapM (fun f => dot f (w_dec m d)) ab ;;
                          Ok (map (fun r => [r]) z))).
  - rewrite zipM_fmap, bind_assoc.
    match goal with |- bind ?c _ = _ => destruct c end; [|reflexivity].
    cbn [bind]. apply squeeze2_cells.
  - intros ab d _ _. cbn [map length]. unfold mm, size1. cbn [hd].
    rewrite transpose_single, transpose_column, <- mapM_fmap.
    apply mapM_ext. intros y _. cbn [mapM].
    destruct (dot y (w_dec m d)); reflexivity.
Qed.

Lemma energy_dot_correct (m : AttentionMechanism) (enc_out : tensor3) (dec_out : list vec) :
  length dec_out = length enc_out ->
  (r <- matmul3_t (LinearND (w_enc m) enc_out)
                  (LinearND (w_dec m) (unsqueeze1 dec_out)) ;;
   squeeze2 r)
  = energy_dot_spec m enc_out dec_out.
Proof.
  intros L. rewrite energy_dot_at_correct by (unfold LinearND; now rewrite length_map).
  unfold energy_dot_at, energy_dot_spec, LinearND.
  rewrite <- (map_id dec_out) at 1. rewrite zipM_map.
  apply zipM_ext_in. intros encb d _ _. apply mapM_map.
Qed.

(** The additive energy from given features of shape [B, T, A]. *)
Lemma energy_add_at_correct (m : AttentionMechanism) (a : tensor3) (T : nat)
      (dec_out : list vec) :
  rows_of T a -> length dec_out = length a ->
  (dec <- expand_dec (length a) T dec_out ;;
   s <- add3 a (LinearND (w_dec m) dec) ;;
   Ok (map (map (v m)) (Tanh s)))
  = energy_add_at m a dec_out.
Proof.
  intros R L. unfold expand_dec. rewrite (expand0_same _ _ L). cbn [bind].
  unfold add3, LinearND, energy_add_at, Tanh.
  rewrite bzip_same_length by (now rewrite !length_map).
  rewrite !map_map, zipM_map_r.
  transitivity
    (r <- zipM (fun ab d => mapM (fun f => add1 f (w_dec m d)) ab) a dec_out ;;
     Ok (map (map (fun s => v m (map tanh s))) r)).
  - rewrite (zipM_ext_in _ (fun ab d => mapM (fun f => add1 f (w_dec m d)) ab)).
    + match goal with |- bind ?c _ = bind ?c _ => destruct c end; [|reflexivity].
      cbn [bind]. rewrite !map_map. f_equal. apply map_ext. intros rw. now rewrite !map_map.
    + intros ab d Hab _.
      pose proof (add2_broadcast_row (fun x => x) (w_dec m) ab d T) as E.
      rewrite map_id in E. apply E.
      unfold rows_of in R. rewrite Forall_forall in R. now apply R.
  - rewrite <- zipM_fmap. apply zipM_ext_in. intros ab d _ _.
    now rewrite <- mapM_fmap.
Qed.

(** What a call that returns has computed: the energy, the masked energy
    and the weights taken from it. *)
Lemma forward_weights (m : AttentionMechanism) enc_out x_lens dec_out aw_in m' ctx aw :
  forward m enc_out x_lens dec_out aw_in = (m', Ok (ctx, aw)) ->
  exists mk energy e,
    forward_energy m enc_out dec_out aw_in = Ok energy /\
    masked_fill energy mk = Ok e /\
    aw = match dropout m with
         | Some d => dropout2x d (weights_spec m e)
         | None => weights_spec m e
         end.
Proof.
  intros H. unfold forward in H.
  destruct (cached_mask m (length enc_out) (size1 enc_out) x_lens) as [mk err].
  inversion H as [[H1 H2]]; clear H H1.
  destruct err; [discriminate|].
  destruct (forward_energy m enc_out dec_out aw_in) as [energy|] eqn:FE; cbn [bind] in H2;
    [|discriminate].
  unfold attend in H2.
  destruct (masked_fill energy mk) as [e|] eqn:MF; cbn [bind] in H2; [|discriminate].
  exists mk, energy, e. split; [reflexivity|]. split; [exact MF|].
  destruct (context_of _ enc_out); cbn [bind] in H2; [|discriminate].
  inversion H2.
  assert (W : (if sigmoid_smoothing m
               then map (map xsigmoid)
                        (map (map (fun x => xmul x (Fin (sharpening_factor m)))) e)
               else map softmax
                        (map (map (fun x => xmul x (Fin (sharpening_factor m)))) e))
              = weights_spec m e).
  { unfold weights_spec.
    destruct (sigmoid_smoothing m); rewrite map_map; [|reflexivity].
    apply map_ext. intros row. now rewrite map_map. }
  now rewrite W.
Qed.

(** C3 (amended).  With [enc_out] of shape [B, T, E] and one decoder
    vector per batch element.  On a module whose [enc_out_a] is empty (the
    first call after construction or [reset]): for attn_type "add" the
    energy before masking is
    [v(tanh(w_enc(enc_out[b, t]) + w_dec(dec_out[b])))] at every [b, t], the
    decoder vector being repeated along the time axis; for attn_type "dot"
    it is the inner product of [w_enc(enc_out[b, t])] and
    [w_dec(dec_out[b])].  On a later call, with cached features
    [enc_out_a] of shape [B, T, A], the same two formulas hold with
    [enc_out_a[b, t]] in the place of [w_enc(enc_out[b, t])].  In every call
    that returns, the masked energy is multiplied by the sharpening factor
    before the sigmoid or the softmax is applied, and the attention
    dropout, if any, comes last. *)
Theorem energy_definitions :
  (forall (m : AttentionMechanism) enc_out dec_out aw_in,
      enc_out_a m = None ->
      rows_of (size1 enc_out) enc_out -> length dec_out = length enc_out ->
      (attn_type m = "add"%string ->
       forward_energy m enc_out dec_out aw_in = energy_add_spec m enc_out dec_out)
      /\ (attn_type m = "dot"%string ->
          forward_energy m enc_out dec_out aw_in = energy_dot_spec m enc_out dec_out))
  /\ (forall (m : AttentionMechanism) a enc_out dec_out aw_in,
         enc_out_a m = Some a ->
         length a = length enc_out -> rows_of (size1 enc_out) a ->
         length dec_out = length enc_out ->
         (attn_type m = "add"%string ->
          forward_energy m enc_out dec_out aw_in = energy_add_at m a dec_out)
         /\ (attn_type m = "dot"%string ->
             forward_energy m enc_out dec_out aw_in = energy_dot_at m a dec_out))
  /\ (forall (m : AttentionMechanism) enc_out x_lens dec_out aw_in m' ctx aw,
         forward m enc_out x_lens dec_out aw_in = (m', Ok (ctx, aw)) ->
         exists mk energy e,
           forward_energy m enc_out dec_out aw_in = Ok energy /\
           masked_fill energy mk = Ok e /\
           aw = match dropout m with
                | Some d => dropout2x d (weights_spec m e)
                | None => weights_spec m e
                end).
Proof.
  split; [|split].
  - intros m enc_out dec_out aw_in Ha R L.
    unfold forward_energy, cached_enc_out_a. rewrite Ha. split.
    + intros Ty. unfold energy_of. rewrite Ty.
      change (String.eqb "add" "add") with true. cbv iota.
      now apply energy_add_correct.
    + intros Ty. unfold energy_of. rewrite Ty.
      change (String.eqb "dot" "add") with false.
      change (String.eqb "dot" "location") with false.
      change (String.eqb "dot" "dot") with true. cbv iota.
      now apply energy_dot_correct.
  - intros m a enc_out dec_out aw_in Ha La R L.
    unfold forward_energy, cached_enc_out_a. rewrite Ha. split.
    + intros Ty. unfold energy_of. rewrite Ty.
      change (String.eqb "add" "add") with true. cbv iota.
      pose proof (energy_add_at_correct m a (size1 enc_out) dec_out R
                    (eq_trans L (eq_sym La))) as E.
      unfold tensor3, mat, vec in *. rewrite La in E. exact E.
    + intros Ty. unfold energy_of. rewrite Ty.
      change (String.eqb "dot" "add") with false.
      change (String.eqb "dot" "location") with false.
      change (String.eqb "dot" "dot") with true. cbv iota.
      apply energy_dot_at_correct. congruence.
  - exact forward_weights.
Qed.

End Energies.

Lemma energy_definitions_witness :
  Attention.forward_energy (Examples.attn "dot" 1) [[[1]; [2]]] [[3]] None
  = Spec.energy_dot_spec (Examples.attn "dot" 1) [[[1]; [2]]] [[3]]
  /\ Attention.forward_energy (Examples.attn "add" 1) [[[1]; [2]]] [[3]] None
     = Spec.energy_add_spec (Examples.attn "add" 1) [[[1]; [2]]] [[3]]
  /\ Attention.forward_energy
       (Attention.set_enc_out_a (Examples.attn "dot" 1) (Some [[[5]; [7]]]))
       [[[1]; [2]]] [[3]] None
     = Spec.energy_dot_at (Examples.attn "dot" 1) [[[5]; [7]]] [[3]]
  /\ exists mk energy e ctx,
       Attention.forward_energy (Examples.attn "dot" 1) [[[1]; [2]]] [[3]] None = Ok energy /\
       Attention.masked_fill energy mk = Ok e /\
       snd (Attention.forward (Examples.attn "dot" 1) [[[1]; [2]]] [1%Z] [[3]] None)
       = Ok (ctx, Spec.weights_spec (Examples.attn "dot" 1) e).
Proof.
  destruct energy_definitions as (First & Later & Scaled).
  split; [|split; [|split]].
  4:{ assert (E : exists ctx aw,
                 Attention.forward (Examples.attn "dot" 1) [[[1]; [2]]] [1%Z] [[3]] None
                 = (fst (Attention.forward (Examples.attn "dot" 1)
                           [[[1]; [2]]] [1%Z] [[3]] None),
                    Ok (ctx, aw))).
      { cbn. eexists. eexists. reflexivity. }
      destruct E as (ctx & aw & E).
      destruct (Scaled _ _ _ _ _ _ _ _ E) as (mk & energy & e & H1 & H2 & H3).
      exists mk, energy, e, ctx. split; [exact H1|]. split; [exact H2|].
      rewrite E. cbn [snd]. now rewrite H3. }
  - apply (proj2 (First (Examples.attn "dot" 1) [[[1]; [2]]] [[3]] None
                    eq_refl ltac:(repeat constructor) eq_refl)).
    reflexivity.
  - apply (proj1 (First (Examples.attn "add" 1) [[[1]; [2]]] [[3]] None
                    eq_refl ltac:(repeat constructor) eq_refl)).
    reflexivity.
  - apply (proj2 (Later (Attention.set_enc_out_a (Examples.attn "dot" 1) (Some [[[5]; [7]]]))
                    [[[5]; [7]]] [[[1]; [2]]] [[3]] None
                    eq_refl eq_refl ltac:(repeat constructor) eq_refl)).
    reflexivity.
Defined.

(** C3 as stated, for every call, fails on a module whose cache holds the
    features of an earlier encoder output: the cached [[[1]]] is used, not
    [w_enc(enc_out)] with [enc_out = [[[2]]]]. *)
Lemma energy_every_call_counterexample :
  ~ (forall (m : Attention.AttentionMechanism) enc_out dec_out aw_in,
        Spec.rows_of (Torch.size1 enc_out) enc_out ->
        length dec_out = length enc_out ->
        Attention.attn_type m = "dot"%string ->
        Attention.forward_energy m enc_out dec_out aw_in
        = Spec.energy_dot_spec m enc_out dec_out).
Proof.
  intros H.
  specialize (H (Attention.set_enc_out_a (Examples.attn "dot" 1) (Some [[[1]]]))
                [[[2]]] [[1]] None).
  assert (E : Ok [[1 * 1 + 0]] = Ok [[2 * 1 + 0]] :> result Torch.mat).
  { apply H.
    - repeat constructor.
    - reflexivity.
    - reflexivity. }
  inversion E as [E']. lra.
Qed.

(** ** The position-wise feed-forward network *)

Section FeedForward.
Import Torch Transformer Spec.

Lemma transpose_cons (c : nat) (row : vec) (m : mat) :
  transpose c (row :: m) = map (fun q => fst q :: snd q) (combine row (transpose c m)).
Proof. reflexivity. Qed.

Lemma transpose_rows (c : nat) (m : mat) :
  Forall (fun col => length col = length m) (transpose c m).
Proof.
  induction m as [|row m IH]; cbn [transpose].
  - apply Forall_forall. intros x Hx. apply repeat_spec in Hx. now subst.
  - apply Forall_map. apply Forall_forall. intros [a col] Hq. cbn [fst snd length].
    apply in_combine_r in Hq. rewrite Forall_forall in IH. now rewrite (IH col Hq).
Qed.

Lemma transpose_columns (r : nat) (row : vec) (M : mat) :
  length row = length M ->
  transpose (S r) (map (fun q => fst q :: snd q) (combine row M))
  = row :: transpose r M.
Proof.
  revert M; induction row as [|a row IH]; intros [|x M] L; simpl in L;
    try discriminate.
  - reflexivity.
  - cbn [combine map fst snd]. rewrite transpose_cons, IH by lia.
    reflexivity.
Qed.

Lemma transpose_no_columns (c : nat) : transpose 0 (repeat [] c) = [].
Proof. destruct c; reflexivity. Qed.

Lemma transpose_involutive (c : nat) (m : mat) :
  Forall (fun r => length r = c) m ->
  transpose (length m) (transpose c m) = m.
Proof.
  induction m as [|row m IH]; intros F.
  - apply transpose_no_columns.
  - inversion F; subst. cbn [length]. rewrite transpose_cons.
    rewrite transpose_columns by (now rewrite transpose_length).
    now rewrite IH.
Qed.

Lemma dot_inner (x y : vec) : length x = length y -> dot x y = Ok (inner x y).
Proof.
  revert y; induction x as [|a x IH]; intros [|b y] L; simpl in L; try discriminate.
  - reflexivity.
  - cbn [dot]. rewrite IH by lia. reflexivity.
Qed.

Lemma bzip_singleton_r {A B C : Type} (f : A -> B -> result C) (xs : list A) (y : B) :
  bzip f xs [y] = mapM (fun x => f x y) xs.
Proof.
  unfold bzip. destruct xs as [|x0 [|x1 xs]]; reflexivity.
Qed.

Lemma zipM_pure {A B C : Type} (g : A -> B -> C) (xs : list A) (ys : list B) :
  length xs = length ys ->
  zipM (fun a b => Ok (g a b)) xs ys = Ok (map (fun q => g (fst q) (snd q)) (combine xs ys)).
Proof.
  revert ys; induction xs as [|x xs IH]; intros [|y ys] L; simpl in L; try discriminate.
  - reflexivity.
  - cbn [zipM combine map fst snd bind]. rewrite IH by lia. reflexivity.
Qed.

Lemma affine_length (l : Linear) (x : vec) :
  linear_wf l -> length (affine l x) = out_features l.
Proof.
  intros (Hw & _ & Hb). unfold affine.
  rewrite length_map, length_combine, length_map, Hw, Hb. apply Nat.min_id.
Qed.

(** [F.linear] applies the affine map of the layer to every vector. *)
Lemma linear_positionwise (l : Linear) (xs : tensor3) :
  linear_wf l -> last_dim (in_features l) xs ->
  linear l xs = Ok (map (map (affine l)) xs).
Proof.
  intros (Hw & Hrows & Hb) Hx. unfold linear, mm. cbv zeta.
  rewrite <- Hw, (transpose_involutive _ _ Hrows).
  rewrite (mapM_total _ (map (fun row => map (inner row) (weight l)))).
  - cbn [bind]. unfold add3. rewrite bzip_singleton_r.
    rewrite (mapM_total _ (map (fun ys : vec =>
                                  map (fun q => fst q + snd q) (combine ys (bias l))))).
    + f_equal. rewrite map_map. apply map_ext. intros m. now rewrite map_map.
    + intros m Hm. apply in_map_iff in Hm as (x & <- & _).
      unfold add2. rewrite bzip_singleton_r.
      apply mapM_total. intros ys Hys. unfold add1.
      apply in_map_iff in Hys as (row & <- & _).
      rewrite bzip_same_length by (now rewrite length_map, Hb).
      apply zipM_pure. now rewrite length_map, Hb.
  - intros x Hxin. apply mapM_total. intros row Hrow.
    apply mapM_total. intros w Hwin. apply dot_inner.
    unfold last_dim in Hx. rewrite Forall_forall in Hx, Hrows.
    specialize (Hx x Hxin). rewrite Forall_forall in Hx.
    now rewrite (Hx row Hrow), (Hrows w Hwin).
Qed.

Lemma imap_from_map {A B C : Type} (f : nat -> B -> C) (g : A -> B) (l : list A) (i : nat) :
  imap_from i f (map g l) = imap_from i (fun k x => f k (g x)) l.
Proof.
  revert i; induction l as [|a l IH]; intros i; cbn [map imap_from]; [reflexivity|].
  now rewrite IH.
Qed.

Lemma map_imap_from {A B C : Type} (g : B -> C) (f : nat -> A -> B) (l : list A) (i : nat) :
  map g (imap_from i f l) = imap_from i (fun k x => g (f k x)) l.
Proof.
  revert i; induction l as [|a l IH]; intros i; cbn [map imap_from]; [reflexivity|].
  now rewrite IH.
Qed.

Lemma imap_from_ext {A B : Type} (f g : nat -> A -> B) (l : list A) (i : nat) :
  (forall k x, f k x = g k x) -> imap_from i f l = imap_from i g l.
Proof.
  intros H. revert i; induction l as [|a l IH]; intros i; cbn [imap_from];
    [reflexivity|].
  now rewrite H, IH.
Qed.

Lemma imap_from_const {A B : Type} (g : A -> B) (l : list A) (i : nat) :
  imap_from i (fun _ x => g x) l = map g l.
Proof.
  revert i; induction l as [|a l IH]; intros i; cbn [map imap_from]; [reflexivity|].
  now rewrite IH.
Qed.

Lemma imap_from_length {A B : Type} (f : nat -> A -> B) (l : list A) (i : nat) :
  length (imap_from i f l) = length l.
Proof.
  revert i; induction l as [|a l IH]; intros i; cbn [imap_from length]; [reflexivity|].
  now rewrite IH.
Qed.

Lemma imap_from_Forall {A B : Type} (P : B -> Prop) (f : nat -> A -> B) (l : list A) (i : nat) :
  (forall k x, In x l -> P (f k x)) -> Forall P (imap_from i f l).
Proof.
  revert i; induction l as [|a l IH]; intros i H; cbn [imap_from]; constructor.
  - apply H. now left.
  - apply IH. intros; apply H; now right.
Qed.

(** The hidden activations keep the shape that the second layer expects. *)
Lemma hidden_shape (f : PositionwiseFeedForward) (xs : tensor3) :
  linear_wf (w_1 f) ->
  last_dim (out_features (w_1 f))
           (dropout3 (ff_dropout f) (map (map (map relu)) (map (map (affine (w_1 f))) xs))).
Proof.
  intros W1. unfold last_dim, dropout3.
  assert (Base : Forall (Forall (fun x : vec => length x = out_features (w_1 f)))
                        (map (map (map relu)) (map (map (affine (w_1 f))) xs))).
  { rewrite map_map. apply Forall_map, Forall_forall. intros m _.
    rewrite map_map. apply Forall_map, Forall_forall. intros x _.
    now rewrite length_map, affine_length. }
  destruct (drop_active (ff_dropout f)); [|exact Base].
  unfold imap. apply imap_from_Forall. intros b m Hm.
  apply imap_from_Forall. intros t x Hx. rewrite imap_from_length.
  rewrite Forall_forall in Base. specialize (Base m Hm).
  rewrite Forall_forall in Base. now apply Base.
Qed.

(** C7.  With layers as [nn.Linear(d_model, d_ff)] and
    [nn.Linear(d_ff, d_model)] create them, [PositionwiseFeedForward.forward]
    on an input of shape [B, T, d_model] returns, at every position [b, t],
    [w_2(dropout(relu(w_1(xs[b, t]))))]: the same two affine maps at every
    position, each position computed from its own input vector alone. *)
Theorem feed_forward_positionwise (f : PositionwiseFeedForward) (xs : tensor3) :
  linear_wf (w_1 f) -> linear_wf (w_2 f) ->
  in_features (w_2 f) = out_features (w_1 f) ->
  last_dim (in_features (w_1 f)) xs ->
  ff_forward f xs = Ok (imap (fun b => imap (fun t x => ff_position f b t x)) xs).
Proof.
  intros W1 W2 Hdim Hx. unfold ff_forward.
  rewrite (linear_positionwise _ _ W1 Hx). cbn [bind].
  rewrite linear_positionwise; [|exact W2 | rewrite Hdim; now apply hidden_shape].
  f_equal. unfold dropout3, ff_position, dropout_at, imap.
  destruct (drop_active (ff_dropout f)).
  - rewrite !map_map, imap_from_map, map_imap_from.
    apply imap_from_ext. intros b m.
    rewrite !map_map, imap_from_map, map_imap_from.
    apply imap_from_ext. intros t x. reflexivity.
  - rewrite !map_map, imap_from_const. apply map_ext. intros m.
    rewrite !map_map, imap_from_const. reflexivity.
Qed.

End FeedForward.

Lemma feed_forward_positionwise_witness :
  Transformer.ff_forward Examples.ffn [[[1]; [-1]]; [[0]; [2]]]
  = Ok (imap (fun b => imap (fun t x => Spec.ff_position Examples.ffn b t x))
             [[[1]; [-1]]; [[0]; [2]]]).
Proof.
  apply feed_forward_positionwise.
  - repeat split; repeat constructor.
  - repeat split; repeat constructor.
  - reflexivity.
  - repeat constructor.
Defined.

(** ** Residual connections and pre-normalisation in the encoder block *)

Section Encoder.
Import Torch Transformer Spec.

Lemma bzip_comm {A B C : Type} (f : A -> B -> result C) (g : B -> A -> result C)
      (xs : list A) (ys : list B) :
  (forall x y, f x y = g y x) -> bzip f xs ys = bzip g ys xs.
Proof.
  intros H. unfold bzip. rewrite (Nat.eqb_sym (length ys)).
  destruct (Nat.eqb (length xs) (length ys)) eqn:E.
  - now apply zipM_comm.
  - destruct xs as [|x0 [|x1 xs]]; destruct ys as [|y0 [|y1 ys]];
      try reflexivity; try discriminate E;
      apply mapM_ext; intros; apply H.
Qed.

Lemma add1_comm (x y : vec) : add1 x y = add1 y x.
Proof. apply bzip_comm. intros a b. now rewrite Rplus_comm. Qed.

Lemma add2_comm (x y : mat) : add2 x y = add2 y x.
Proof. apply bzip_comm, add1_comm. Qed.

Lemma add3_comm (x y : tensor3) : add3 x y = add3 y x.
Proof. apply bzip_comm, add2_comm. Qed.

Lemma dropout3_zero (d : Dropout) (t : tensor3) : p d = 0 -> dropout3 d t = t.
Proof.
  intros H. unfold dropout3, drop_active. rewrite H.
  destruct (Req_dec_T 0 0); [|lra]. now rewrite andb_false_r.
Qed.

Variable MHA : Type.
Variable AW : Type.
Variable mha_reset : MHA -> MHA.
Variable mha_call : MHA -> tensor3 -> tensor3 -> tensor3 -> bmask4 -> MHA * result (tensor3 * AW).
Variable make_pad_mask : list Z -> bmask2.

(** C2.  With dropout probabilities 0, [TransformerEncoderBlock.forward]
    returns [r + feed_forward(norm2(r))] where
    [r = xs + self_attn(norm1(xs), norm1(xs), norm1(xs), mask)]: each
    sub-layer sees the normalised input and the residual adds the input
    that was not normalised.  The module after the call and an exception of
    a sub-layer are the same on both sides. *)
Theorem encoder_block_prenorm_residual
        (blk : TransformerEncoderBlock MHA) (xs : tensor3) (xlens : list Z) (cache : bool) :
  p (enc_dropout1 MHA blk) = 0 -> p (enc_dropout2 MHA blk) = 0 ->
  encoder_forward MHA AW mha_reset mha_call make_pad_mask blk xs xlens cache
  = encoder_spec MHA AW mha_reset mha_call make_pad_mask blk xs xlens cache.
Proof.
  intros H1 H2. unfold encoder_forward, encoder_spec.
  destruct (make_xx_mask _ _ _ _) as [mask|e]; [|reflexivity].
  assert (S : (if negb cache then mha_reset (enc_self_attn MHA blk) else enc_self_attn MHA blk)
              = (if cache then enc_self_attn MHA blk else mha_reset (enc_self_attn MHA blk)))
    by (destruct cache; reflexivity).
  rewrite S. cbv zeta.
  destruct (mha_call _ _ _ _ mask) as [sa' a]. f_equal.
  destruct a as [[att aws]|e]; [|reflexivity]. cbn [bind fst snd].
  rewrite (dropout3_zero _ _ H1), (add3_comm att xs).
  destruct (add3 xs att) as [r|e]; [|reflexivity]. cbn [bind].
  destruct (ff_forward _ _) as [h|e]; [|reflexivity]. cbn [bind].
  now rewrite (dropout3_zero _ _ H2), (add3_comm h r).
Qed.

End Encoder.

Lemma encoder_block_prenorm_residual_witness :
  Transformer.encoder_forward unit unit (fun u => u) Examples.echo_call (fun _ => [[1%Z]])
    Examples.encoder_block [[[1]]] [1%Z] false
  = Spec.encoder_spec unit unit (fun u => u) Examples.echo_call (fun _ => [[1%Z]])
      Examples.encoder_block [[[1]]] [1%Z] false.
Proof.
  apply encoder_block_prenorm_residual; reflexivity.
Defined.

(** ** The sinusoidal table *)

Section Table.
Import Torch Transformer Spec.

Lemma scatter_interleave (h : nat) (s c : vec) :
  length s = h -> length c = h ->
  scatter 1 (scatter 0 (repeat 0 (2 * h)) s) c = interleave s c.
Proof.
  revert s c; induction h as [|h IH]; intros [|a s] [|b c] Ls Lc; simpl in Ls, Lc;
    try discriminate.
  - reflexivity.
  - replace (2 * S h)%nat with (S (S (2 * h))) by lia.
    cbn [repeat scatter interleave]. rewrite IH by lia. reflexivity.
Qed.

Lemma scatter_length (start : nat) (row vals : vec) :
  length (scatter start row vals) = length row.
Proof.
  revert start vals; induction row as [|r row IH]; intros start vals; [reflexivity|].
  destruct start as [|st]; cbn [scatter].
  - destruct vals; cbn [length]; [reflexivity|]. now rewrite IH.
  - cbn [length]. now rewrite IH.
Qed.

Lemma interleave_even (s c : vec) (i : nat) :
  length s = length c -> nth_error (interleave s c) (2 * i) = nth_error s i.
Proof.
  revert s c; induction i as [|i IH]; intros [|a s] [|b c] L; simpl in L;
    try discriminate; try reflexivity.
  replace (2 * S i)%nat with (S (S (2 * i))) by lia.
  cbn [interleave nth_error]. apply IH. lia.
Qed.

Lemma interleave_odd (s c : vec) (i : nat) :
  length s = length c -> nth_error (interleave s c) (2 * i + 1) = nth_error c i.
Proof.
  revert s c; induction i as [|i IH]; intros [|a s] [|b c] L; simpl in L;
    try discriminate; try reflexivity.
  replace (2 * S i + 1)%nat with (S (S (2 * i + 1))) by lia.
  cbn [interleave nth_error]. apply IH. lia.
Qed.

Lemma interleave_length (s c : vec) :
  length s = length c -> length (interleave s c) = (2 * length s)%nat.
Proof.
  revert c; induction s as [|a s IH]; intros [|b c] L; simpl in L; try discriminate.
  - reflexivity.
  - cbn [interleave length]. rewrite IH by lia. lia.
Qed.

Lemma zipM_diag {A C : Type} (f : A -> A -> result C) (l : list A) :
  zipM f l l = mapM (fun x => f x x) l.
Proof.
  induction l as [|a l IH]; cbn [zipM mapM]; [reflexivity|]. now rewrite IH.
Qed.

Lemma arange2_even (h : nat) : arange2 (2 * h) = map (fun i => (2 * i)%nat) (seq 0 h).
Proof.
  unfold arange2. replace ((2 * h + 1) / 2)%nat with h; [reflexivity|].
  apply Nat.div_unique with (r := 1%nat); lia.
Qed.

Lemma div_term_length (h : nat) : length (div_term (2 * h)) = h.
Proof.
  unfold div_term. now rewrite arange2_even, !length_map, length_seq.
Qed.

Lemma pe_init_even (h : nat) (dropout : R) (keep : list nat -> bool)
      (pe_type : option string) (max_len : nat) :
  truthy pe_type = true -> (1 <= h)%nat -> 0 <= dropout <= 1 ->
  pe_init (2 * h) dropout keep pe_type max_len
  = Ok (mkPositionalEncoding (2 * h) pe_type
          (Some [map (pe_row (2 * h)) (map INR (seq 0 max_len))])
          (Some (mkDropout dropout true keep))).
Proof.
  intros Ht Hh Hd. unfold pe_init. rewrite Ht.
  destruct (Nat.eqb_spec (2 * h) 0) as [E|_]; [lia|]. cbv zeta.
  set (dt := div_term (2 * h)).
  set (position := map INR (seq 0 max_len)).
  assert (Ldt : length dt = h) by apply div_term_length.
  assert (S1 : assign_stride 0 (repeat (repeat 0 (2 * h)) max_len)
                 (map (fun pos => map (fun w => sin (pos * w)) dt) position)
               = Ok (map (fun pos => scatter 0 (repeat 0 (2 * h))
                                       (map (fun w => sin (pos * w)) dt)) position)).
  { unfold assign_stride, bzip_into.
    rewrite repeat_length. unfold position at 1. rewrite !length_map, length_seq, Nat.eqb_refl.
    rewrite (zipM_comm _ (fun v r => assign_stride_row 0 r v)) by reflexivity.
    rewrite zipM_repeat by (unfold position; now rewrite !length_map, length_seq).
    rewrite mapM_map. apply mapM_total. intros pos _.
    unfold assign_stride_row. rewrite repeat_length, length_map, Ldt.
    replace ((2 * h + 1 - 0) / 2)%nat with h; [now rewrite Nat.eqb_refl|].
    apply Nat.div_unique with (r := 1%nat); lia. }
  rewrite S1. cbn [bind].
  assert (S2 : assign_stride 1
                 (map (fun pos => scatter 0 (repeat 0 (2 * h))
                                    (map (fun w => sin (pos * w)) dt)) position)
                 (map (fun pos => map (fun w => cos (pos * w)) dt) position)
               = Ok (map (pe_row (2 * h)) position)).
  { unfold assign_stride, bzip_into. rewrite !length_map, Nat.eqb_refl.
    rewrite zipM_map, zipM_diag. apply mapM_total. intros pos _.
    unfold assign_stride_row.
    rewrite scatter_length, repeat_length, length_map, Ldt.
    replace ((2 * h + 1 - 1) / 2)%nat with h.
    - rewrite Nat.eqb_refl. unfold pe_row. fold dt.
      now rewrite scatter_interleave by (now rewrite length_map).
    - apply Nat.div_unique with (r := 0%nat); lia. }
  rewrite S2. cbn [bind]. unfold Dropout_init.
  destruct (Rlt_dec dropout 0); [lra|]. destruct (Rlt_dec 1 dropout); [lra|].
  reflexivity.
Qed.

Lemma nth_error_div_term (h i : nat) :
  (i < h)%nat ->
  nth_error (div_term (2 * h)) i
  = Some (exp (INR (2 * i) * - (ln 10000 / INR (2 * h)))).
Proof.
  intros L. unfold div_term. rewrite arange2_even, !nth_error_map, nth_error_seq.
  destruct (Nat.ltb_spec i h); [|lia]. reflexivity.
Qed.

Lemma div_term_power (h i : nat) :
  (1 <= h)%nat ->
  exp (INR (2 * i) * - (ln 10000 / INR (2 * h)))
  = Rpower 10000 (- INR (2 * i) / INR (2 * h)).
Proof.
  intros Hh. unfold Rpower. f_equal.
  assert (INR (2 * h) <> 0) by (apply not_0_INR; lia).
  field. assumption.
Qed.

(** C5 (amended).  For a truthy [pe_type], an even [d_model >= 2] and a
    dropout probability in [0, 1], [PositionalEncoding.__init__] returns a
    module whose buffer [pe] has shape [1, max_len, d_model] with
    [pe[0, pos, 2i] = sin(pos * 10000^(-2i/d_model))] and
    [pe[0, pos, 2i+1] = cos(pos * 10000^(-2i/d_model))] for every
    [pos < max_len] and [2i < d_model]. *)
Theorem positional_table (d_model : nat) (dropout : R) (keep : list nat -> bool)
        (pe_type : option string) (max_len : nat) :
  truthy pe_type = true -> Nat.Even d_model -> (2 <= d_model)%nat ->
  0 <= dropout <= 1 ->
  exists m tbl,
    pe_init d_model dropout keep pe_type max_len = Ok m /\
    pe m = Some [tbl] /\ length tbl = max_len /\ rows_of d_model tbl /\
    forall pos i, (pos < max_len)%nat -> (2 * i < d_model)%nat ->
      exists row, nth_error tbl pos = Some row /\
        nth_error row (2 * i) = Some (sin (pe_angle d_model pos (2 * i))) /\
        nth_error row (2 * i + 1) = Some (cos (pe_angle d_model pos (2 * i))).
Proof.
  intros Ht [h ->] Hd2 Hd.
  assert (Hh : (1 <= h)%nat) by lia.
  eexists. eexists. split; [apply (pe_init_even h dropout keep pe_type max_len Ht Hh Hd)|].
  cbn [pe]. split; [reflexivity|].
  split; [now rewrite !length_map, length_seq|].
  assert (Lrow : forall pos, length (pe_row (2 * h) pos) = (2 * h)%nat).
  { intros pos. unfold pe_row.
    rewrite interleave_length by (now rewrite !length_map).
    now rewrite length_map, div_term_length. }
  split.
  - unfold rows_of. apply Forall_map, Forall_forall. intros pos _. apply Lrow.
  - intros pos i Hpos Hi. exists (pe_row (2 * h) (INR pos)). split.
    + rewrite !nth_error_map, nth_error_seq.
      destruct (Nat.ltb_spec pos max_len); [reflexivity | lia].
    + unfold pe_row, pe_angle.
      rewrite interleave_even, interleave_odd by (now rewrite !length_map).
      rewrite !nth_error_map, nth_error_div_term by lia. cbn [option_map].
      now rewrite div_term_power.
Qed.

End Table.

Lemma positional_table_witness :
  exists m tbl,
    Transformer.pe_init 2 0 (fun _ => true) (Some "add"%string) 3 = Ok m /\
    Transformer.pe m = Some [tbl] /\ length tbl = 3%nat /\ Spec.rows_of 2 tbl /\
    forall pos i, (pos < 3)%nat -> (2 * i < 2)%nat ->
      exists row, nth_error tbl pos = Some row /\
        nth_error row (2 * i) = Some (sin (Spec.pe_angle 2 pos (2 * i))) /\
        nth_error row (2 * i + 1) = Some (cos (Spec.pe_angle 2 pos (2 * i))).
Proof.
  apply positional_table.
  - reflexivity.
  - exists 1%nat. reflexivity.
  - lia.
  - lra.
Defined.

(** C5 as stated, for every [d_model], fails for an odd one: with
    [d_model = 3] the cosines of two frequencies do not fit the single odd
    column and the assignment [pe[:, 1::2] = ...] raises. *)
Lemma positional_table_odd_counterexample :
  Transformer.pe_init 3 0 (fun _ => true) (Some "add"%string) 1 = Raise RuntimeError.
Proof.
  unfold Transformer.pe_init, Transformer.assign_stride, Torch.bzip_into,
    Transformer.assign_stride_row, Transformer.div_term, Transformer.arange2.
  cbn. reflexivity.
Qed.

(** ** The forward pass of the positional encoding *)

Section Positional.
Import Torch Transformer Spec.

Lemma zipM_total {A B C : Type} (f : A -> B -> result C) (g : A -> B -> C)
      (xs : list A) (ys : list B) :
  length xs = length ys ->
  (forall x y, In x xs -> In y ys -> f x y = Ok (g x y)) ->
  zipM f xs ys = Ok (map (fun q => g (fst q) (snd q)) (combine xs ys)).
Proof.
  revert ys; induction xs as [|x xs IH]; intros [|y ys] L H; simpl in L;
    try discriminate.
  - reflexivity.
  - cbn [zipM combine map fst snd]. rewrite (H x y) by now left. cbn [bind].
    rewrite IH; [reflexivity | lia | intros; apply H; now right].
Qed.

Lemma Forall_firstn {A : Type} (P : A -> Prop) (n : nat) (l : list A) :
  Forall P l -> Forall P (firstn n l).
Proof.
  intros F. rewrite <- (firstn_skipn n l) in F. now apply Forall_app in F.
Qed.

Lemma add2_same_shape (n : nat) (a b : mat) :
  length a = length b -> rows_of n a -> rows_of n b -> add2 a b = Ok (madd a b).
Proof.
  unfold rows_of. intros L Ra Rb. unfold add2, madd.
  rewrite bzip_same_length by exact L.
  apply zipM_total; [exact L|]. intros x y Hx Hy. unfold add1, vadd.
  rewrite Forall_forall in Ra, Rb.
  assert (Lxy : length x = length y) by (now rewrite (Ra x Hx), (Rb y Hy)).
  rewrite bzip_same_length by exact Lxy. now apply zipM_pure.
Qed.

Lemma size1_scale3 (c : R) (xs : tensor3) : size1 (scale3 c xs) = size1 xs.
Proof.
  unfold size1, scale3. destruct xs as [|xb xs]; [reflexivity|].
  cbn [map hd]. now rewrite length_map.
Qed.

Lemma is_type_Some (s name : string) : s = name -> is_type (Some s) name = true.
Proof. intros ->. apply String.eqb_refl. Qed.

(** C6 (amended).  [PositionalEncoding.forward] scales the input by
    [sqrt(d_model)].  With a falsy [pe_type] the scaled input is returned,
    without positional term and without dropout.  With [pe_type = 'add'],
    for an input of shape [B, T, d_model] with [T <= max_len], the result
    is [dropout(xs * sqrt(d_model) + pe[:, :T])], the slice being added to
    every batch element.  With [pe_type = 'concat'], for an input of batch
    size 1 with [T <= max_len], the slice [pe[:, :T]] is concatenated on the
    last dimension before dropout. *)
Theorem positional_forward :
  (forall (m : PositionalEncoding) xs,
      truthy (pe_type m) = false ->
      pe_forward m xs = Ok (scale3 (sqrt (INR (d_model m))) xs))
  /\ (forall (m : PositionalEncoding) tbl d xs,
         pe_type m = Some "add"%string -> pe m = Some [tbl] -> pe_dropout m = Some d ->
         rows_of (size1 xs) xs -> last_dim (d_model m) xs ->
         rows_of (d_model m) tbl -> (size1 xs <= length tbl)%nat ->
         pe_forward m xs
         = Ok (dropout3 d (map (fun xb => madd xb (firstn (size1 xs) tbl))
                               (scale3 (sqrt (INR (d_model m))) xs))))
  /\ (forall (m : PositionalEncoding) tbl d xb,
         pe_type m = Some "concat"%string -> pe m = Some [tbl] -> pe_dropout m = Some d ->
         (length xb <= length tbl)%nat ->
         pe_forward m [xb]
         = Ok (dropout3 d [mcat (map (map (fun x => x * sqrt (INR (d_model m)))) xb)
                                (firstn (length xb) tbl)])).
Proof.
  split; [|split].
  - intros m xs Hf. unfold pe_forward. now rewrite Hf.
  - intros m tbl d xs Ty Hpe Hdrop Rx Lx Rt LT. unfold pe_forward.
    rewrite Ty, Hpe, Hdrop. cbn [truthy is_type negb attr bind map].
    change (String.eqb "add" "") with false.
    change (String.eqb "add" "add") with true. cbn [negb].
    rewrite size1_scale3. unfold add3. rewrite bzip_singleton_r.
    rewrite (mapM_total _ (fun xb => madd xb (firstn (size1 xs) tbl))); [reflexivity|].
    intros xb Hxb. unfold scale3 in Hxb.
    apply in_map_iff in Hxb as (xb0 & <- & Hxb0).
    unfold rows_of, last_dim in *. rewrite Forall_forall in Rx, Lx.
    apply (add2_same_shape (d_model m)).
    + pose proof (Rx xb0 Hxb0) as E. rewrite length_map, length_firstn.
      unfold mat, vec in *. lia.
    + unfold rows_of. apply Forall_map. specialize (Lx xb0 Hxb0).
      eapply Forall_impl; [|exact Lx]. intros x Hx. cbn beta. now rewrite length_map.
    + now apply Forall_firstn.
  - intros m tbl d xb Ty Hpe Hdrop LT. unfold pe_forward.
    rewrite Ty, Hpe, Hdrop. cbn [truthy is_type negb attr bind map].
    change (String.eqb "concat" "") with false.
    change (String.eqb "concat" "add") with false.
    change (String.eqb "concat" "concat") with true. cbn [negb].
    unfold cat_last, size1, scale3. cbn [map hd zipM]. rewrite length_map.
    rewrite (zipM_pure (fun x y : vec => x ++ y))
      by (rewrite length_map, length_firstn; unfold mat, vec in *; lia).
    reflexivity.
Qed.

(** The concatenating variant does not broadcast the table over the batch:
    a batch of two raises. *)
Lemma concat_batch_of_two_raises :
  pe_forward (mkPositionalEncoding 2 (Some "concat"%string) (Some [[[0; 1]]])
                                   (Some Examples.no_drop))
             [[[1; 1]]; [[1; 1]]]
  = Raise RuntimeError.
Proof. reflexivity. Qed.

End Positional.

Lemma positional_forward_witness :
  Transformer.pe_forward
    (Transformer.mkPositionalEncoding 2 (Some "add"%string) (Some [[[0; 1]; [0; 1]]])
                                      (Some Examples.no_drop))
    [[[1; 1]]; [[2; 2]]]
  = Ok (Torch.dropout3 Examples.no_drop
          (map (fun xb => Spec.madd xb (firstn 1 [[0; 1]; [0; 1]]))
               (Transformer.scale3 (sqrt (INR 2)) [[[1; 1]]; [[2; 2]]])))
  /\ Transformer.pe_forward
       (Transformer.mkPositionalEncoding 2 None None None) [[[1; 1]]]
     = Ok (Transformer.scale3 (sqrt (INR 2)) [[[1; 1]]]).
Proof.
  destruct positional_forward as [H1 [H2 _]]. split.
  - apply (H2 (Transformer.mkPositionalEncoding 2 (Some "add"%string)
                 (Some [[[0; 1]; [0; 1]]]) (Some Examples.no_drop))
              [[0; 1]; [0; 1]] Examples.no_drop [[[1; 1]]; [[2; 2]]]);
      try reflexivity; try (repeat constructor).
  - apply H1. reflexivity.
Defined.

(** C6 as stated, for every input, fails for an input longer than the
    table: with [max_len = 2] and [T = 3] the sum [xs + pe[:, :T]] raises. *)
Lemma positional_forward_counterexample :
  exists m,
    Transformer.pe_init 2 0 (fun _ => true) (Some "add"%string) 2 = Ok m /\
    Transformer.pe_forward m [[[0; 0]; [0; 0]; [0; 0]]] = Raise RuntimeError.
Proof.
  eexists. split.
  - apply (pe_init_even 1 0 (fun _ => true) (Some "add"%string) 2); [reflexivity | lia | lra].
  - reflexivity.
Qed.

(** ** The attention layer returns on well-shaped inputs *)

Section Returns.
Import Torch Attention Spec.

Lemma mapM_ok {A B : Type} (f : A -> result B) (l : list A) :
  (forall x, In x l -> exists y, f x = Ok y) -> exists r, mapM f l = Ok r.
Proof.
  induction l as [|a l IH]; intros H.
  - now exists [].
  - destruct (H a) as [b Hb]; [now left|].
    destruct IH as [r Hr]; [intros; apply H; now right|].
    exists (b :: r). cbn [mapM]. now rewrite Hb, Hr.
Qed.

Lemma xdot_ok (x : xvec) (y : vec) :
  length x = length y -> exists r, xdot x y = Ok r.
Proof.
  revert y; induction x as [|a x IH]; intros [|b y] L; simpl in L; try discriminate.
  - now exists (Fin 0).
  - destruct (IH y) as [r Hr]; [lia|].
    eexists. rewrite xdot_cons, Hr. reflexivity.
Qed.

Lemma bzip_into_same_length {A B C : Type} (f : A -> B -> result C)
      (xs : list A) (ys : list B) :
  length xs = length ys -> bzip_into f xs ys = zipM f xs ys.
Proof.
  intros L. unfold bzip_into. now rewrite L, Nat.eqb_refl.
Qed.

Lemma masked_fill_ok (T : nat) (energy mk : mat) :
  length energy = length mk -> rows_of T energy -> rows_of T mk ->
  exists e, masked_fill energy mk = Ok e /\ length e = length energy /\ rows_of T e.
Proof.
  unfold rows_of. intros L Re Rm. rewrite Forall_forall in Re, Rm.
  unfold masked_fill. rewrite (bzip_into_same_length _ _ _ L).
  assert (Lrow : forall en mrow, In en energy -> In mrow mk -> length en = length mrow).
  { intros en mrow Hen Hm. now rewrite (Re en Hen), (Rm mrow Hm). }
  destruct (zipM_ok (bzip_into fill_cell) energy mk L) as [e He].
  - intros en mrow Hen Hm.
    rewrite (bzip_into_same_length _ _ _ (Lrow en mrow Hen Hm)).
    apply zipM_ok; [now apply Lrow|].
    intros; unfold fill_cell; eauto.
  - exists e. split; [exact He|]. split; [apply (zipM_length _ _ _ _ He)|].
    eapply zipM_Forall; [exact He|]. intros en mrow erow Hen Hm Hz.
    rewrite (bzip_into_same_length _ _ _ (Lrow en mrow Hen Hm)) in Hz.
    rewrite (proj1 (zipM_length _ _ _ _ Hz)). now apply Re.
Qed.

Lemma context_ok (T : nat) (aw : xmat) (enc_out : tensor3) :
  length aw = length enc_out -> rows_of T aw -> rows_of T enc_out ->
  Forall (fun encb : mat => rows_of (size1 encb) encb) enc_out ->
  exists ctx, context_of aw enc_out = Ok ctx.
Proof.
  unfold rows_of at 1 2. intros L Ra Re Rect. rewrite Forall_forall in Ra, Re, Rect.
  unfold context_of, unsqueeze1.
  rewrite bzip_same_length by (now rewrite length_map).
  apply zipM_ok; [now rewrite length_map|].
  intros x encb Hx Henc. apply in_map_iff in Hx as (row & <- & Hrow).
  cbn [mapM].
  destruct (mapM_ok (xdot row) (transpose (size1 encb) encb)) as [r Hr].
  - intros col Hcol. apply xdot_ok.
    pose proof (transpose_rows (size1 encb) encb) as C. rewrite Forall_forall in C.
    now rewrite (C col Hcol), (Ra row Hrow), (Re encb Henc).
  - rewrite Hr. cbn. eauto.
Qed.

Lemma attend_ok (m : AttentionMechanism) (T : nat) (mk energy : mat) (enc_out : tensor3) :
  length energy = length mk -> length mk = length enc_out ->
  rows_of T energy -> rows_of T mk -> rows_of T enc_out ->
  Forall (fun encb : mat => rows_of (size1 encb) encb) enc_out ->
  exists ctx aw, attend m mk energy enc_out = Ok (ctx, aw).
Proof.
  intros L1 L2 Re Rm Rx Rect.
  destruct (masked_fill_ok T energy mk L1 Re Rm) as (e & He & Le & Rows).
  unfold attend. rewrite He. cbn [bind].
  match goal with |- context [context_of ?w enc_out] => set (aw := w) end.
  assert (Shape : length aw = length enc_out /\ rows_of T aw).
  { assert (Base : forall g : xvec -> xvec, (forall r, length (g r) = length r) ->
                     length (map g (map (map (fun x => xmul x (Fin (sharpening_factor m)))) e))
                     = length enc_out /\
                     rows_of T (map g (map (map (fun x => xmul x (Fin (sharpening_factor m)))) e))).
    { intros g Hg.
      split; [rewrite !length_map; unfold xmat, xvec, tensor3, mat, vec in *; lia|].
      unfold rows_of in *. rewrite map_map. apply Forall_map.
      eapply Forall_impl; [|exact Rows]. intros r Hr. cbn beta.
      now rewrite Hg, length_map. }
    assert (Act : length (if sigmoid_smoothing m
                          then map (map xsigmoid)
                                   (map (map (fun x => xmul x (Fin (sharpening_factor m)))) e)
                          else map softmax
                                   (map (map (fun x => xmul x (Fin (sharpening_factor m)))) e))
                  = length enc_out /\
                  rows_of T (if sigmoid_smoothing m
                             then map (map xsigmoid)
                                      (map (map (fun x => xmul x (Fin (sharpening_factor m)))) e)
                             else map softmax
                                      (map (map (fun x => xmul x (Fin (sharpening_factor m)))) e))).
    { destruct (sigmoid_smoothing m); apply Base; intros r.
      - apply length_map.
      - unfold softmax. now rewrite !length_map. }
    subst aw. destruct (dropout m) as [d|]; [|exact Act].
    unfold dropout2x. destruct (drop_active d); [|exact Act].
    destruct Act as [A1 A2]. unfold imap. split.
    - now rewrite imap_from_length.
    - unfold rows_of in *. apply imap_from_Forall. intros b r Hr.
      rewrite imap_from_length. rewrite Forall_forall in A2. now apply A2. }
  destruct Shape as [S1 S2].
  destruct (context_ok T aw enc_out S1 S2 Rx Rect) as [ctx Hc].
  rewrite Hc. cbn [bind]. eauto.
Qed.

(** On a fresh module, an encoder output of shape [B, T, E], one length per
    batch element and an energy of [B] rows, [forward] returns. *)
Lemma forward_returns (m : AttentionMechanism) enc_out x_lens dec_out aw_in energy :
  enc_out_a m = None -> mask m = None ->
  rows_of (size1 enc_out) enc_out ->
  Forall (fun encb : mat => rows_of (size1 encb) encb) enc_out ->
  (length enc_out <= length x_lens)%nat ->
  forward_energy m enc_out dec_out aw_in = Ok energy ->
  length energy = length enc_out ->
  exists ctx aw, snd (forward m enc_out x_lens dec_out aw_in) = Ok (ctx, aw).
Proof.
  intros Ha Hm Rx Rect Lx FE Le.
  assert (RE : rows_of (size1 enc_out) energy).
  { unfold forward_energy, cached_enc_out_a in FE. rewrite Ha in FE.
    eapply energy_rows; [|exact FE]. now apply LinearND_rows. }
  unfold forward, cached_mask. rewrite Hm.
  destruct (make_mask _ _ x_lens) as [mk err] eqn:M.
  assert (err = None) by (eapply make_mask_covered; eauto).
  subst err. cbn [snd]. rewrite FE. cbn [bind].
  pose proof (make_mask_length _ _ _ _ _ M) as Lmk.
  apply (attend_ok m (size1 enc_out)); auto.
  - now rewrite Le, Lmk.
  - unfold rows_of. apply Forall_forall. intros row Hrow.
    apply In_nth_error in Hrow as [b Hb].
    destruct (mask_rows_nth _ _ _ _ _ M b row Hb) as (r0 & l & H1 & _ & ->).
    apply nth_error_In, repeat_spec in H1. subst r0.
    destruct (l <? Z.of_nat (size1 enc_out))%Z eqn:C; [|apply repeat_length].
    rewrite fill_from_length; rewrite repeat_length; [reflexivity|].
    unfold slice_start. destruct (l <? 0)%Z eqn:N; [|apply Nat.le_min_r].
    apply Z.ltb_lt in C, N. lia.
Qed.

(** The dot-product attention returns whenever both projections have the
    same dimension. *)
Lemma forward_dot_returns (m : AttentionMechanism) enc_out x_lens dec_out aw_in (A : nat) :
  enc_out_a m = None -> mask m = None -> attn_type m = "dot"%string ->
  rows_of (size1 enc_out) enc_out ->
  Forall (fun encb : mat => rows_of (size1 encb) encb) enc_out ->
  (length enc_out <= length x_lens)%nat -> length dec_out = length enc_out ->
  (forall x, length (w_enc m x) = A) -> (forall d, length (w_dec m d) = A) ->
  exists ctx aw, snd (forward m enc_out x_lens dec_out aw_in) = Ok (ctx, aw).
Proof.
  intros Ha Hm Ty Rx Rect Lx Ld He Hd.
  assert (FE : forward_energy m enc_out dec_out aw_in = energy_dot_spec m enc_out dec_out).
  { unfold forward_energy, cached_enc_out_a, energy_of. rewrite Ha, Ty.
    change (String.eqb "dot" "add") with false.
    change (String.eqb "dot" "location") with false.
    change (String.eqb "dot" "dot") with true. cbv iota.
    now apply energy_dot_correct. }
  destruct (zipM_ok (fun encb d => mapM (fun x => dot (w_enc m x) (w_dec m d)) encb)
                    enc_out dec_out) as [energy Hen].
  - now symmetry.
  - intros encb d _ _. apply mapM_ok. intros x _. eexists. apply dot_inner.
    now rewrite He, Hd.
  - unfold energy_dot_spec in FE. rewrite Hen in FE.
    apply (forward_returns m enc_out x_lens dec_out aw_in energy); auto.
    apply (zipM_length _ _ _ _ Hen).
Qed.

End Returns.

(** * Further properties of the attention layer *)

Section AttentionRows.
Import Torch Attention Spec.

Lemma nth_error_imap_from {A B : Type} (f : nat -> A -> B) (l : list A) (i n : nat) :
  nth_error (imap_from i f l) n = option_map (f (i + n)%nat) (nth_error l n).
Proof.
  revert i n; induction l as [|a l IH]; intros i n.
  - destruct n; reflexivity.
  - destruct n as [|n]; cbn [imap_from nth_error option_map].
    + now rewrite Nat.add_0_r.
    + rewrite IH. now replace (S i + n)%nat with (i + S n)%nat by lia.
Qed.

(** Row [b] of the weights that [attend] returns, in every configuration. *)
Lemma attend_row_any (m : AttentionMechanism) (mk energy : mat) (enc_out : tensor3)
      (ctx : xtensor3) (aw : xmat) (b : nat) (row : xvec) :
  attend m mk energy enc_out = Ok (ctx, aw) ->
  (b < length mk)%nat -> nth_error aw b = Some row ->
  exists en mrow erow,
    nth_error energy b = Some en /\ nth_error mk b = Some mrow /\
    bzip_into fill_cell en mrow = Ok erow /\
    row = drop_row m b
            (act_row m (map (fun x => xmul x (Fin (sharpening_factor m))) erow)).
Proof.
  intros H Hb Hrow. unfold attend in H.
  destruct (masked_fill energy mk) as [e|] eqn:M; cbn [bind] in H; [|discriminate].
  match type of H with context [context_of ?w enc_out] =>
    destruct (context_of w enc_out); cbn [bind] in H; [|discriminate] end.
  inversion H; subst ctx aw; clear H.
  assert (Base : exists erow,
             nth_error e b = Some erow /\
             row = drop_row m b
                     (act_row m (map (fun x => xmul x (Fin (sharpening_factor m))) erow))).
  { unfold drop_row, act_row, dropout2x, imap in *. unfold xmat, xvec in *.
    destruct (dropout m) as [d|].
    - destruct (drop_active d).
      + rewrite nth_error_imap_from in Hrow. cbn [Nat.add] in Hrow.
        destruct (sigmoid_smoothing m); rewrite !nth_error_map in Hrow;
          destruct (nth_error e b) as [erow|]; cbn [option_map] in Hrow;
          try discriminate; injection Hrow as <-; eauto.
      + destruct (sigmoid_smoothing m); rewrite !nth_error_map in Hrow;
          destruct (nth_error e b) as [erow|]; cbn [option_map] in Hrow;
          try discriminate; injection Hrow as <-; eauto.
    - destruct (sigmoid_smoothing m); rewrite !nth_error_map in Hrow;
        destruct (nth_error e b) as [erow|]; cbn [option_map] in Hrow;
        try discriminate; injection Hrow as <-; eauto. }
  destruct Base as (erow & E & ->).
  destruct (bzip_into_nth _ _ _ _ _ _ M Hb E) as (en & mrow & H1 & H2 & H3).
  exists en, mrow, erow. auto.
Qed.

Lemma slice_start_le (l : Z) (n : nat) : (slice_start l n <= n)%nat.
Proof.
  unfold slice_start. destruct (Z.ltb_spec l 0); lia.
Qed.

Lemma mask_rows_shape (T : nat) (x_lens : list Z) (rows : mat) (b : nat) :
  rows_of T rows -> rows_of T (fst (mask_rows T x_lens b rows)).
Proof.
  unfold rows_of. revert b; induction rows as [|row rows IH]; intros b F;
    cbn [mask_rows]; [constructor|].
  destruct (nth_error x_lens b) as [l|]; [|exact F].
  apply Forall_cons_iff in F as [Hrow Hrest].
  specialize (IH (S b) Hrest).
  destruct (mask_rows T x_lens (S b) rows) as [rest' e]. cbn [fst] in *.
  constructor; [|exact IH].
  destruct (l <? Z.of_nat T)%Z; [|exact Hrow].
  rewrite fill_from_length; [exact Hrow|]. rewrite Hrow. apply slice_start_le.
Qed.

Lemma make_mask_shape (bs T : nat) (x_lens : list Z) (mk : mat) (e : option exn) :
  make_mask bs T x_lens = (mk, e) -> length mk = bs /\ rows_of T mk.
Proof.
  intros M. split; [eapply make_mask_length; eauto|].
  pose proof (mask_rows_shape T x_lens (repeat (repeat 1 T) bs) 0) as S.
  unfold make_mask in M. rewrite M in S. apply S.
  unfold rows_of. apply Forall_forall. intros r Hr.
  apply repeat_spec in Hr. subst r. apply repeat_length.
Qed.

(** The masked energies of row [b] on a fresh module: finite before
    [x_lens[b]], [-inf] from there on. *)
Lemma fresh_masked_row (bs T : nat) (x_lens : list Z) (mk : mat) (b : nat) (l : Z)
      (en mrow : vec) (erow : xvec) :
  make_mask bs T x_lens = (mk, None) ->
  nth_error x_lens b = Some l -> (0 <= l)%Z -> (b < bs)%nat ->
  nth_error mk b = Some mrow ->
  bzip_into fill_cell en mrow = Ok erow ->
  (2 <= T)%nat \/ length en = T ->
  length erow = T /\
  forall t, (t < T)%nat ->
    exists e, nth_error en t = Some e /\
              nth_error erow t = Some (if (Z.of_nat t <? l)%Z then Fin e else NInf).
Proof.
  intros M Hl Hl0 Hb Hmrow Hfill Shape.
  assert (Rlen : length mrow = T).
  { destruct (make_mask_shape _ _ _ _ _ M) as [_ S]. unfold rows_of in S.
    rewrite Forall_forall in S. apply S. eapply nth_error_In; eauto. }
  assert (Z : zipM fill_cell en mrow = Ok erow).
  { destruct Shape as [T2|Len].
    - apply bzip_into_long; [exact Hfill | lia].
    - unfold bzip_into in Hfill. now rewrite Len, Rlen, Nat.eqb_refl in Hfill. }
  destruct (zipM_length _ _ _ _ Z) as [Le1 Le2].
  split; [lia|]. intros t Ht.
  destruct (make_mask_entry _ _ _ _ b t l M Hl Hl0 Hb Ht) as (r & R1 & _ & Rt).
  rewrite Hmrow in R1. inversion R1; subst r.
  destruct (nth_error erow t) as [x|] eqn:Et.
  2:{ apply nth_error_None in Et. lia. }
  destruct (zipM_nth _ _ _ _ _ _ Z Et) as (e & k & He & Hk & F).
  rewrite Rt in Hk. inversion Hk; subst k. exists e. split; [exact He|].
  unfold fill_cell in F. inversion F; subst x.
  destruct (Z.ltb_spec (Z.of_nat t) l).
  - destruct (Req_dec_T 1 0); [lra | reflexivity].
  - destruct (Req_dec_T 0 0); [reflexivity | lra].
Qed.

End AttentionRows.

(** ** Weights of padded and of real positions

    The statements of this section are about [forward_float]: the energy is
    the tensor that lines 137-161 have left in the run, whatever its
    entries.  What they ask of it is that the energies of the real
    positions are finite and stay finite when scaled. *)

Section Weights.
Import Torch Attention Spec.

Lemma xmul_ninf_pos (s : R) : 0 < s -> xmul NInf (Fin s) = NInf.
Proof.
  intros H. cbn. unfold by_sign. decide_reals. reflexivity.
Qed.

Lemma float_tiny_pos : 0 < float_tiny.
Proof. unfold float_tiny. apply Rinv_0_lt_compat, pow_lt. lra. Qed.

Lemma float_tiny_le_1 : float_tiny <= 1.
Proof.
  unfold float_tiny. assert (P : 1 <= 2 ^ 149) by (apply pow_R1_Rle; lra).
  rewrite <- Rinv_1. apply Rinv_le_contravar; lra.
Qed.

Lemma float_max_ge_1 : 1 <= float_max.
Proof.
  unfold float_max.
  assert (P : 1 <= 2 ^ 127) by (apply pow_R1_Rle; lra).
  assert (Q : 1 <= 2 ^ 23) by (apply pow_R1_Rle; lra).
  assert (I : / 2 ^ 23 <= 1) by (rewrite <- Rinv_1; apply Rinv_le_contravar; lra).
  nra.
Qed.

Lemma positive_float_pos (s : R) : positive_float s -> 0 < s.
Proof. intros [H _]. pose proof float_tiny_pos. lra. Qed.

Lemma positive_float_1 : positive_float 1.
Proof. split; [apply float_tiny_le_1 | apply float_max_ge_1]. Qed.

Lemma float_ok_unit (r : R) : Rabs r <= 1 -> float_ok r.
Proof. intros H. unfold float_ok. pose proof float_max_ge_1. lra. Qed.

Lemma float_ok_half_drop : float_ok (/ (1 - 1 / 2)).
Proof.
  unfold float_ok. replace (/ (1 - 1 / 2)) with 2 by field.
  rewrite Rabs_pos_eq by lra. unfold float_max.
  assert (P : 2 <= 2 ^ 127).
  { change (2 ^ 127) with (2 * 2 ^ 126).
    assert (1 <= 2 ^ 126) by (apply pow_R1_Rle; lra). lra. }
  assert (Q : 1 <= 2 ^ 23) by (apply pow_R1_Rle; lra).
  assert (I : / 2 ^ 23 <= 1) by (rewrite <- Rinv_1; apply Rinv_le_contravar; lra).
  nra.
Qed.

Lemma float_ok_1 : float_ok (1 * 1).
Proof. apply float_ok_unit. rewrite Rmult_1_r, Rabs_R1. lra. Qed.

Lemma finite_before_Forall (s : R) (l : Z) (en : xvec) :
  Forall (fun x => exists r, x = Fin r /\ float_ok (r * s)) en -> finite_before s l en.
Proof.
  intros F t x Hx _. rewrite Forall_forall in F. apply F.
  eapply nth_error_In; eauto.
Qed.

(** [forward_float] at the energy that [forward] computes over the reals is
    [forward]. *)
Lemma zipM_map_l {A A' B C : Type} (f : A' -> B -> result C) (g : A -> A')
      (xs : list A) (ys : list B) :
  zipM f (map g xs) ys = zipM (fun x y => f (g x) y) xs ys.
Proof.
  revert ys; induction xs as [|x xs IH]; intros [|y ys]; cbn [zipM map]; try reflexivity.
  now rewrite IH.
Qed.

Lemma bzip_into_map_l {A A' B C : Type} (f : A' -> B -> result C) (g : A -> A')
      (xs : list A) (ys : list B) :
  bzip_into f (map g xs) ys = bzip_into (fun x y => f (g x) y) xs ys.
Proof.
  unfold bzip_into. rewrite length_map.
  destruct (Nat.eqb (length xs) (length ys)); [apply zipM_map_l|].
  destruct ys as [|y [|y' ys]]; try reflexivity. apply mapM_map.
Qed.

Lemma bzip_into_ext {A B C : Type} (f g : A -> B -> result C)
      (xs : list A) (ys : list B) :
  (forall x y, f x y = g x y) -> bzip_into f xs ys = bzip_into g xs ys.
Proof.
  intros H. unfold bzip_into.
  destruct (Nat.eqb (length xs) (length ys)).
  - apply zipM_ext_in. intros x y _ _. apply H.
  - destruct ys as [|y [|y' ys]]; try reflexivity.
    apply mapM_ext. intros x _. apply H.
Qed.

Lemma masked_fill_float_exact (energy mk : mat) :
  masked_fill_float (map (map Fin) energy) mk = masked_fill energy mk.
Proof.
  unfold masked_fill_float, masked_fill. rewrite bzip_into_map_l.
  apply bzip_into_ext. intros en mrow. rewrite bzip_into_map_l. reflexivity.
Qed.

Lemma forward_float_exact (m : AttentionMechanism) enc_out x_lens dec_out aw_in :
  forward_float m enc_out x_lens
                (e <- forward_energy m enc_out dec_out aw_in ;; Ok (map (map Fin) e))
  = forward m enc_out x_lens dec_out aw_in.
Proof.
  unfold forward_float, forward.
  destruct (cached_mask m (length enc_out) (size1 enc_out) x_lens) as [mk err].
  f_equal. destruct err; [reflexivity|].
  destruct (forward_energy m enc_out dec_out aw_in) as [e|]; [|reflexivity].
  cbn [bind]. unfold attend_float, attend. now rewrite masked_fill_float_exact.
Qed.

Lemma forward_float_fresh (m : AttentionMechanism) enc_out x_lens (energy : xmat)
      m' ctx aw :
  mask m = None ->
  forward_float m enc_out x_lens (Ok energy) = (m', Ok (ctx, aw)) ->
  exists mk,
    make_mask (length enc_out) (size1 enc_out) x_lens = (mk, None) /\
    attend_float m mk energy enc_out = Ok (ctx, aw).
Proof.
  intros Hm H. unfold forward_float, cached_mask in H. rewrite Hm in H.
  destruct (make_mask (length enc_out) (size1 enc_out) x_lens) as [mk err].
  inversion H as [[H1 H2]]; clear H H1.
  destruct err; [discriminate|]. exists mk. auto.
Qed.

(** Row [b] of the weights that [attend_float] returns, in every
    configuration. *)
Lemma attend_float_row (m : AttentionMechanism) (mk : mat) (energy : xmat)
      (enc_out : tensor3) (ctx : xtensor3) (aw : xmat) (b : nat) (row : xvec) :
  attend_float m mk energy enc_out = Ok (ctx, aw) ->
  (b < length mk)%nat -> nth_error aw b = Some row ->
  exists en mrow erow,
    nth_error energy b = Some en /\ nth_error mk b = Some mrow /\
    bzip_into fill_cell_float en mrow = Ok erow /\
    row = drop_row m b
            (act_row m (map (fun x => xmul x (Fin (sharpening_factor m))) erow)).
Proof.
  intros H Hb Hrow. unfold attend_float in H.
  destruct (masked_fill_float energy mk) as [e|] eqn:M; cbn [bind] in H; [|discriminate].
  match type of H with context [context_of ?w enc_out] =>
    destruct (context_of w enc_out); cbn [bind] in H; [|discriminate] end.
  inversion H; subst ctx aw; clear H.
  assert (Base : exists erow,
             nth_error e b = Some erow /\
             row = drop_row m b
                     (act_row m (map (fun x => xmul x (Fin (sharpening_factor m))) erow))).
  { unfold drop_row, act_row, dropout2x, imap in *. unfold xmat, xvec in *.
    destruct (dropout m) as [d|].
    - destruct (drop_active d).
      + rewrite nth_error_imap_from in Hrow. cbn [Nat.add] in Hrow.
        destruct (sigmoid_smoothing m); rewrite !nth_error_map in Hrow;
          destruct (nth_error e b) as [erow|]; cbn [option_map] in Hrow;
          try discriminate; injection Hrow as <-; eauto.
      + destruct (sigmoid_smoothing m); rewrite !nth_error_map in Hrow;
          destruct (nth_error e b) as [erow|]; cbn [option_map] in Hrow;
          try discriminate; injection Hrow as <-; eauto.
    - destruct (sigmoid_smoothing m); rewrite !nth_error_map in Hrow;
        destruct (nth_error e b) as [erow|]; cbn [option_map] in Hrow;
        try discriminate; injection Hrow as <-; eauto. }
  destruct Base as (erow & E & ->).
  destruct (bzip_into_nth _ _ _ _ _ _ M Hb E) as (en & mrow & H1 & H2 & H3).
  exists en, mrow, erow. auto.
Qed.

Lemma attend_float_context (m : AttentionMechanism) (mk : mat) (energy : xmat)
      (enc_out : tensor3) (ctx : xtensor3) (aw : xmat) :
  attend_float m mk energy enc_out = Ok (ctx, aw) -> context_of aw enc_out = Ok ctx.
Proof.
  unfold attend_float. destruct (masked_fill_float energy mk); cbn [bind]; [|discriminate].
  match goal with |- context [context_of ?w enc_out] =>
    destruct (context_of w enc_out) eqn:C end; cbn [bind]; [|discriminate].
  intros H. inversion H; subst. exact C.
Qed.

(** The masked energies of row [b] on a fresh module: the given energy
    before [x_lens[b]], [-inf] from there on. *)
Lemma fresh_masked_row_float (bs T : nat) (x_lens : list Z) (mk : mat) (b : nat) (l : Z)
      (en : xvec) (mrow : vec) (erow : xvec) :
  make_mask bs T x_lens = (mk, None) ->
  nth_error x_lens b = Some l -> (0 <= l)%Z -> (b < bs)%nat ->
  nth_error mk b = Some mrow ->
  bzip_into fill_cell_float en mrow = Ok erow ->
  (2 <= T)%nat \/ length en = T ->
  length erow = T /\
  forall t, (t < T)%nat ->
    exists e, nth_error en t = Some e /\
              nth_error erow t = Some (if (Z.of_nat t <? l)%Z then e else NInf).
Proof.
  intros M Hl Hl0 Hb Hmrow Hfill Shape.
  assert (Rlen : length mrow = T).
  { destruct (make_mask_shape _ _ _ _ _ M) as [_ S]. unfold rows_of in S.
    rewrite Forall_forall in S. apply S. eapply nth_error_In; eauto. }
  assert (Z : zipM fill_cell_float en mrow = Ok erow).
  { destruct Shape as [T2|Len].
    - apply bzip_into_long; [exact Hfill | lia].
    - unfold bzip_into in Hfill. now rewrite Len, Rlen, Nat.eqb_refl in Hfill. }
  destruct (zipM_length _ _ _ _ Z) as [Le1 Le2].
  split; [lia|]. intros t Ht.
  destruct (make_mask_entry _ _ _ _ b t l M Hl Hl0 Hb Ht) as (r & R1 & _ & Rt).
  rewrite Hmrow in R1. inversion R1; subst r.
  destruct (nth_error erow t) as [x|] eqn:Et.
  2:{ apply nth_error_None in Et. lia. }
  destruct (zipM_nth _ _ _ _ _ _ Z Et) as (e & k & He & Hk & F).
  rewrite Rt in Hk. inversion Hk; subst k. exists e. split; [exact He|].
  unfold fill_cell_float in F. inversion F; subst x.
  destruct (Z.ltb_spec (Z.of_nat t) l).
  - destruct (Req_dec_T 1 0); [lra | reflexivity].
  - destruct (Req_dec_T 0 0); [reflexivity | lra].
Qed.

(** Scaled by a positive factor, such a row holds finite values and [-inf]
    only. *)
Lemma scaled_row_float (s : R) (l : Z) (T : nat) (en erow : xvec) :
  0 < s -> finite_before s l en -> length erow = T ->
  (forall t, (t < T)%nat ->
     exists e, nth_error en t = Some e /\
               nth_error erow t = Some (if (Z.of_nat t <? l)%Z then e else NInf)) ->
  Forall fin_or_masked (map (fun x => xmul x (Fin s)) erow).
Proof.
  intros Hs F L Cells. apply Forall_map, Forall_forall. intros x Hx.
  apply In_nth_error in Hx as [t Ht].
  assert (Lt : (t < T)%nat) by (rewrite <- L; apply nth_error_Some; congruence).
  destruct (Cells t Lt) as (e & He & Et). rewrite Ht in Et. inversion Et; subst x.
  destruct (Z.ltb_spec (Z.of_nat t) l) as [C|C].
  - destruct (F t e He C) as (r & -> & _). exact I.
  - rewrite xmul_ninf_pos by exact Hs. exact I.
Qed.

(** C1 (amended).  On a module whose mask is not cached, with softmax, no
    dropout and a sharpening factor that is a positive float: whatever
    energy lines 137-161 have left, if the energies of the real positions
    of batch element [b] are finite and stay finite when scaled, then every
    [b] with [1 <= x_lens[b] < enc_time] has attention weight 0 at every
    position [t >= x_lens[b]] of the returned [aw_step]. *)
Theorem padded_positions_get_zero_weight
        (m : AttentionMechanism) enc_out x_lens (energy : xmat) m' ctx aw
        (b t : nat) (l : Z) (en row : xvec) :
  mask m = None -> sigmoid_smoothing m = false -> dropout m = None ->
  positive_float (sharpening_factor m) ->
  forward_float m enc_out x_lens (Ok energy) = (m', Ok (ctx, aw)) ->
  (b < length enc_out)%nat -> nth_error x_lens b = Some l ->
  (1 <= l < Z.of_nat (size1 enc_out))%Z ->
  nth_error energy b = Some en -> finite_before (sharpening_factor m) l en ->
  nth_error aw b = Some row ->
  (l <= Z.of_nat t < Z.of_nat (size1 enc_out))%Z ->
  nth_error row t = Some (Fin 0).
Proof.
  intros Hm Hsig Hdrop Hpf H Hb Hl Hrange Hen Hfin Hrow Ht.
  pose proof (positive_float_pos _ Hpf) as Hs.
  destruct (forward_float_fresh _ _ _ _ _ _ _ Hm H) as (mk & M & A).
  destruct (make_mask_shape _ _ _ _ _ M) as [Lmk _].
  assert (Hb' : (b < length mk)%nat) by (clear - Lmk Hb; unfold tensor3, mat, vec in *; lia).
  destruct (attend_float_row _ _ _ _ _ _ _ _ A Hb' Hrow)
    as (en' & mrow & erow & Hen' & Hmrow & Hfill & ->).
  unfold xmat, xvec in *. rewrite Hen in Hen'. inversion Hen'; subst en'.
  assert (Hl0 : (0 <= l)%Z) by lia.
  assert (T2 : (2 <= size1 enc_out)%nat \/ length en = size1 enc_out) by (left; lia).
  destruct (fresh_masked_row_float _ _ _ _ _ _ _ _ _ M Hl Hl0 Hb Hmrow Hfill T2)
    as [Le Cells].
  assert (Ht' : (t < size1 enc_out)%nat) by lia.
  assert (H0' : (0 < size1 enc_out)%nat) by lia.
  destruct (Cells t Ht') as (et & _ & Et).
  destruct (Cells 0%nat H0') as (e0 & He0 & E0).
  destruct (Z.ltb_spec (Z.of_nat t) l); [lia|].
  destruct (Z.ltb_spec (Z.of_nat 0) l) as [C0|]; [|lia].
  destruct (Hfin 0%nat e0 He0 C0) as (r0 & -> & _).
  unfold drop_row, act_row. rewrite Hdrop, Hsig.
  set (s := sharpening_factor m) in *.
  destruct (softmax_distribution (map (fun x => xmul x (Fin s)) erow) (r0 * s))
    as (_ & _ & Hz).
  - eapply scaled_row_float; eauto.
  - apply in_map_iff. exists (Fin r0). split; [reflexivity|].
    eapply nth_error_In; eauto.
  - apply Hz. rewrite nth_error_map, Et. cbn [option_map].
    now rewrite xmul_ninf_pos.
Qed.

(** C8 (amended).  On a module whose mask is not cached, with softmax, no
    dropout, a sharpening factor that is a positive float and an encoder
    output of shape [B, T, E] with [T >= 1]: whatever energy of shape
    [B, T] lines 137-161 have left, if the energies of the real positions of
    batch element [b] are finite and stay finite when scaled, then every [b]
    with [x_lens[b] >= 1] has a row [aw_step[b]] of non-negative weights
    that sum to 1, and [context[b]] is the sum over [t] of
    [aw_step[b, t] * enc_out[b, t]]. *)
Theorem attention_weights_distribution
        (m : AttentionMechanism) enc_out x_lens (energy : xmat) m' ctx aw
        (b : nat) (l : Z) (en row : xvec) (encb : mat) :
  mask m = None -> sigmoid_smoothing m = false -> dropout m = None ->
  positive_float (sharpening_factor m) ->
  (1 <= size1 enc_out)%nat ->
  forward_float m enc_out x_lens (Ok energy) = (m', Ok (ctx, aw)) ->
  nth_error enc_out b = Some encb -> rows_of (size1 encb) encb ->
  nth_error x_lens b = Some l -> (1 <= l)%Z ->
  nth_error energy b = Some en -> length en = size1 enc_out ->
  finite_before (sharpening_factor m) l en ->
  nth_error aw b = Some row ->
  Forall weight_ok row /\
  xsum row = Fin 1 /\
  nth_error ctx b = Some [weighted_sum (size1 encb) row encb].
Proof.
  intros Hm Hsig Hdrop Hpf HT H Henc Rb Hl Hl1 Hen Len Hfin Hrow.
  pose proof (positive_float_pos _ Hpf) as Hs.
  destruct (forward_float_fresh _ _ _ _ _ _ _ Hm H) as (mk & M & A).
  assert (Hb : (b < length enc_out)%nat).
  { apply nth_error_Some. congruence. }
  destruct (make_mask_shape _ _ _ _ _ M) as [Lmk _].
  assert (Hb' : (b < length mk)%nat) by (clear - Lmk Hb; unfold tensor3, mat, vec in *; lia).
  split; [|split].
  3:{ eapply context_row; eauto. eapply attend_float_context; eauto. }
  all: destruct (attend_float_row _ _ _ _ _ _ _ _ A Hb' Hrow)
      as (en' & mrow & erow & Hen' & Hmrow & Hfill & ->).
  all: unfold xmat, xvec in *; rewrite Hen in Hen'; inversion Hen'; subst en'.
  all: assert (Hl0 : (0 <= l)%Z) by lia.
  all: destruct (fresh_masked_row_float _ _ _ _ _ _ _ _ _ M Hl Hl0 Hb Hmrow Hfill
                   (or_intror Len)) as [Le Cells].
  all: assert (H0 : (0 < size1 enc_out)%nat) by lia.
  all: destruct (Cells 0%nat H0) as (e0 & He0 & E0).
  all: destruct (Z.ltb_spec (Z.of_nat 0) l) as [C0|]; [|lia].
  all: destruct (Hfin 0%nat e0 He0 C0) as (r0 & -> & _).
  all: unfold drop_row, act_row; rewrite Hdrop, Hsig.
  all: destruct (softmax_distribution
                   (map (fun x => xmul x (Fin (sharpening_factor m))) erow)
                   (r0 * sharpening_factor m)) as (W & S & _);
    [ eapply scaled_row_float; eauto
    | apply in_map_iff; exists (Fin r0); split;
      [reflexivity | eapply nth_error_In; eauto]
    | assumption ].
Qed.

(** X1.  Padded positions get weight 0 in every configuration of the
    layer: with sigmoid smoothing whatever the energies are, with softmax
    when the energies of the real positions are finite and stay finite when
    scaled; with or without attention dropout; for a sharpening factor that
    is a positive float. *)
Theorem padded_zero_in_every_configuration
        (m : AttentionMechanism) enc_out x_lens (energy : xmat) m' ctx aw
        (b t : nat) (l : Z) (en row : xvec) :
  mask m = None -> positive_float (sharpening_factor m) -> dropout_ok m ->
  forward_float m enc_out x_lens (Ok energy) = (m', Ok (ctx, aw)) ->
  (b < length enc_out)%nat -> nth_error x_lens b = Some l ->
  (1 <= l < Z.of_nat (size1 enc_out))%Z ->
  nth_error energy b = Some en ->
  (sigmoid_smoothing m = false -> finite_before (sharpening_factor m) l en) ->
  nth_error aw b = Some row ->
  (l <= Z.of_nat t < Z.of_nat (size1 enc_out))%Z ->
  nth_error row t = Some (Fin 0).
Proof.
  intros Hm Hpf _ H Hb Hl Hrange Hen Hfin Hrow Ht.
  pose proof (positive_float_pos _ Hpf) as Hs.
  destruct (forward_float_fresh _ _ _ _ _ _ _ Hm H) as (mk & M & A).
  destruct (make_mask_shape _ _ _ _ _ M) as [Lmk _].
  assert (Hb' : (b < length mk)%nat) by (clear - Lmk Hb; unfold tensor3, mat, vec in *; lia).
  destruct (attend_float_row _ _ _ _ _ _ _ _ A Hb' Hrow)
    as (en' & mrow & erow & Hen' & Hmrow & Hfill & ->).
  unfold xmat, xvec in *. rewrite Hen in Hen'. inversion Hen'; subst en'.
  assert (Hl0 : (0 <= l)%Z) by lia.
  assert (T2 : (2 <= size1 enc_out)%nat \/ length en = size1 enc_out) by (left; lia).
  destruct (fresh_masked_row_float _ _ _ _ _ _ _ _ _ M Hl Hl0 Hb Hmrow Hfill T2)
    as [Le Cells].
  assert (Ht' : (t < size1 enc_out)%nat) by lia.
  assert (H0' : (0 < size1 enc_out)%nat) by lia.
  destruct (Cells t Ht') as (et & _ & Et).
  destruct (Cells 0%nat H0') as (e0 & He0 & E0).
  destruct (Z.ltb_spec (Z.of_nat t) l); [lia|].
  destruct (Z.ltb_spec (Z.of_nat 0) l) as [C0|]; [|lia].
  set (s := sharpening_factor m) in *.
  set (scaled := map (fun x => xmul x (Fin s)) erow).
  assert (St : nth_error scaled t = Some NInf).
  { unfold scaled. rewrite nth_error_map, Et. cbn [option_map].
    now rewrite xmul_ninf_pos. }
  assert (Act : nth_error (act_row m scaled) t = Some (Fin 0)).
  { unfold act_row. destruct (sigmoid_smoothing m) eqn:Sig.
    - now rewrite nth_error_map, St.
    - specialize (Hfin eq_refl).
      destruct (Hfin 0%nat e0 He0 C0) as (r0 & -> & _).
      destruct (softmax_distribution scaled (r0 * s)) as (_ & _ & Hz).
      + eapply scaled_row_float; eauto.
      + unfold scaled. apply in_map_iff. exists (Fin r0). split; [reflexivity|].
        eapply nth_error_In; eauto.
      + now apply Hz. }
  unfold drop_row. destruct (dropout m) as [d|]; [|exact Act].
  destruct (drop_active d); [|exact Act].
  unfold imap. rewrite nth_error_imap_from, Act. cbn [option_map xmul].
  do 2 f_equal. ring.
Qed.

Lemma exp_le (x y : R) : x <= y -> exp x <= exp y.
Proof.
  intros [H| ->]; [left; now apply exp_increasing | right; reflexivity].
Qed.

(** X2.  The weights follow the energies: without dropout, with softmax or
    with sigmoid smoothing, of two real positions with finite energies the
    one with the larger energy never gets the smaller weight. *)
Theorem weights_follow_energies
        (m : AttentionMechanism) enc_out x_lens (energy : xmat) m' ctx aw
        (b t u : nat) (l : Z) (en row : xvec) (a c : R) :
  mask m = None -> dropout m = None ->
  positive_float (sharpening_factor m) ->
  forward_float m enc_out x_lens (Ok energy) = (m', Ok (ctx, aw)) ->
  (b < length enc_out)%nat -> nth_error x_lens b = Some l -> (0 <= l)%Z ->
  nth_error energy b = Some en -> length en = size1 enc_out ->
  finite_before (sharpening_factor m) l en ->
  nth_error aw b = Some row ->
  (Z.of_nat t < l)%Z -> (Z.of_nat u < l)%Z ->
  nth_error en t = Some (Fin a) -> nth_error en u = Some (Fin c) -> a <= c ->
  exists wt wu,
    nth_error row t = Some (Fin wt) /\ nth_error row u = Some (Fin wu) /\ wt <= wu.
Proof.
  intros Hm Hdrop Hpf H Hb Hl Hl0 Hen Len Hfin Hrow Htl Hul Ea Ec Hac.
  pose proof (positive_float_pos _ Hpf) as Hs.
  destruct (forward_float_fresh _ _ _ _ _ _ _ Hm H) as (mk & M & A).
  destruct (make_mask_shape _ _ _ _ _ M) as [Lmk _].
  assert (Hb' : (b < length mk)%nat) by (clear - Lmk Hb; unfold tensor3, mat, vec in *; lia).
  destruct (attend_float_row _ _ _ _ _ _ _ _ A Hb' Hrow)
    as (en' & mrow & erow & Hen' & Hmrow & Hfill & ->).
  unfold xmat, xvec in *. rewrite Hen in Hen'. inversion Hen'; subst en'.
  destruct (fresh_masked_row_float _ _ _ _ _ _ _ _ _ M Hl Hl0 Hb Hmrow Hfill
              (or_intror Len)) as [Le Cells].
  assert (Ht : (t < size1 enc_out)%nat)
    by (rewrite <- Len; apply nth_error_Some; congruence).
  assert (Hu : (u < size1 enc_out)%nat)
    by (rewrite <- Len; apply nth_error_Some; congruence).
  destruct (Cells t Ht) as (et & Het & Et). destruct (Cells u Hu) as (eu & Heu & Eu).
  rewrite Ea in Het. inversion Het; subst et.
  rewrite Ec in Heu. inversion Heu; subst eu.
  destruct (Z.ltb_spec (Z.of_nat t) l); [|lia].
  destruct (Z.ltb_spec (Z.of_nat u) l); [|lia].
  set (s := sharpening_factor m) in *.
  set (scaled := map (fun x => xmul x (Fin s)) erow).
  assert (St : nth_error scaled t = Some (Fin (a * s)))
    by (unfold scaled; now rewrite nth_error_map, Et).
  assert (Su : nth_error scaled u = Some (Fin (c * s)))
    by (unfold scaled; now rewrite nth_error_map, Eu).
  assert (Hle : a * s <= c * s) by (apply Rmult_le_compat_r; lra).
  unfold drop_row, act_row. rewrite Hdrop.
  destruct (sigmoid_smoothing m).
  - rewrite !nth_error_map. fold scaled. rewrite St, Su. cbn [option_map xsigmoid].
    eexists. eexists. split; [reflexivity|]. split; [reflexivity|].
    pose proof (exp_pos (- (a * s))) as Pa. pose proof (exp_pos (- (c * s))) as Pc.
    assert (E : exp (- (c * s)) <= exp (- (a * s))) by (apply exp_le; lra).
    unfold Rdiv. rewrite !Rmult_1_l. apply Rinv_le_contravar; lra.
  - fold scaled.
    assert (F : Forall fin_or_masked scaled) by (eapply scaled_row_float; eauto).
    assert (I : In (Fin (a * s)) scaled) by (eapply nth_error_In; eauto).
    pose proof (Rsum_ex_pos scaled (a * s) I) as P.
    rewrite (softmax_masked scaled F P), !nth_error_map, St, Su. cbn [option_map ex].
    eexists. eexists. split; [reflexivity|]. split; [reflexivity|].
    unfold Rdiv. apply Rmult_le_compat_r.
    + left. now apply Rinv_0_lt_compat.
    + now apply exp_le.
Qed.

(** X3.  With sigmoid smoothing and without dropout the weights are not
    normalised: a real position with a finite energy has a weight between
    0 and 1, and every position from [x_lens[b]] on has weight 0, whatever
    the energies are; a sequence of length 0 gets a row of zeros. *)
Theorem sigmoid_weights
        (m : AttentionMechanism) enc_out x_lens (energy : xmat) m' ctx aw
        (b t : nat) (l : Z) (en row : xvec) :
  mask m = None -> sigmoid_smoothing m = true -> dropout m = None ->
  positive_float (sharpening_factor m) ->
  forward_float m enc_out x_lens (Ok energy) = (m', Ok (ctx, aw)) ->
  (b < length enc_out)%nat -> nth_error x_lens b = Some l -> (0 <= l)%Z ->
  nth_error energy b = Some en -> length en = size1 enc_out ->
  nth_error aw b = Some row -> (t < size1 enc_out)%nat ->
  (forall r, (Z.of_nat t < l)%Z -> nth_error en t = Some (Fin r) ->
             float_ok (r * sharpening_factor m) ->
             exists w, nth_error row t = Some (Fin w) /\ 0 <= w <= 1) /\
  ((l <= Z.of_nat t)%Z -> nth_error row t = Some (Fin 0)).
Proof.
  intros Hm Hsig Hdrop Hpf H Hb Hl Hl0 Hen Len Hrow Ht.
  pose proof (positive_float_pos _ Hpf) as Hs.
  destruct (forward_float_fresh _ _ _ _ _ _ _ Hm H) as (mk & M & A).
  destruct (make_mask_shape _ _ _ _ _ M) as [Lmk _].
  assert (Hb' : (b < length mk)%nat) by (clear - Lmk Hb; unfold tensor3, mat, vec in *; lia).
  destruct (attend_float_row _ _ _ _ _ _ _ _ A Hb' Hrow)
    as (en' & mrow & erow & Hen' & Hmrow & Hfill & ->).
  unfold xmat, xvec in *. rewrite Hen in Hen'. inversion Hen'; subst en'.
  destruct (fresh_masked_row_float _ _ _ _ _ _ _ _ _ M Hl Hl0 Hb Hmrow Hfill
              (or_intror Len)) as [Le Cells].
  destruct (Cells t Ht) as (et & Het & Et).
  unfold drop_row, act_row. rewrite Hdrop, Hsig, !nth_error_map, Et.
  cbn [option_map]. split.
  - intros r C Er _. rewrite Er in Het. inversion Het; subst et.
    destruct (Z.ltb_spec (Z.of_nat t) l); [|lia]. cbn [xmul xsigmoid].
    eexists. split; [reflexivity|].
    pose proof (exp_pos (- (r * sharpening_factor m))) as P.
    split.
    + left. apply Rdiv_lt_0_compat; lra.
    + left. apply Rmult_lt_reg_r with (r := 1 + exp (- (r * sharpening_factor m))); [lra|].
      unfold Rdiv. rewrite Rmult_assoc, Rinv_l by lra. lra.
  - intros C. destruct (Z.ltb_spec (Z.of_nat t) l); [lia|].
    now rewrite xmul_ninf_pos.
Qed.

End Weights.

Lemma padded_positions_get_zero_weight_witness :
  exists ctx row,
    snd (Attention.forward_float (Examples.attn "dot" 1) [[[1]; [1]]] [1%Z]
                                 (Ok [[Torch.Fin 1; Torch.NaN]]))
    = Ok (ctx, [row]) /\
    nth_error row 1 = Some (Torch.Fin 0).
Proof.
  eexists. eexists. split.
  - cbn. reflexivity.
  - eapply (padded_positions_get_zero_weight
              (Examples.attn "dot" 1) [[[1]; [1]]] [1%Z] [[Torch.Fin 1; Torch.NaN]]
              _ _ _ 0 1 1%Z [Torch.Fin 1; Torch.NaN]).
    + reflexivity.
    + reflexivity.
    + reflexivity.
    + exact positive_float_1.
    + cbn. reflexivity.
    + simpl. lia.
    + reflexivity.
    + simpl. lia.
    + reflexivity.
    + intros [|k] x Hx Hk; [|lia]. inversion Hx. exists 1. split; [reflexivity|].
      exact float_ok_1.
    + reflexivity.
    + simpl. lia.
Defined.

(** The condition on the energies cannot be dropped: an energy that is NaN
    at a real position makes the whole row NaN, the padded position
    included. *)
Lemma non_finite_energy_row :
  snd (Attention.forward_float (Examples.attn "dot" 1) [[[1]; [1]]] [1%Z]
                               (Ok [[Torch.NaN; Torch.Fin 1]]))
  = Ok ([[[Torch.NaN]]], [[Torch.NaN; Torch.NaN]]).
Proof.
  cbn. change (Pos.to_nat 1) with 1%nat. cbn.
  unfold Attention.attend_float, Attention.masked_fill_float, Attention.fill_cell_float.
  cbn. decide_reals. rewrite !(xmul_ninf_pos 1) by lra. reflexivity.
Qed.

Lemma attention_weights_distribution_witness :
  exists ctx row,
    snd (Attention.forward_float (Examples.attn "dot" 1) [[[1]; [1]]] [1%Z]
                                 (Ok [[Torch.Fin 1; Torch.Fin 1]]))
    = Ok (ctx, [row]) /\
    Forall Spec.weight_ok row /\
    Torch.xsum row = Torch.Fin 1 /\
    nth_error ctx 0 = Some [Spec.weighted_sum 1 row [[1]; [1]]].
Proof.
  eexists. eexists. split.
  - cbn. reflexivity.
  - eapply (attention_weights_distribution
              (Examples.attn "dot" 1) [[[1]; [1]]] [1%Z] [[Torch.Fin 1; Torch.Fin 1]]
              _ _ _ 0 1%Z [Torch.Fin 1; Torch.Fin 1] _ [[1]; [1]]).
    + reflexivity.
    + reflexivity.
    + reflexivity.
    + exact positive_float_1.
    + unfold Torch.size1. simpl. lia.
    + cbn. reflexivity.
    + reflexivity.
    + repeat constructor.
    + reflexivity.
    + lia.
    + reflexivity.
    + reflexivity.
    + apply finite_before_Forall. repeat constructor; exists 1;
        (split; [reflexivity | exact float_ok_1]).
    + reflexivity.
Defined.

Lemma padded_zero_in_every_configuration_witness :
  exists ctx row,
    snd (Attention.forward_float
           (Examples.attn_with "dot" 1 true (Some Examples.half_drop))
           [[[1]; [1]]] [1%Z] (Ok [[Torch.PInf; Torch.NaN]]))
    = Ok (ctx, [row]) /\
    nth_error row 1 = Some (Torch.Fin 0).
Proof.
  assert (E : exists ctx row,
             Attention.forward_float
               (Examples.attn_with "dot" 1 true (Some Examples.half_drop))
               [[[1]; [1]]] [1%Z] (Ok [[Torch.PInf; Torch.NaN]])
             = (fst (Attention.forward_float
                       (Examples.attn_with "dot" 1 true (Some Examples.half_drop))
                       [[[1]; [1]]] [1%Z] (Ok [[Torch.PInf; Torch.NaN]])),
                Ok (ctx, [row]))).
  { cbn. change (Pos.to_nat 1) with 1%nat. cbn.
    unfold Attention.attend_float, Attention.masked_fill_float, Attention.fill_cell_float,
      Torch.dropout2x, Torch.drop_active. cbn.
    destruct (Req_dec_T (1 / 2) 0) as [Hz|Hz]; [lra|]. cbn.
    eexists. eexists. reflexivity. }
  destruct E as (ctx & row & E). exists ctx, row. split.
  - now rewrite E.
  - eapply (padded_zero_in_every_configuration
              (Examples.attn_with "dot" 1 true (Some Examples.half_drop))
              [[[1]; [1]]] [1%Z] [[Torch.PInf; Torch.NaN]] _ ctx [row] 0 1 1%Z
              [Torch.PInf; Torch.NaN] row eq_refl).
    + exact positive_float_1.
    + intros d Hd. inversion Hd; subst d. cbn. split; [lra|].
      apply float_ok_half_drop.
    + exact E.
    + simpl. lia.
    + reflexivity.
    + simpl. lia.
    + reflexivity.
    + discriminate.
    + reflexivity.
    + simpl. lia.
Defined.

Lemma weights_follow_energies_witness :
  exists ctx row wt wu,
    snd (Attention.forward_float (Examples.attn "dot" 1) [[[1]; [1]]] [2%Z]
                                 (Ok [[Torch.Fin 0; Torch.Fin 1]]))
    = Ok (ctx, [row]) /\
    nth_error row 0 = Some (Torch.Fin wt) /\ nth_error row 1 = Some (Torch.Fin wu) /\
    wt <= wu.
Proof.
  assert (E : exists ctx row,
             Attention.forward_float (Examples.attn "dot" 1) [[[1]; [1]]] [2%Z]
                                     (Ok [[Torch.Fin 0; Torch.Fin 1]])
             = (fst (Attention.forward_float (Examples.attn "dot" 1) [[[1]; [1]]] [2%Z]
                                             (Ok [[Torch.Fin 0; Torch.Fin 1]])),
                Ok (ctx, [row]))).
  { cbn. eexists. eexists. reflexivity. }
  destruct E as (ctx & row & E).
  destruct (weights_follow_energies
              (Examples.attn "dot" 1) [[[1]; [1]]] [2%Z] [[Torch.Fin 0; Torch.Fin 1]]
              (fst (Attention.forward_float (Examples.attn "dot" 1) [[[1]; [1]]] [2%Z]
                                            (Ok [[Torch.Fin 0; Torch.Fin 1]])))
              ctx [row] 0 0 1 2%Z [Torch.Fin 0; Torch.Fin 1] row 0 1
              eq_refl eq_refl positive_float_1 E) as (wt & wu & H1 & H2 & H3);
    try reflexivity; try (simpl; lia); try lra.
  - apply finite_before_Forall. repeat constructor.
    + exists 0. split; [reflexivity|]. apply float_ok_unit.
      rewrite Rmult_0_l, Rabs_R0. lra.
    + exists 1. split; [reflexivity | exact float_ok_1].
  - exists ctx, row, wt, wu. split; [now rewrite E | auto].
Defined.

Lemma sigmoid_weights_witness :
  exists ctx row,
    snd (Attention.forward_float (Examples.attn_with "dot" 1 true None)
                                 [[[1]; [1]]] [0%Z] (Ok [[Torch.NaN; Torch.PInf]]))
    = Ok (ctx, [row]) /\
    nth_error row 0 = Some (Torch.Fin 0) /\ nth_error row 1 = Some (Torch.Fin 0).
Proof.
  assert (E : exists ctx row,
             Attention.forward_float (Examples.attn_with "dot" 1 true None)
                                     [[[1]; [1]]] [0%Z] (Ok [[Torch.NaN; Torch.PInf]])
             = (fst (Attention.forward_float (Examples.attn_with "dot" 1 true None)
                                             [[[1]; [1]]] [0%Z]
                                             (Ok [[Torch.NaN; Torch.PInf]])),
                Ok (ctx, [row]))).
  { cbn. eexists. eexists. reflexivity. }
  destruct E as (ctx & row & E). exists ctx, row. split; [now rewrite E|].
  split.
  - apply (proj2 (sigmoid_weights
                    (Examples.attn_with "dot" 1 true None)
                    [[[1]; [1]]] [0%Z] [[Torch.NaN; Torch.PInf]] _ ctx [row] 0 0 0%Z
                    [Torch.NaN; Torch.PInf] row
                    eq_refl eq_refl eq_refl positive_float_1 E (le_n 1) eq_refl
                    (Z.le_refl 0) eq_refl eq_refl eq_refl (Nat.lt_0_succ 1))).
    simpl. lia.
  - apply (proj2 (sigmoid_weights
                    (Examples.attn_with "dot" 1 true None)
                    [[[1]; [1]]] [0%Z] [[Torch.NaN; Torch.PInf]] _ ctx [row] 0 1 0%Z
                    [Torch.NaN; Torch.PInf] row
                    eq_refl eq_refl eq_refl positive_float_1 E (le_n 1) eq_refl
                    (Z.le_refl 0) eq_refl eq_refl eq_refl (le_n 2))).
    simpl. lia.
Defined.

(** ** Sequences of length 0, negative lengths, missing lengths *)

Section MaskEdges.
Import Torch Attention Spec.

Lemma xsum_zeros (row : xvec) :
  Forall (fun x => x = Fin 0) row -> exists r, xsum row = Fin r /\ r = 0.
Proof.
  unfold xsum. induction row as [|x row IH]; intros F; cbn [fold_right].
  - exists 0. auto.
  - apply Forall_cons_iff in F as [-> F]. destruct (IH F) as (r & -> & ->).
    exists (0 + 0). split; [reflexivity | ring].
Qed.

Lemma xsum_pinfs (row : xvec) :
  row <> [] -> Forall (fun x => x = PInf) row -> xsum row = PInf.
Proof.
  unfold xsum. induction row as [|x row IH]; intros NE F; [congruence|].
  apply Forall_cons_iff in F as [-> F]. cbn [fold_right].
  destruct row as [|y row]; [reflexivity|].
  rewrite IH; [reflexivity | discriminate | exact F].
Qed.

(** The softmax of a row whose energies are all masked is NaN throughout,
    whatever the sharpening factor made of the masked value. *)
Lemma softmax_all_masked (s : R) (erow : xvec) :
  Forall (fun x => x = NInf) erow ->
  Forall (fun x => x = NaN) (softmax (map (fun x => xmul x (Fin s)) erow)).
Proof.
  intros F. unfold softmax. rewrite !map_map.
  destruct erow as [|x0 erow0] eqn:Erow; [constructor|]. rewrite <- Erow in *.
  assert (NE : erow <> []) by (rewrite Erow; discriminate). clear Erow x0 erow0.
  apply Forall_map. rewrite Forall_forall in F. apply Forall_forall. intros x Hx.
  rewrite (F x Hx). cbn [xmul]. unfold by_sign.
  destruct (Rlt_dec 0 s) as [Pos|NPos]; [|destruct (Rlt_dec s 0) as [Neg|NNeg]].
  - assert (Z : Forall (fun y => y = Fin 0) (map (fun x : xfloat => xexp (xmul x (Fin s))) erow)).
    { apply Forall_map, Forall_forall. intros y Hy. rewrite (F y Hy).
      now rewrite xmul_ninf_pos. }
    destruct (xsum_zeros _ Z) as (r & -> & ->). cbn.
    destruct (Req_dec_T 0 0); [|lra]. unfold by_sign. decide_reals. reflexivity.
  - assert (Z : Forall (fun y => y = PInf) (map (fun x : xfloat => xexp (xmul x (Fin s))) erow)).
    { apply Forall_map, Forall_forall. intros y Hy. rewrite (F y Hy).
      cbn [xmul]. unfold by_sign. decide_reals. reflexivity. }
    assert (NE' : map (fun x : xfloat => xexp (xmul x (Fin s))) erow <> []).
    { intros E. apply map_eq_nil in E. contradiction. }
    rewrite (xsum_pinfs _ NE' Z). reflexivity.
  - reflexivity.
Qed.

(** X4.  A sequence of length 0 is masked completely and the softmax has
    nothing to normalise: the whole row [aw_step[b]] is NaN, for every
    sharpening factor and with or without dropout. *)
Theorem empty_sequence_row_is_nan
        (m : AttentionMechanism) enc_out x_lens dec_out aw_in m' ctx aw
        (b : nat) (row : xvec) :
  enc_out_a m = None -> mask m = None -> sigmoid_smoothing m = false ->
  rows_of (size1 enc_out) enc_out ->
  forward m enc_out x_lens dec_out aw_in = (m', Ok (ctx, aw)) ->
  (b < length enc_out)%nat -> nth_error x_lens b = Some 0%Z ->
  nth_error aw b = Some row ->
  length row = size1 enc_out /\ Forall (fun x => x = NaN) row.
Proof.
  intros Ha Hm Hsig Rect H Hb Hl Hrow.
  destruct (forward_fresh _ _ _ _ _ _ _ _ Hm H) as (mk & energy & M & FE & A).
  destruct (make_mask_shape _ _ _ _ _ M) as [Lmk _].
  assert (Hb' : (b < length mk)%nat) by (clear - Lmk Hb; unfold tensor3, mat, vec in *; lia).
  assert (RE : rows_of (size1 enc_out) energy).
  { unfold forward_energy, cached_enc_out_a in FE. rewrite Ha in FE.
    eapply energy_rows; [|exact FE]. now apply LinearND_rows. }
  destruct (attend_row_any _ _ _ _ _ _ _ _ A Hb' Hrow)
    as (en & mrow & erow & Hen & Hmrow & Hfill & ->).
  assert (Len : (2 <= size1 enc_out)%nat \/ length en = size1 enc_out).
  { right. unfold rows_of in RE. rewrite Forall_forall in RE. apply RE.
    eapply nth_error_In; eauto. }
  destruct (fresh_masked_row _ _ _ _ _ _ _ _ _ M Hl (Z.le_refl 0) Hb Hmrow Hfill Len)
    as [Le Cells].
  assert (AllMasked : Forall (fun x => x = NInf) erow).
  { apply Forall_forall. intros x Hx. apply In_nth_error in Hx as [t Ht].
    assert (Lt : (t < size1 enc_out)%nat).
    { rewrite <- Le. apply nth_error_Some. congruence. }
    destruct (Cells t Lt) as (e & _ & Et). rewrite Ht in Et.
    destruct (Z.ltb_spec (Z.of_nat t) 0); [lia|]. now inversion Et. }
  pose proof (softmax_all_masked (sharpening_factor m) erow AllMasked) as N.
  unfold act_row. rewrite Hsig.
  assert (Ls : length (softmax (map (fun x => xmul x (Fin (sharpening_factor m))) erow))
               = size1 enc_out).
  { unfold softmax. now rewrite !length_map. }
  unfold drop_row. destruct (dropout m) as [d|]; [|split; assumption].
  destruct (drop_active d); [|split; assumption].
  unfold imap. split; [now rewrite imap_from_length|].
  apply imap_from_Forall. intros i x Hx. rewrite Forall_forall in N.
  now rewrite (N x Hx).
Qed.

(** X5.  A negative entry of [x_lens] is not rejected: as the start of the
    slice [mask[b, x_lens[b]:]] it counts from the end, so [-k] masks the
    last [k] positions (all of them when [k >= enc_time]). *)
Theorem negative_length_masks_tail
        (m : AttentionMechanism) enc_out x_lens dec_out aw_in (b t : nat) (l : Z) :
  mask m = None -> (length enc_out <= length x_lens)%nat ->
  nth_error x_lens b = Some l -> (l < 0)%Z ->
  (b < length enc_out)%nat -> (t < size1 enc_out)%nat ->
  exists k row,
    mask (fst (forward m enc_out x_lens dec_out aw_in)) = Some k /\
    nth_error k b = Some row /\
    nth_error row t
    = Some (if (Z.of_nat t <? l + Z.of_nat (size1 enc_out))%Z then 1 else 0).
Proof.
  intros Hm Lx Hl Hneg Hb Ht. unfold forward, cached_mask. rewrite Hm.
  destruct (make_mask _ _ x_lens) as [mk err] eqn:M. cbn [fst mask set_mask].
  assert (err = None) by (eapply make_mask_covered; eauto). subst err.
  destruct (make_mask_shape _ _ _ _ _ M) as [Lmk _].
  destruct (nth_error mk b) as [row|] eqn:Eb.
  2:{ apply nth_error_None in Eb. clear - Eb Lmk Hb. unfold tensor3, mat, vec in *. lia. }
  exists mk, row. split; [reflexivity|]. split; [exact Eb|].
  destruct (mask_rows_nth _ _ _ _ _ M b row Eb) as (r0 & l' & H1 & H2 & ->).
  cbn [Nat.add] in H2. rewrite Hl in H2. inversion H2; subst l'.
  apply nth_error_In, repeat_spec in H1. subst r0.
  destruct (Z.ltb_spec l (Z.of_nat (size1 enc_out))); [|lia].
  rewrite fill_from_ones by (auto using slice_start_le).
  unfold slice_start. destruct (Z.ltb_spec l 0); [|lia].
  destruct (Nat.ltb_spec t (Z.to_nat (Z.max 0 (l + Z.of_nat (size1 enc_out)))));
    destruct (Z.ltb_spec (Z.of_nat t) (l + Z.of_nat (size1 enc_out)));
    try reflexivity; lia.
Qed.

Lemma mask_rows_short (T : nat) (x_lens : list Z) (rows : mat) (b : nat) :
  (b <= length x_lens)%nat -> (length x_lens < b + length rows)%nat ->
  snd (mask_rows T x_lens b rows) = Some IndexError.
Proof.
  revert b; induction rows as [|row rows IH]; intros b L1 L2; cbn [length] in L2.
  - lia.
  - cbn [mask_rows]. destruct (nth_error x_lens b) as [l|] eqn:E; [|reflexivity].
    assert (b < length x_lens)%nat by (apply nth_error_Some; congruence).
    specialize (IH (S b)).
    destruct (mask_rows T x_lens (S b) rows) as [rest e]. cbn [snd] in *.
    apply IH; lia.
Qed.

Lemma mask_rows_untouched (T : nat) (x_lens : list Z) (rows : mat) (b i : nat) :
  (length x_lens <= b + i)%nat ->
  nth_error (fst (mask_rows T x_lens b rows)) i = nth_error rows i.
Proof.
  revert b i; induction rows as [|row rows IH]; intros b i L; [reflexivity|].
  cbn [mask_rows]. destruct (nth_error x_lens b) as [l|] eqn:E; [|reflexivity].
  assert (b < length x_lens)%nat by (apply nth_error_Some; congruence).
  specialize (IH (S b)).
  destruct (mask_rows T x_lens (S b) rows) as [rest e]. cbn [fst] in *.
  destruct i as [|i]; [lia|]. cbn [nth_error]. apply IH. lia.
Qed.

(** X6.  When [x_lens] has fewer entries than the batch, the first call
    raises IndexError but has already stored [enc_out_a] and a mask whose
    rows beyond [x_lens] are all ones; every later call keeps that mask,
    whatever lengths it is given, until [reset]. *)
Theorem short_x_lens_leaves_partial_mask
        (m : AttentionMechanism) enc_out x_lens dec_out aw_in :
  mask m = None -> (length x_lens < length enc_out)%nat ->
  let m1 := fst (forward m enc_out x_lens dec_out aw_in) in
  snd (forward m enc_out x_lens dec_out aw_in) = Raise IndexError /\
  enc_out_a m1 <> None /\
  (exists k, mask m1 = Some k /\
             forall b, (length x_lens <= b < length enc_out)%nat ->
                       nth_error k b = Some (repeat 1 (size1 enc_out))) /\
  (forall enc_out' x_lens' dec_out' aw_in',
      fst (forward m1 enc_out' x_lens' dec_out' aw_in') = m1).
Proof.
  intros Hm Short m1.
  destruct (make_mask (length enc_out) (size1 enc_out) x_lens) as [mk err] eqn:M.
  assert (E : err = Some IndexError).
  { pose proof (mask_rows_short (size1 enc_out) x_lens
                  (repeat (repeat 1 (size1 enc_out)) (length enc_out)) 0) as S.
    unfold make_mask in M. rewrite M in S. apply S; [lia|].
    rewrite repeat_length. lia. }
  subst err.
  assert (F : forward m enc_out x_lens dec_out aw_in
              = (set_mask (set_enc_out_a m (Some (cached_enc_out_a m enc_out))) (Some mk),
                 Raise IndexError)).
  { unfold forward, cached_mask. rewrite Hm, M. reflexivity. }
  subst m1. rewrite F. cbn [fst snd mask enc_out_a set_mask set_enc_out_a].
  split; [reflexivity|]. split; [discriminate|]. split.
  - exists mk. split; [reflexivity|]. intros b Hb.
    pose proof (mask_rows_untouched (size1 enc_out) x_lens
                  (repeat (repeat 1 (size1 enc_out)) (length enc_out)) 0 b) as U.
    unfold make_mask in M. rewrite M in U. cbn [fst] in U.
    rewrite U by lia. apply nth_error_repeat. lia.
  - intros enc_out' x_lens' dec_out' aw_in'.
    unfold forward, cached_mask, cached_enc_out_a.
    cbn [mask enc_out_a set_mask set_enc_out_a fst]. reflexivity.
Qed.

End MaskEdges.

Lemma empty_sequence_row_is_nan_witness :
  exists ctx row,
    snd (Attention.forward (Examples.attn "dot" 1) [[[1]; [1]]] [0%Z] [[1]] None)
    = Ok (ctx, [row]) /\
    length row = 2%nat /\ Forall (fun x => x = Torch.NaN) row.
Proof.
  assert (E : exists ctx row,
             Attention.forward (Examples.attn "dot" 1) [[[1]; [1]]] [0%Z] [[1]] None
             = (fst (Attention.forward (Examples.attn "dot" 1) [[[1]; [1]]] [0%Z] [[1]] None),
                Ok (ctx, [row]))).
  { cbn. eexists. eexists. reflexivity. }
  destruct E as (ctx & row & E). exists ctx, row. split; [now rewrite E|].
  eapply (empty_sequence_row_is_nan
            (Examples.attn "dot" 1) [[[1]; [1]]] [0%Z] [[1]] None _ ctx [row] 0 row
            eq_refl eq_refl eq_refl); try exact E; try reflexivity;
    try (repeat constructor); try (simpl; lia).
Defined.

Lemma negative_length_masks_tail_witness :
  exists k row,
    Attention.mask (fst (Attention.forward (Examples.attn "dot" 1)
                           [[[1]; [1]; [1]]] [(-1)%Z] [[1]] None)) = Some k /\
    nth_error k 0 = Some row /\
    nth_error row 2 = Some 0 /\ nth_error row 1 = Some 1.
Proof.
  destruct (negative_length_masks_tail
              (Examples.attn "dot" 1) [[[1]; [1]; [1]]] [(-1)%Z] [[1]] None 0 2 (-1)%Z
              eq_refl) as (k & row & Hk & Hrow & H2);
    try reflexivity; try (simpl; lia); try (unfold Torch.size1; simpl; lia).
  destruct (negative_length_masks_tail
              (Examples.attn "dot" 1) [[[1]; [1]; [1]]] [(-1)%Z] [[1]] None 0 1 (-1)%Z
              eq_refl) as (k' & row' & Hk' & Hrow' & H1);
    try reflexivity; try (simpl; lia); try (unfold Torch.size1; simpl; lia).
  rewrite Hk in Hk'. injection Hk' as <-. rewrite Hrow in Hrow'. injection Hrow' as <-.
  exists k, row. repeat split; assumption.
Defined.

Lemma short_x_lens_leaves_partial_mask_witness :
  snd (Attention.forward (Examples.attn "dot" 1) [[[1]; [1]]; [[1]; [1]]] [1%Z] [[1]; [1]] None)
  = Raise IndexError /\
  Attention.mask (fst (Attention.forward (Examples.attn "dot" 1)
                         [[[1]; [1]]; [[1]; [1]]] [1%Z] [[1]; [1]] None))
  = Some [[1; 0]; [1; 1]].
Proof.
  destruct (short_x_lens_leaves_partial_mask
              (Examples.attn "dot" 1) [[[1]; [1]]; [[1]; [1]]] [1%Z] [[1]; [1]] None
              eq_refl) as (H1 & _ & _ & _).
  - simpl. lia.
  - split; [exact H1 | reflexivity].
Defined.

(** ** What a call changes, and the shapes it returns *)

Section Frame.
Import Torch Attention Spec.

(** X7.  A call changes nothing but the two caches, so [reset] after any
    call gives the module that [reset] gave before it: what a module
    computes after [reset] does not depend on the calls made earlier. *)
Theorem reset_forgets_earlier_calls
        (m : AttentionMechanism) enc_out x_lens dec_out aw_in :
  let m' := fst (forward m enc_out x_lens dec_out aw_in) in
  reset m' = reset m /\
  (forall enc_out' x_lens' dec_out' aw_in',
      forward (reset m') enc_out' x_lens' dec_out' aw_in'
      = forward (reset m) enc_out' x_lens' dec_out' aw_in') /\
  attn_type m' = attn_type m /\ sharpening_factor m' = sharpening_factor m /\
  sigmoid_smoothing m' = sigmoid_smoothing m /\ dropout m' = dropout m /\
  w_enc m' = w_enc m /\ w_dec m' = w_dec m /\ w_conv m' = w_conv m /\
  v m' = v m /\ conv m' = conv m.
Proof.
  intros m'.
  assert (R : reset m' = reset m).
  { subst m'. unfold forward.
    destruct (cached_mask m (length enc_out) (size1 enc_out) x_lens) as [mk err].
    destruct m; reflexivity. }
  split; [exact R|]. split; [intros; now rewrite R|].
  subst m'. unfold forward.
  destruct (cached_mask m (length enc_out) (size1 enc_out) x_lens) as [mk err].
  destruct m; cbn. repeat split.
Qed.

Lemma mask_rows_bits (T : nat) (x_lens : list Z) (rows : mat) (b : nat) :
  Forall (Forall is_bit) rows -> Forall (Forall is_bit) (fst (mask_rows T x_lens b rows)).
Proof.
  revert b; induction rows as [|row rows IH]; intros b F; cbn [mask_rows]; [constructor|].
  destruct (nth_error x_lens b) as [l|]; [|exact F].
  apply Forall_cons_iff in F as [Hrow Hrest]. specialize (IH (S b) Hrest).
  destruct (mask_rows T x_lens (S b) rows) as [rest' e]. cbn [fst] in *.
  constructor; [|exact IH].
  destruct (l <? Z.of_nat T)%Z; [|exact Hrow].
  unfold fill_from. apply Forall_app. split.
  - now apply Forall_firstn.
  - apply Forall_forall. intros x Hx. apply repeat_spec in Hx. now left.
Qed.

(** X8.  Whatever [x_lens] holds (negative entries, too few entries), the
    mask that a call stores has one row per batch element, [enc_time]
    entries per row, and only the entries 0 and 1. *)
Theorem stored_mask_is_well_formed
        (m : AttentionMechanism) enc_out x_lens dec_out aw_in :
  mask m = None ->
  exists k, mask (fst (forward m enc_out x_lens dec_out aw_in)) = Some k /\
            length k = length enc_out /\ rows_of (size1 enc_out) k /\
            Forall (Forall is_bit) k.
Proof.
  intros Hm. unfold forward, cached_mask. rewrite Hm.
  destruct (make_mask _ _ x_lens) as [mk err] eqn:M. cbn [fst mask set_mask].
  exists mk. split; [reflexivity|].
  destruct (make_mask_shape _ _ _ _ _ M) as [L S]. split; [exact L|]. split; [exact S|].
  pose proof (mask_rows_bits (size1 enc_out) x_lens
                (repeat (repeat 1 (size1 enc_out)) (length enc_out)) 0) as B.
  unfold make_mask in M. rewrite M in B. apply B.
  apply Forall_forall. intros r Hr. apply repeat_spec in Hr. subst r.
  apply Forall_forall. intros x Hx. apply repeat_spec in Hx. now right.
Qed.

Lemma bzip_into_length {A B C : Type} (f : A -> B -> result C)
      (xs : list A) (ys : list B) (r : list C) :
  bzip_into f xs ys = Ok r -> length r = length xs.
Proof.
  unfold bzip_into. destruct (Nat.eqb (length xs) (length ys)).
  - intros H. apply (zipM_length _ _ _ _ H).
  - destruct ys as [|y [|y' ys]]; try discriminate. apply mapM_length.
Qed.

Lemma weights_rows (m : AttentionMechanism) (T : nat) (e : xmat) :
  rows_of T e ->
  rows_of T (match dropout m with
             | Some d =>
                 dropout2x d
                   (if sigmoid_smoothing m
                    then map (map xsigmoid)
                             (map (map (fun x => xmul x (Fin (sharpening_factor m)))) e)
                    else map softmax
                             (map (map (fun x => xmul x (Fin (sharpening_factor m)))) e))
             | None =>
                 if sigmoid_smoothing m
                 then map (map xsigmoid)
                          (map (map (fun x => xmul x (Fin (sharpening_factor m)))) e)
                 else map softmax
                          (map (map (fun x => xmul x (Fin (sharpening_factor m)))) e)
             end).
Proof.
  intros Rows.
  assert (Base : forall g : xvec -> xvec, (forall r, length (g r) = length r) ->
             rows_of T (map g (map (map (fun x => xmul x (Fin (sharpening_factor m)))) e))).
  { intros g Hg. unfold rows_of in *. rewrite map_map. apply Forall_map.
    eapply Forall_impl; [|exact Rows]. intros r Hr. cbn beta.
    now rewrite Hg, length_map. }
  assert (Act : rows_of T (if sigmoid_smoothing m
                           then map (map xsigmoid)
                                    (map (map (fun x => xmul x (Fin (sharpening_factor m)))) e)
                           else map softmax
                                    (map (map (fun x => xmul x (Fin (sharpening_factor m)))) e))).
  { destruct (sigmoid_smoothing m); apply Base; intros r.
    - apply length_map.
    - unfold softmax. now rewrite !length_map. }
  destruct (dropout m) as [d|]; [|exact Act].
  unfold dropout2x. destruct (drop_active d); [|exact Act].
  unfold rows_of, imap in *. apply imap_from_Forall. intros b r Hr.
  rewrite imap_from_length. rewrite Forall_forall in Act. now apply Act.
Qed.

Lemma bzip_length_eq {A B C : Type} (f : A -> B -> result C)
      (xs : list A) (ys : list B) (r : list C) :
  bzip f xs ys = Ok r -> length xs = length ys -> length r = length xs.
Proof.
  intros H L. rewrite bzip_same_length in H by exact L.
  apply (zipM_length _ _ _ _ H).
Qed.

Lemma chunks_length (r c : nat) (flat : vec) : length (chunks r c flat) = r.
Proof.
  revert flat; induction r as [|r IH]; intros flat; cbn [chunks length]; [reflexivity|].
  now rewrite IH.
Qed.

Lemma expand_dec_length (bs T : nat) (dec_out : list vec) (dec : tensor3) :
  length dec_out = bs -> expand_dec bs T dec_out = Ok dec -> length dec = bs.
Proof.
  intros L. unfold expand_dec. rewrite (expand0_same _ _ L). cbn [bind].
  intros H. inversion H. now rewrite length_map.
Qed.

(** The energy has one row per batch element. *)
Lemma energy_length (m : AttentionMechanism) (a : tensor3) (bs T : nat)
      (dec_out : list vec) (aw_step : mat) (energy : mat) :
  length a = bs -> length dec_out = bs ->
  energy_of m a bs T dec_out aw_step = Ok energy -> length energy = bs.
Proof.
  intros La Ld. unfold energy_of.
  destruct (String.eqb (attn_type m) "add").
  { destruct (expand_dec bs T dec_out) as [dec|] eqn:D; cbn [bind]; [|discriminate].
    destruct (add3 a (LinearND (w_dec m) dec)) as [s|] eqn:S; cbn [bind]; [|discriminate].
    intros H; inversion H. unfold Tanh. rewrite !length_map.
    transitivity (length a); [|exact La].
    apply (bzip_length_eq _ _ _ _ S).
    unfold LinearND. rewrite length_map.
    transitivity bs; [exact La | symmetry; exact (expand_dec_length _ _ _ _ Ld D)]. }
  destruct (String.eqb (attn_type m) "location").
  { destruct (expand_dec bs T dec_out) as [dec|] eqn:D; cbn [bind]; [|discriminate].
    unfold view2.
    destruct (Nat.eqb (length (concat aw_step)) (bs * T)); cbn [bind]; [|discriminate].
    destruct (add3 a (LinearND (w_dec m) dec)) as [s|] eqn:S; cbn [bind]; [|discriminate].
    destruct (add3 s _) as [s'|] eqn:S'; cbn [bind]; [|discriminate].
    intros H; inversion H. unfold Tanh. rewrite !length_map.
    assert (Ls : length s = bs).
    { transitivity (length a); [|exact La].
      apply (bzip_length_eq _ _ _ _ S).
      unfold LinearND. rewrite length_map.
    transitivity bs; [exact La | symmetry; exact (expand_dec_length _ _ _ _ Ld D)]. }
    transitivity (length s); [|exact Ls].
    apply (bzip_length_eq _ _ _ _ S').
    unfold LinearND, conv_forward. rewrite !length_map, chunks_length. exact Ls. }
  destruct (String.eqb (attn_type m) "dot").
  { destruct (matmul3_t a _) as [r|] eqn:M; cbn [bind]; [|discriminate].
    intros H. unfold squeeze2 in H.
    transitivity (length r); [apply (mapM_length _ _ _ H)|].
    transitivity (length a); [|exact La].
    apply (bzip_length_eq _ _ _ _ M).
    unfold LinearND, unsqueeze1. rewrite !length_map. congruence. }
  repeat (destruct (String.eqb (attn_type m) _); [discriminate|]).
  discriminate.
Qed.

(** X9.  The shapes of the docstring: for an encoder output of shape
    [B, T, E] with [T >= 1] and one decoder vector per batch element, a
    call on a fresh module that returns gives attention weights of shape
    [B, T] and a context of shape [B, 1, E]. *)
Theorem forward_output_shapes
        (m : AttentionMechanism) enc_out x_lens dec_out aw_in m' ctx aw (E : nat) :
  enc_out_a m = None -> mask m = None ->
  rows_of (size1 enc_out) enc_out -> last_dim E enc_out -> (1 <= size1 enc_out)%nat ->
  length dec_out = length enc_out ->
  forward m enc_out x_lens dec_out aw_in = (m', Ok (ctx, aw)) ->
  (length aw = length enc_out /\ rows_of (size1 enc_out) aw) /\
  (length ctx = length enc_out /\
   Forall (fun c => exists u, c = [u] /\ length u = E) ctx).
Proof.
  intros Ha Hm Rect LD HT Ldec H.
  destruct (forward_fresh _ _ _ _ _ _ _ _ Hm H) as (mk & energy & M & FE & A).
  assert (RE : rows_of (size1 enc_out) energy).
  { unfold forward_energy, cached_enc_out_a in FE. rewrite Ha in FE.
    eapply energy_rows; [|exact FE]. now apply LinearND_rows. }
  assert (LE : length energy = length enc_out).
  { unfold forward_energy, cached_enc_out_a in FE. rewrite Ha in FE.
    eapply energy_length; [| |exact FE]; [|exact Ldec].
    unfold LinearND. apply length_map. }
  unfold attend in A.
  destruct (masked_fill energy mk) as [e|] eqn:MF; cbn [bind] in A; [|discriminate].
  assert (Re : rows_of (size1 enc_out) e).
  { unfold rows_of. eapply bzip_into_Forall; [exact MF|].
    intros en mrow erow Hen _ Hz. rewrite (bzip_into_length _ _ _ _ Hz).
    unfold rows_of in RE. rewrite Forall_forall in RE. now apply RE. }
  assert (Le : length e = length enc_out).
  { unfold masked_fill in MF.
    transitivity (length energy); [apply (bzip_into_length _ _ _ _ MF) | exact LE]. }
  pose proof (weights_rows m _ e Re) as Raw.
  match type of A with context [context_of ?w enc_out] =>
    assert (Law : length w = length enc_out);
    [|destruct (context_of w enc_out) as [c|] eqn:C; cbn [bind] in A; [|discriminate]] end.
  { destruct (dropout m) as [d|].
    - unfold dropout2x. destruct (drop_active d).
      + unfold imap. rewrite imap_from_length.
        destruct (sigmoid_smoothing m); now rewrite !length_map.
      + destruct (sigmoid_smoothing m); now rewrite !length_map.
    - destruct (sigmoid_smoothing m); now rewrite !length_map. }
  inversion A; subst ctx aw; clear A. split; [split; [exact Law | exact Raw]|].
  split.
  { unfold context_of in C.
    match type of C with bzip _ ?xs _ = _ =>
      transitivity (length xs);
      [apply (bzip_length_eq _ _ _ _ C) |]; unfold unsqueeze1; rewrite length_map;
      exact Law end. }
  unfold context_of in C. eapply bzip_Forall; [exact C|].
  intros x y z Hx Hy Hz. unfold unsqueeze1 in Hx.
  apply in_map_iff in Hx as (row & <- & _). cbn [mapM] in Hz.
  destruct (mapM (xdot row) (transpose (size1 y) y)) as [r|] eqn:D; cbn in Hz;
    [|discriminate].
  inversion Hz. exists r. split; [reflexivity|].
  rewrite (mapM_length _ _ _ D).
  unfold last_dim, rows_of in *. rewrite Forall_forall in LD, Rect.
  specialize (LD y Hy). pose proof (Rect y Hy) as Ly.
  rewrite transpose_length.
  - unfold size1. destruct y as [|u y]; [cbn in Ly; lia|]. cbn [hd].
    apply Forall_cons_iff in LD as [Lu _]. exact Lu.
  - eapply Forall_impl; [|exact LD]. intros u Hu. cbn beta.
    unfold size1. destruct y as [|u0 y]; [cbn in Ly; lia|]. cbn [hd].
    apply Forall_cons_iff in LD as [Lu _]. congruence.
Qed.

(** X10.  What [__init__] hands out: a module it returns has empty caches
    and a single head, keeps the attention type it was given, which is none
    of the three Luong types, and has attention dropout exactly when the
    dropout probability is positive; a probability above 1 raises
    ValueError, and a Luong type (with an admissible probability) raises
    NotImplementedError. *)
Theorem init_postconditions
        (ty : string) (dim : nat) (s : R) (sig : bool) (prob : R) (keep : list nat -> bool)
        (we wd wc : vec -> vec) (vv : vec -> R) (cv : Conv2d) :
  (forall m, init ty dim s sig prob keep we wd wc vv cv = Ok m ->
     enc_out_a m = None /\ mask m = None /\ nheads m = 1%nat /\
     attn_type m = ty /\ sharpening_factor m = s /\ sigmoid_smoothing m = sig /\
     ~ In ty ["luong_dot"; "luong_general"; "luong_concat"]%string /\
     (prob <= 0 -> dropout m = None) /\
     (0 < prob -> dropout m = Some (mkDropout prob true keep)))
  /\ (1 < prob -> init ty dim s sig prob keep we wd wc vv cv = Raise ValueError)
  /\ (prob <= 1 -> In ty ["luong_dot"; "luong_general"; "luong_concat"]%string ->
      init ty dim s sig prob keep we wd wc vv cv = Raise NotImplementedError).
Proof.
  unfold init, Dropout_init. split; [|split].
  - intros m H.
    destruct (Rlt_dec 0 prob) as [P|NP].
    + destruct (Rlt_dec prob 0); [lra|].
      destruct (Rlt_dec 1 prob); cbn [bind] in H; [discriminate|].
      destruct (String.eqb_spec ty "add"); [inversion H; subst; cbn;
        repeat split; try lra; intros [C|[C|[C|[]]]]; discriminate C|].
      destruct (String.eqb_spec ty "location"); [inversion H; subst; cbn;
        repeat split; try lra; intros [C|[C|[C|[]]]]; discriminate C|].
      destruct (String.eqb_spec ty "dot"); [inversion H; subst; cbn;
        repeat split; try lra; intros [C|[C|[C|[]]]]; discriminate C|].
      destruct (String.eqb_spec ty "luong_dot"); [discriminate|].
      destruct (String.eqb_spec ty "luong_general"); [discriminate|].
      destruct (String.eqb_spec ty "luong_concat"); [discriminate|].
      inversion H; subst; cbn. repeat split; try lra.
      intros [C|[C|[C|[]]]]; congruence.
    + cbn [bind] in H.
      destruct (String.eqb_spec ty "add"); [inversion H; subst; cbn;
        repeat split; try lra; intros [C|[C|[C|[]]]]; discriminate C|].
      destruct (String.eqb_spec ty "location"); [inversion H; subst; cbn;
        repeat split; try lra; intros [C|[C|[C|[]]]]; discriminate C|].
      destruct (String.eqb_spec ty "dot"); [inversion H; subst; cbn;
        repeat split; try lra; intros [C|[C|[C|[]]]]; discriminate C|].
      destruct (String.eqb_spec ty "luong_dot"); [discriminate|].
      destruct (String.eqb_spec ty "luong_general"); [discriminate|].
      destruct (String.eqb_spec ty "luong_concat"); [discriminate|].
      inversion H; subst; cbn. repeat split; try lra.
      intros [C|[C|[C|[]]]]; congruence.
  - intros P. destruct (Rlt_dec 0 prob); [|lra].
    destruct (Rlt_dec prob 0); [lra|]. destruct (Rlt_dec 1 prob); [reflexivity | lra].
  - intros P Hty.
    assert (D : exists d, (if Rlt_dec 0 prob
                           then x <- (if Rlt_dec prob 0 then Raise ValueError
                                      else if Rlt_dec 1 prob then Raise ValueError
                                           else Ok (mkDropout prob true keep)) ;;
                                Ok (Some x)
                           else Ok None) = Ok d).
    { destruct (Rlt_dec 0 prob); [|eauto].
      destruct (Rlt_dec prob 0); [lra|]. destruct (Rlt_dec 1 prob); [lra|]. cbn. eauto. }
    destruct D as [d ->]. cbn [bind].
    destruct Hty as [<-|[<-|[<-|[]]]]; reflexivity.
Qed.

End Frame.

Lemma stored_mask_is_well_formed_witness :
  exists k,
    Attention.mask (fst (Attention.forward (Examples.attn "dot" 1)
                           [[[1]; [1]; [1]]; [[1]; [1]; [1]]] [(-5)%Z] [[1]] None))
    = Some k /\
    length k = 2%nat /\ Spec.rows_of 3 k /\ Forall (Forall Spec.is_bit) k.
Proof.
  apply (stored_mask_is_well_formed
           (Examples.attn "dot" 1) [[[1]; [1]; [1]]; [[1]; [1]; [1]]] [(-5)%Z] [[1]] None).
  reflexivity.
Defined.

Lemma forward_output_shapes_witness :
  exists ctx aw,
    snd (Attention.forward (Examples.attn "add" 1) [[[1; 2]; [3; 4]]] [2%Z] [[1; 1]] None)
    = Ok (ctx, aw) /\
    (length aw = 1%nat /\ Spec.rows_of 2 aw) /\
    (length ctx = 1%nat /\ Forall (fun c => exists u, c = [u] /\ length u = 2%nat) ctx).
Proof.
  assert (E : exists ctx aw,
             Attention.forward (Examples.attn "add" 1) [[[1; 2]; [3; 4]]] [2%Z] [[1; 1]] None
             = (fst (Attention.forward (Examples.attn "add" 1)
                       [[[1; 2]; [3; 4]]] [2%Z] [[1; 1]] None),
                Ok (ctx, aw))).
  { cbn. eexists. eexists. reflexivity. }
  destruct E as (ctx & aw & E). exists ctx, aw. split; [now rewrite E|].
  eapply (forward_output_shapes
            (Examples.attn "add" 1) [[[1; 2]; [3; 4]]] [2%Z] [[1; 1]] None _ ctx aw 2
            eq_refl eq_refl); try exact E; try (repeat constructor).
Defined.

Lemma init_postconditions_witness :
  (exists m, Attention.init "dot" 1 1 false 0 (fun _ => true)
               (fun x => x) (fun x => x) (fun x => x) (fun x => hd 0 x)
               (Attention.mkConv2d [[1]] 0) = Ok m /\
             Attention.enc_out_a m = None /\ Attention.mask m = None /\
             Attention.dropout m = None)
  /\ Attention.init "luong_dot" 1 1 false 0 (fun _ => true)
       (fun x => x) (fun x => x) (fun x => x) (fun x => hd 0 x)
       (Attention.mkConv2d [[1]] 0) = Raise NotImplementedError
  /\ Attention.init "dot" 1 1 false 2 (fun _ => true)
       (fun x => x) (fun x => x) (fun x => x) (fun x => hd 0 x)
       (Attention.mkConv2d [[1]] 0) = Raise ValueError.
Proof.
  split; [|split].
  - assert (E : exists m, Attention.init "dot" 1 1 false 0 (fun _ => true)
                            (fun x => x) (fun x => x) (fun x => x) (fun x => hd 0 x)
                            (Attention.mkConv2d [[1]] 0) = Ok m).
    { unfold Attention.init. destruct (Rlt_dec 0 0); [lra|]. cbn. eauto. }
    destruct E as [m E]. exists m. split; [exact E|].
    destruct (proj1 (init_postconditions "dot" 1 1 false 0 (fun _ => true)
                       (fun x => x) (fun x => x) (fun x => x) (fun x => hd 0 x)
                       (Attention.mkConv2d [[1]] 0)) m E)
      as (H1 & H2 & _ & _ & _ & _ & _ & H8 & _).
    repeat split; try assumption. apply H8. lra.
  - apply (proj2 (proj2 (init_postconditions "luong_dot" 1 1 false 0 (fun _ => true)
                           (fun x => x) (fun x => x) (fun x => x) (fun x => hd 0 x)
                           (Attention.mkConv2d [[1]] 0)))); [lra | simpl; tauto].
  - apply (proj1 (proj2 (init_postconditions "dot" 1 1 false 2 (fun _ => true)
                           (fun x => x) (fun x => x) (fun x => x) (fun x => hd 0 x)
                           (Attention.mkConv2d [[1]] 0)))). lra.
Defined.

(** ** The location-aware attention *)

Section Location.
Import Torch Attention Spec.

Lemma chunks_concat (T : nat) (prev : mat) :
  rows_of T prev ->
  length (concat prev) = (length prev * T)%nat /\
  chunks (length prev) T (concat prev) = prev.
Proof.
  unfold rows_of. induction prev as [|r prev IH]; intros F; [split; reflexivity|].
  apply Forall_cons_iff in F as [Lr F]. destruct (IH F) as [L C].
  cbn [concat length chunks]. split.
  - rewrite length_app, L, Lr. lia.
  - rewrite firstn_app, <- Lr, firstn_all, Nat.sub_diag, firstn_0, app_nil_r.
    rewrite skipn_app, skipn_all, Nat.sub_diag, skipn_0. cbn [app].
    rewrite Lr, C. reflexivity.
Qed.

Lemma combine_map_both {A B C D : Type} (f : A -> C) (g : B -> D) (l1 : list A) (l2 : list B) :
  combine (map f l1) (map g l2) = map (fun q => (f (fst q), g (snd q))) (combine l1 l2).
Proof.
  revert l2; induction l1 as [|a l1 IH]; intros [|b l2]; cbn [map combine fst snd];
    try reflexivity.
  now rewrite IH.
Qed.

Lemma combine_diag {A : Type} (l : list A) : combine l l = map (fun x => (x, x)) l.
Proof.
  induction l as [|a l IH]; cbn [combine map]; [reflexivity|]. now rewrite IH.
Qed.

(** Transposing "one row per filter" into "one row per position". *)
Lemma transpose_by_position {A : Type} (f : A -> nat -> R) (W : list A) (l : list nat) :
  transpose (length l) (map (fun w => map (f w) l) W)
  = map (fun t => map (fun w => f w t) W) l.
Proof.
  induction W as [|w W IH]; cbn [map transpose].
  - induction l as [|t l IHl]; cbn [length repeat map]; [reflexivity|]. now rewrite IHl.
  - rewrite IH, combine_map_both, combine_diag, !map_map. reflexivity.
Qed.

Lemma conv_feat_by_position (c : Conv2d) (T : nat) (prev : mat) :
  rows_of T prev ->
  map (transpose T) (conv_forward c prev)
  = map (fun p => map (loc_feat c p) (seq 0 T)) prev.
Proof.
  unfold rows_of. intros F. unfold conv_forward. rewrite map_map.
  apply map_ext_in. intros p Hp. rewrite Forall_forall in F.
  unfold conv_row. rewrite (F p Hp).
  pose proof (transpose_by_position
                (fun w t => sumprod w (firstn (2 * conv_kernel_size c + 1)
                                             (skipn t (repeat 0 (conv_kernel_size c) ++ p ++
                                                       repeat 0 (conv_kernel_size c)))))
                (conv_weight c) (seq 0 T)) as E.
  rewrite length_seq in E. exact E.
Qed.

Lemma vadd_length (x y : vec) (A : nat) :
  length x = A -> length y = A -> length (vadd x y) = A.
Proof.
  intros Lx Ly. unfold vadd. rewrite length_map, length_combine, Lx, Ly.
  apply Nat.min_id.
Qed.

Lemma add1_same_length (x y : vec) :
  length x = length y -> add1 x y = Ok (vadd x y).
Proof.
  intros L. unfold add1, vadd. rewrite bzip_same_length by exact L.
  now apply zipM_pure.
Qed.

(** X11.  The location-aware energy.  On a module whose [enc_out_a] is
    empty, with projections into a common attention dimension, an encoder
    output of shape [B, T, E], one decoder vector per batch element and
    previous weights of shape [B, T], the energy of attn_type "location" is
    [v(tanh(w_enc(enc_out[b, t]) + w_dec(dec_out[b]) + w_conv(f[b, t])))],
    where channel [c] of [f[b, t]] correlates filter [c] with the previous
    weights [t - k .. t + k] of batch element [b], zero beyond both ends. *)
Theorem location_energy
        (m : AttentionMechanism) (enc_out : tensor3) (dec_out : list vec) (prev : mat)
        (A : nat) :
  enc_out_a m = None -> attn_type m = "location"%string ->
  rows_of (size1 enc_out) enc_out -> length dec_out = length enc_out ->
  length prev = length enc_out -> rows_of (size1 enc_out) prev ->
  (forall x, length (w_enc m x) = A) -> (forall d, length (w_dec m d) = A) ->
  (forall c, length (w_conv m c) = A) ->
  forward_energy m enc_out dec_out (Some prev)
  = Ok (energy_location_spec m enc_out dec_out prev).
Proof.
  intros Ha Ty Rect Ld Lp Rp He Hd Hc.
  unfold forward_energy, cached_enc_out_a, energy_of. rewrite Ha, Ty.
  change (String.eqb "location" "add") with false.
  change (String.eqb "location" "location") with true. cbv iota.
  set (T := size1 enc_out) in *.
  unfold expand_dec. rewrite (expand0_same _ _ Ld). cbn [bind].
  destruct (chunks_concat T prev Rp) as [Lc Cc].
  unfold view2. rewrite Lc, Lp, Nat.eqb_refl. cbn [bind].
  rewrite <- Lp, Cc.
  rewrite (conv_feat_by_position _ _ _ Rp).
  (* first sum *)
  assert (S1 : add3 (LinearND (w_enc m) enc_out)
                    (LinearND (w_dec m) (map (fun d => repeat d T) dec_out))
               = Ok (map (fun q : mat * vec =>
                            map (fun x => vadd (w_enc m x) (w_dec m (snd q))) (fst q))
                         (combine enc_out dec_out))).
  { unfold add3, LinearND.
    rewrite bzip_same_length by (now rewrite !length_map).
    rewrite !map_map, zipM_map.
    apply (zipM_total _ (fun encb d => map (fun x => vadd (w_enc m x) (w_dec m d)) encb));
      [now symmetry|].
    intros encb d Hin _. unfold rows_of in Rect. rewrite Forall_forall in Rect.
    rewrite (add2_broadcast_row _ _ _ _ _ (Rect encb Hin)).
    apply mapM_total. intros x _. apply add1_same_length. now rewrite He, Hd. }
  rewrite S1. cbn [bind].
  (* second sum *)
  assert (S2 : add3 (map (fun q : mat * vec =>
                            map (fun x => vadd (w_enc m x) (w_dec m (snd q))) (fst q))
                         (combine enc_out dec_out))
                    (LinearND (w_conv m)
                       (map (fun p => map (loc_feat (conv m) p) (seq 0 T)) prev))
               = Ok (map (fun q : (mat * vec) * vec =>
                            map (fun xt : vec * nat =>
                                   vadd (vadd (w_enc m (fst xt)) (w_dec m (snd (fst q))))
                                        (w_conv m (loc_feat (conv m) (snd q) (snd xt))))
                                (combine (fst (fst q)) (seq 0 (length (fst (fst q))))))
                         (combine (combine enc_out dec_out) prev))).
  { unfold add3, LinearND.
    rewrite bzip_same_length
      by (rewrite !length_map, length_combine, Ld, Lp; now rewrite Nat.min_id).
    rewrite !map_map, zipM_map.
    apply (zipM_total _ (fun (q : mat * vec) p =>
                           map (fun xt : vec * nat =>
                                  vadd (vadd (w_enc m (fst xt)) (w_dec m (snd q)))
                                       (w_conv m (loc_feat (conv m) p (snd xt))))
                               (combine (fst q) (seq 0 (length (fst q)))))).
    - rewrite length_combine, Ld, Lp. apply Nat.min_id.
    - intros [encb d] p Hq _. cbn [fst snd].
      apply in_combine_l in Hq. unfold rows_of in Rect. rewrite Forall_forall in Rect.
      pose proof (Rect encb Hq) as Lb. fold T in Lb. rewrite Lb.
      unfold add2. rewrite bzip_same_length by (now rewrite !length_map, length_seq).
      rewrite zipM_map, zipM_map_r.
      rewrite (zipM_total _ (fun x t => vadd (vadd (w_enc m x) (w_dec m d))
                                             (w_conv m (loc_feat (conv m) p t))));
        [reflexivity | now rewrite length_seq |].
      intros x t _ _. apply add1_same_length.
      rewrite Hc. apply vadd_length; [apply He | apply Hd]. }
  rewrite S2. cbn [bind]. f_equal. unfold energy_location_spec, Tanh.
  rewrite !map_map. apply map_ext. intros q. now rewrite !map_map.
Qed.

End Location.

Lemma location_energy_witness :
  Attention.forward_energy Examples.attn_loc [[[1]; [2]]] [[3]] (Some [[1; 0]])
  = Ok (Spec.energy_location_spec Examples.attn_loc [[[1]; [2]]] [[3]] [[1; 0]]).
Proof.
  apply (location_energy Examples.attn_loc [[[1]; [2]]] [[3]] [[1; 0]] 1);
    try reflexivity; repeat constructor.
Defined.

(** * Further properties of the positional encoding *)

Section TableEdges.
Import Torch Transformer Spec.

Lemma arange2_odd (h : nat) : arange2 (2 * h + 1) = map (fun i => (2 * i)%nat) (seq 0 (S h)).
Proof.
  unfold arange2. replace ((2 * h + 1 + 1) / 2)%nat with (S h); [reflexivity|].
  apply Nat.div_unique with (r := 0%nat); lia.
Qed.

Lemma zipM_head_raises {A B C : Type} (f : A -> B -> result C) (x : A) (y : B)
      (xs : list A) (ys : list B) (e : exn) :
  f x y = Raise e -> zipM f (x :: xs) (y :: ys) = Raise e.
Proof. intros H. cbn [zipM]. now rewrite H. Qed.

(** X12.  An odd [d_model] of 3 or more cannot be constructed with a
    positional table: the cosines have one column more than the odd
    columns of the table, and [__init__] raises RuntimeError. *)
Theorem odd_d_model_is_rejected
        (h : nat) (dropout : R) (keep : list nat -> bool)
        (pe_type : option string) (max_len : nat) :
  truthy pe_type = true -> (1 <= h)%nat -> (1 <= max_len)%nat ->
  pe_init (2 * h + 1) dropout keep pe_type max_len = Raise RuntimeError.
Proof.
  intros Ht Hh Hm. unfold pe_init. rewrite Ht.
  destruct (Nat.eqb_spec (2 * h + 1) 0) as [E|_]; [lia|]. cbv zeta.
  set (d := (2 * h + 1)%nat).
  set (dt := div_term d).
  set (position := map INR (seq 0 max_len)).
  assert (Ldt : length dt = S h).
  { unfold dt, div_term, d. now rewrite arange2_odd, !length_map, length_seq. }
  assert (S1 : assign_stride 0 (repeat (repeat 0 d) max_len)
                 (map (fun pos => map (fun w => sin (pos * w)) dt) position)
               = Ok (map (fun pos => scatter 0 (repeat 0 d)
                                       (map (fun w => sin (pos * w)) dt)) position)).
  { unfold assign_stride, bzip_into.
    rewrite repeat_length. unfold position at 1. rewrite !length_map, length_seq, Nat.eqb_refl.
    rewrite (zipM_comm _ (fun v r => assign_stride_row 0 r v)) by reflexivity.
    rewrite zipM_repeat by (unfold position; now rewrite !length_map, length_seq).
    rewrite mapM_map. apply mapM_total. intros pos _.
    unfold assign_stride_row. rewrite repeat_length, length_map, Ldt.
    replace ((d + 1 - 0) / 2)%nat with (S h); [now rewrite Nat.eqb_refl|].
    unfold d. apply Nat.div_unique with (r := 0%nat); lia. }
  rewrite S1. cbn [bind].
  assert (S2 : assign_stride 1
                 (map (fun pos => scatter 0 (repeat 0 d)
                                    (map (fun w => sin (pos * w)) dt)) position)
                 (map (fun pos => map (fun w => cos (pos * w)) dt) position)
               = Raise RuntimeError).
  { unfold assign_stride, bzip_into. rewrite !length_map, Nat.eqb_refl.
    unfold position. destruct max_len as [|n]; [lia|]. cbn [seq map].
    apply zipM_head_raises. unfold assign_stride_row.
    rewrite scatter_length, repeat_length, length_map, Ldt.
    replace ((d + 1 - 1) / 2)%nat with h
      by (unfold d; apply Nat.div_unique with (r := 1%nat); lia).
    destruct (Nat.eqb_spec (S h) h) as [C|_]; [lia|].
    destruct dt as [|a [|a' dt']]; cbn [length] in Ldt; try lia. reflexivity. }
  now rewrite S2.
Qed.

(** The table of an even [d_model], whatever the dropout probability. *)
Lemma pe_table_even (h max_len : nat) :
  (1 <= h)%nat ->
  (pe1 <- assign_stride 0 (repeat (repeat 0 (2 * h)) max_len)
            (map (fun pos => map (fun w => sin (pos * w)) (div_term (2 * h)))
                 (map INR (seq 0 max_len))) ;;
   assign_stride 1 pe1
     (map (fun pos => map (fun w => cos (pos * w)) (div_term (2 * h)))
          (map INR (seq 0 max_len))))
  = Ok (map (pe_row (2 * h)) (map INR (seq 0 max_len))).
Proof.
  intros Hh.
  pose proof (pe_init_even h 0 (fun _ => true) (Some "add"%string) max_len
                eq_refl Hh ltac:(lra)) as E.
  unfold pe_init in E. cbn [truthy negb] in E.
  change (String.eqb "add" "") with false in E. cbn [negb] in E.
  destruct (Nat.eqb_spec (2 * h) 0) as [Z|_]; [lia|]. cbv zeta in E.
  destruct (assign_stride 0 _ _) as [pe1|]; cbn [bind] in E |- *; [|discriminate].
  destruct (assign_stride 1 pe1 _) as [pe2|]; cbn [bind] in E; [|discriminate].
  destruct (Dropout_init 0 (fun _ => true)); cbn [bind] in E; [|discriminate].
  inversion E. reflexivity.
Qed.

(** X13.  The other outcomes of [__init__]: a falsy [pe_type] builds neither
    table nor dropout and so accepts every [d_model] and every dropout
    value; a truthy [pe_type] with [d_model = 0] raises ZeroDivisionError;
    with an even [d_model >= 2] and a dropout probability outside [0, 1]
    the table is built and [nn.Dropout] then raises ValueError. *)
Theorem positional_init_edges
        (d_model : nat) (dropout : R) (keep : list nat -> bool)
        (pe_type : option string) (max_len : nat) :
  (truthy pe_type = false ->
   pe_init d_model dropout keep pe_type max_len
   = Ok (mkPositionalEncoding d_model pe_type None None))
  /\ (truthy pe_type = true -> d_model = 0%nat ->
      pe_init d_model dropout keep pe_type max_len = Raise ZeroDivisionError)
  /\ (truthy pe_type = true -> Nat.Even d_model -> (2 <= d_model)%nat ->
      dropout < 0 \/ 1 < dropout ->
      pe_init d_model dropout keep pe_type max_len = Raise ValueError).
Proof.
  split; [|split].
  - intros Hf. unfold pe_init. now rewrite Hf.
  - intros Ht ->. unfold pe_init. now rewrite Ht.
  - intros Ht [h ->] Hd Hp. unfold pe_init. rewrite Ht.
    destruct (Nat.eqb_spec (2 * h) 0) as [Z|_]; [lia|]. cbv zeta.
    pose proof (pe_table_even h max_len ltac:(lia)) as E.
    destruct (assign_stride 0 _ _) as [pe1|]; cbn [bind] in E |- *; [|discriminate].
    rewrite E. cbn [bind]. unfold Dropout_init.
    destruct (Rlt_dec dropout 0); [reflexivity|].
    destruct (Rlt_dec 1 dropout); [reflexivity | lra].
Qed.

Lemma interleave_Forall (P : R -> Prop) (a b : vec) :
  Forall P a -> Forall P b -> Forall P (interleave a b).
Proof.
  revert b; induction a as [|x a IH]; intros [|y b] Fa Fb; cbn [interleave];
    try constructor.
  - now apply Forall_cons_iff in Fa.
  - apply Forall_cons_iff in Fa as [_ Fa]. apply Forall_cons_iff in Fb as [Py Fb].
    constructor; [exact Py | now apply IH].
Qed.

(** X14.  The table is bounded and starts at the origin: every entry of
    [pe] lies in [-1, 1], and the row of position 0 is 0 at the even and 1
    at the odd indices. *)
Theorem positional_table_bounded
        (d_model : nat) (dropout : R) (keep : list nat -> bool)
        (pe_type : option string) (max_len : nat) :
  truthy pe_type = true -> Nat.Even d_model -> (2 <= d_model)%nat ->
  0 <= dropout <= 1 ->
  exists m tbl,
    pe_init d_model dropout keep pe_type max_len = Ok m /\ pe m = Some [tbl] /\
    Forall (Forall (fun x => -1 <= x <= 1)) tbl /\
    ((1 <= max_len)%nat ->
     exists row0, nth_error tbl 0 = Some row0 /\
       forall i, (2 * i < d_model)%nat ->
         nth_error row0 (2 * i) = Some 0 /\ nth_error row0 (2 * i + 1) = Some 1).
Proof.
  intros Ht [h ->] Hd2 Hd.
  assert (Hh : (1 <= h)%nat) by lia.
  eexists. eexists. split; [apply (pe_init_even h dropout keep pe_type max_len Ht Hh Hd)|].
  cbn [pe]. split; [reflexivity|]. split.
  - apply Forall_map, Forall_forall. intros pos _. unfold pe_row.
    apply interleave_Forall; apply Forall_map, Forall_forall; intros w _.
    + apply SIN_bound.
    + apply COS_bound.
  - intros Hm. destruct max_len as [|n]; [lia|]. cbn [seq map nth_error].
    eexists. split; [reflexivity|]. intros i Hi. unfold pe_row.
    rewrite interleave_even, interleave_odd by (now rewrite !length_map).
    rewrite !nth_error_map, nth_error_div_term by lia. cbn [option_map INR].
    rewrite Rmult_0_l, sin_0, cos_0. auto.
Qed.

End TableEdges.

Lemma odd_d_model_is_rejected_witness :
  Transformer.pe_init 5 0 (fun _ => true) (Some "concat"%string) 4 = Raise RuntimeError.
Proof.
  apply (odd_d_model_is_rejected 2 0 (fun _ => true) (Some "concat"%string) 4).
  - reflexivity.
  - lia.
  - lia.
Defined.

Lemma positional_init_edges_witness :
  Transformer.pe_init 0 7 (fun _ => true) None 10
  = Ok (Transformer.mkPositionalEncoding 0 None None None)
  /\ Transformer.pe_init 0 0 (fun _ => true) (Some "add"%string) 10 = Raise ZeroDivisionError
  /\ Transformer.pe_init 4 2 (fun _ => true) (Some "add"%string) 10 = Raise ValueError.
Proof.
  split; [|split].
  - apply (proj1 (positional_init_edges 0 7 (fun _ => true) None 10)). reflexivity.
  - apply (proj1 (proj2 (positional_init_edges 0 0 (fun _ => true) (Some "add"%string) 10)));
      reflexivity.
  - apply (proj2 (proj2 (positional_init_edges 4 2 (fun _ => true) (Some "add"%string) 10))).
    + reflexivity.
    + exists 2%nat. reflexivity.
    + lia.
    + right. lra.
Defined.

Lemma positional_table_bounded_witness :
  exists m tbl,
    Transformer.pe_init 4 0 (fun _ => true) (Some "add"%string) 3 = Ok m /\
    Transformer.pe m = Some [tbl] /\
    Forall (Forall (fun x => -1 <= x <= 1)) tbl.
Proof.
  destruct (positional_table_bounded 4 0 (fun _ => true) (Some "add"%string) 3)
    as (m & tbl & H1 & H2 & H3 & _).
  - reflexivity.
  - exists 2%nat. reflexivity.
  - lia.
  - lra.
  - exists m, tbl. auto.
Defined.

(** * Further properties of the feed-forward network *)

Section FeedForwardShape.
Import Torch Transformer Spec.

Lemma dot_mismatch (x y : vec) : length x <> length y -> dot x y = Raise RuntimeError.
Proof.
  revert y; induction x as [|a x IH]; intros [|b y] L; cbn [length] in L;
    try reflexivity; try congruence.
  cbn [dot]. rewrite IH by lia. reflexivity.
Qed.

Lemma mapM_only {A B : Type} (f : A -> result B) (l : list A) (e : exn) :
  (forall x, In x l -> f x = Raise e \/ exists y, f x = Ok y) ->
  mapM f l = Raise e \/ exists r, mapM f l = Ok r.
Proof.
  induction l as [|a l IH]; intros H; cbn [mapM].
  - right. now exists [].
  - destruct (H a (or_introl eq_refl)) as [Ha|[y Ha]]; rewrite Ha; cbn [bind];
      [now left|].
    destruct IH as [Hl|[r Hl]]; [intros; apply H; now right| |]; rewrite Hl; cbn [bind].
    + now left.
    + right. now exists (y :: r).
Qed.

Lemma mapM_raises {A B : Type} (f : A -> result B) (l : list A) (e : exn) :
  (forall x, In x l -> f x = Raise e \/ exists y, f x = Ok y) ->
  (exists x, In x l /\ f x = Raise e) ->
  mapM f l = Raise e.
Proof.
  induction l as [|a l IH]; intros H (x & Hin & Hx); [destruct Hin|].
  cbn [mapM].
  destruct (H a (or_introl eq_refl)) as [Ha|[y Ha]]; rewrite Ha; cbn [bind];
    [reflexivity|].
  rewrite IH; [reflexivity | intros; apply H; now right |].
  destruct Hin as [->|Hin]; [congruence|]. now exists x.
Qed.

(** One row of [x @ W^T]: computed when the vector has [in_features]
    entries, a shape error otherwise. *)
Lemma matvec_cases (l : Linear) (row : vec) :
  linear_wf l -> (1 <= out_features l)%nat ->
  (length row = in_features l -> mapM (dot row) (weight l) = Ok (map (inner row) (weight l)))
  /\ (length row <> in_features l -> mapM (dot row) (weight l) = Raise RuntimeError).
Proof.
  intros (Hw & Hrows & _) Ho. rewrite Forall_forall in Hrows. split; intros L.
  - apply mapM_total. intros w Hwin. apply dot_inner. now rewrite (Hrows w Hwin).
  - destruct (weight l) as [|w W]; [cbn [length] in Hw; lia|].
    cbn [mapM]. rewrite dot_mismatch; [reflexivity|].
    rewrite (Hrows w) by now left. exact L.
Qed.

Lemma linear_rejects (l : Linear) (xs : tensor3) :
  linear_wf l -> (1 <= out_features l)%nat ->
  (exists xb x, In xb xs /\ In x xb /\ length x <> in_features l) ->
  linear l xs = Raise RuntimeError.
Proof.
  intros W Ho (xb & x & Hb & Hx & L).
  pose proof W as (Hw & Hrows & _).
  unfold linear, mm. cbv zeta.
  rewrite <- Hw, (transpose_involutive _ _ Hrows).
  assert (Row : forall m : mat,
             (forall r, In r m ->
                        mapM (dot r) (weight l) = Raise RuntimeError \/
                        exists y, mapM (dot r) (weight l) = Ok y)).
  { intros m r _. destruct (Nat.eq_dec (length r) (in_features l)) as [E|E].
    - right. eexists. apply (proj1 (matvec_cases l r W Ho) E).
    - left. apply (proj2 (matvec_cases l r W Ho) E). }
  rewrite (mapM_raises _ xs RuntimeError); [reflexivity| |].
  - intros m _. apply mapM_only, Row.
  - exists xb. split; [exact Hb|]. apply mapM_raises; [apply Row|].
    exists x. split; [exact Hx|]. apply (proj2 (matvec_cases l x W Ho) L).
Qed.

(** X15.  An input whose vectors do not all have [d_model] entries is
    rejected: [PositionwiseFeedForward.forward] raises RuntimeError as soon
    as one vector of the input has a length other than the input size of
    [w_1]. *)
Theorem feed_forward_rejects_wrong_width (f : PositionwiseFeedForward) (xs : tensor3) :
  linear_wf (w_1 f) -> (1 <= out_features (w_1 f))%nat ->
  (exists xb x, In xb xs /\ In x xb /\ length x <> in_features (w_1 f)) ->
  ff_forward f xs = Raise RuntimeError.
Proof.
  intros W Ho Bad. unfold ff_forward. now rewrite (linear_rejects _ _ W Ho Bad).
Qed.

Lemma ff_closed_form (f : PositionwiseFeedForward) (xs : tensor3) :
  linear_wf (w_1 f) -> linear_wf (w_2 f) ->
  in_features (w_2 f) = out_features (w_1 f) ->
  last_dim (in_features (w_1 f)) xs ->
  ff_forward f xs
  = Ok (map (map (affine (w_2 f)))
            (dropout3 (ff_dropout f)
                      (map (map (map relu)) (map (map (affine (w_1 f))) xs)))).
Proof.
  intros W1 W2 Hdim Hx. unfold ff_forward.
  rewrite (linear_positionwise _ _ W1 Hx). cbn [bind].
  apply linear_positionwise; [exact W2 | rewrite Hdim; now apply hidden_shape].
Qed.

Lemma imap_from_nth_length {A B : Type} (g : nat -> list A -> list B)
      (l : list (list A)) (i b : nat) :
  (forall k x, length (g k x) = length x) ->
  length (nth b (imap_from i g l) []) = length (nth b l []).
Proof.
  intros H. revert i b.
  induction l as [|m l IH]; intros i [|b]; cbn [imap_from nth]; try reflexivity.
  - apply H.
  - apply IH.
Qed.

Lemma dropout3_shape (d : Dropout) (t : tensor3) :
  length (dropout3 d t) = length t /\
  forall b, length (nth b (dropout3 d t) []) = length (nth b t []).
Proof.
  unfold dropout3. destruct (drop_active d); [|auto].
  unfold imap. split; [apply imap_from_length|].
  intros b. apply imap_from_nth_length. intros k x. apply imap_from_length.
Qed.

(** X16.  The feed-forward network keeps the shape of its input: on
    [B, T, d_model] it returns a tensor with the same [B], the same number
    of positions in every batch element, and vectors of the output size of
    [w_2]. *)
Theorem feed_forward_output_shape (f : PositionwiseFeedForward) (xs : tensor3) :
  linear_wf (w_1 f) -> linear_wf (w_2 f) ->
  in_features (w_2 f) = out_features (w_1 f) ->
  last_dim (in_features (w_1 f)) xs ->
  exists out, ff_forward f xs = Ok out /\
    length out = length xs /\
    (forall b, length (nth b out []) = length (nth b xs [])) /\
    last_dim (out_features (w_2 f)) out.
Proof.
  intros W1 W2 Hdim Hx. eexists. split; [apply (ff_closed_form f xs W1 W2 Hdim Hx)|].
  set (hid := map (map (map relu)) (map (map (affine (w_1 f))) xs)).
  destruct (dropout3_shape (ff_dropout f) hid) as [L1 L2].
  assert (Hn : forall (g : vec -> vec) (t : tensor3) b,
             length (nth b (map (map g) t) []) = length (nth b t [])).
  { intros g t b. change (@nil vec) with (map g []) at 1.
    now rewrite map_nth, length_map. }
  split; [|split].
  - rewrite length_map. etransitivity; [exact L1|]. unfold hid. now rewrite !length_map.
  - intros b. rewrite Hn. etransitivity; [exact (L2 b)|]. unfold hid.
    etransitivity; [exact (Hn (map relu) _ b)|]. exact (Hn _ xs b).
  - unfold last_dim. apply Forall_map, Forall_forall. intros m _.
    apply Forall_map, Forall_forall. intros x _. now apply affine_length.
Qed.

End FeedForwardShape.

Lemma feed_forward_rejects_wrong_width_witness :
  Transformer.ff_forward Examples.ffn [[[1]; [1; 2]]] = Raise RuntimeError.
Proof.
  apply feed_forward_rejects_wrong_width.
  - repeat split; repeat constructor.
  - apply le_n.
  - exists [[1]; [1; 2]], [1; 2]. split; [now left|]. split; [right; now left|].
    cbn. discriminate.
Defined.

Lemma feed_forward_output_shape_witness :
  exists out, Transformer.ff_forward Examples.ffn [[[1]; [-1]]; [[0]; [2]]] = Ok out /\
    length out = 2%nat /\
    (forall b, length (nth b out []) = length (nth b [[[1]; [-1]]; [[0]; [2]]] [])) /\
    Spec.last_dim 1 out.
Proof.
  apply (feed_forward_output_shape Examples.ffn [[[1]; [-1]]; [[0]; [2]]]).
  - repeat split; repeat constructor.
  - repeat split; repeat constructor.
  - reflexivity.
  - repeat constructor.
Defined.

(** * The attention masks of the transformer blocks *)

Section BlockMasks.
Import Torch Transformer Spec.

Lemma entry2_repeat {A : Type} (r : list A) (n i j : nat) :
  (i < n)%nat -> entry2 (repeat r n) i j = nth_error r j.
Proof. intros H. unfold entry2. now rewrite nth_error_repeat. Qed.

Lemma entry3_repeat {A : Type} (m : list (list A)) (n h i j : nat) :
  (h < n)%nat -> entry3 (repeat m n) h i j = entry2 m i j.
Proof. intros H. unfold entry3. now rewrite nth_error_repeat. Qed.

Lemma make_xx_mask_key_only (n_heads bs xmax : nat) (pad : bmask2) (m : bmask4) :
  make_xx_mask n_heads bs xmax pad = Ok m -> key_only m.
Proof.
  unfold make_xx_mask, expand_rows. intros H.
  destruct (expand0 bs pad) as [r0|]; cbn [bind] in H; [|discriminate].
  destruct (mapM _ r0) as [xx|] eqn:M; cbn [bind] in H; [|discriminate].
  inversion H; subst m; clear H.
  intros b h h' i i' j x x' H1 H2. unfold entry4, expand_heads in H1, H2.
  rewrite nth_error_map in H1, H2. unfold bmask3, bmask2 in *.
  destruct (nth_error xx b) as [xb|] eqn:Hb; cbn [option_map] in H1, H2; [|discriminate].
  destruct (mapM_nth _ _ _ _ _ M Hb) as (row & _ & Hrow).
  destruct (expand0 xmax row) as [row'|]; cbn [bind] in Hrow; [|discriminate].
  inversion Hrow; subst xb; clear Hrow.
  unfold entry3, entry2 in H1, H2.
  destruct (nth_error (repeat (repeat row' xmax) n_heads) h) as [mh|] eqn:Hh;
    [|discriminate].
  destruct (nth_error (repeat (repeat row' xmax) n_heads) h') as [mh'|] eqn:Hh';
    [|discriminate].
  apply nth_error_repeat_inv in Hh, Hh'. subst mh mh'.
  destruct (nth_error (repeat row' xmax) i) as [r|] eqn:Hi; [|discriminate].
  destruct (nth_error (repeat row' xmax) i') as [r'|] eqn:Hi'; [|discriminate].
  apply nth_error_repeat_inv in Hi, Hi'. subst r r'.
  congruence.
Qed.

Variable MHA : Type.
Variable AW : Type.
Variable mha_reset : MHA -> MHA.
Variable make_pad_mask : list Z -> bmask2.

(** X17.  The mask of the encoder block hides keys, not queries: every mask
    that [TransformerEncoderBlock.forward] builds is the same for all heads
    and all query positions; for a padding mask with one row of [xmax]
    entries per batch element its entry at [b, h, i, j] is the padding bit
    of position [j] of sequence [b]; and the outcome of [forward] is the
    same with any two attention implementations that agree on such
    masks. *)
Theorem encoder_mask_hides_keys_only :
  (forall n_heads bs xmax pad m,
      make_xx_mask n_heads bs xmax pad = Ok m -> key_only m)
  /\ (forall n_heads bs xmax pad,
         length pad = bs -> rows_of xmax pad ->
         exists m, make_xx_mask n_heads bs xmax pad = Ok m /\
           forall b h i j, (h < n_heads)%nat -> (i < xmax)%nat ->
                           entry4 m b h i j = entry2 pad b j)
  /\ (forall (call1 call2 : MHA -> tensor3 -> tensor3 -> tensor3 -> bmask4 ->
                             MHA * result (tensor3 * AW))
             (blk : TransformerEncoderBlock MHA) xs xlens cache,
         (forall st k v q m, key_only m -> call1 st k v q m = call2 st k v q m) ->
         encoder_forward MHA AW mha_reset call1 make_pad_mask blk xs xlens cache
         = encoder_forward MHA AW mha_reset call2 make_pad_mask blk xs xlens cache).
Proof.
  split; [|split].
  - exact make_xx_mask_key_only.
  - intros n_heads bs xmax pad L F. unfold make_xx_mask.
    rewrite (expand_rows_ok _ _ _ _ L F). cbn [bind]. eexists. split; [reflexivity|].
    intros b h i j Hh Hi. unfold entry4, expand_heads.
    rewrite !nth_error_map. unfold entry2. unfold bmask3, bmask2 in *.
    destruct (nth_error pad b) as [r|]; cbn [option_map]; [|reflexivity].
    etransitivity; [apply (entry3_repeat _ n_heads h i j Hh)|]. now apply entry2_repeat.
  - intros call1 call2 blk xs xlens cache H. unfold encoder_forward.
    destruct (make_xx_mask _ _ _ _) as [mask|e] eqn:M; [|reflexivity].
    cbv zeta. rewrite (H _ _ _ _ mask (make_xx_mask_key_only _ _ _ _ _ M)).
    reflexivity.
Qed.

Lemma expand_cols_ok (bs rows cols : nat) (pad : bmask2) :
  length pad = bs -> Forall (fun r => length r = rows) pad ->
  expand_cols bs rows cols pad = Ok (map (map (fun x => repeat x cols)) pad).
Proof.
  intros L F. unfold expand_cols, expand0.
  rewrite L, Nat.eqb_refl. cbn [bind].
  apply mapM_total. intros r Hr.
  rewrite Forall_forall in F. rewrite (F r Hr), Nat.eqb_refl. reflexivity.
Qed.

Lemma zip3_same_shape (f : byte -> byte -> byte) (a b : bmask3) (rows cols : nat) :
  length a = length b ->
  Forall (fun m => length m = rows /\ Forall (fun r => length r = cols) m) a ->
  Forall (fun m => length m = rows /\ Forall (fun r => length r = cols) m) b ->
  zip3 f a b
  = Ok (map (fun q => map (fun q' => map (fun c => f (fst c) (snd c))
                                        (combine (fst q') (snd q')))
                          (combine (fst q) (snd q)))
            (combine a b)).
Proof.
  intros L Fa Fb. unfold zip3. rewrite Forall_forall in Fa, Fb.
  apply (zipM_total _ (fun x y : bmask2 =>
                         map (fun q' => map (fun c => f (fst c) (snd c))
                                            (combine (fst q') (snd q')))
                             (combine x y))); [exact L|].
  intros x y Hx Hy.
  destruct (Fa x Hx) as [Lx Rx]. destruct (Fb y Hy) as [Ly Ry].
  rewrite Forall_forall in Rx, Ry.
  apply (zipM_total _ (fun r s : list byte =>
                         map (fun c => f (fst c) (snd c)) (combine r s)));
    [congruence|].
  intros r s Hr Hs.
  apply (zipM_pure f). now rewrite (Rx r Hr), (Ry s Hs).
Qed.

Lemma nth_error_combine {A B : Type} (l : list A) (l' : list B) (i : nat) (x : A) (y : B) :
  nth_error l i = Some x -> nth_error l' i = Some y ->
  nth_error (combine l l') i = Some (x, y).
Proof.
  revert l' i; induction l as [|a l IH]; intros [|b l'] [|i] Hx Hy;
    cbn [nth_error combine] in *; try discriminate.
  - congruence.
  - now apply IH.
Qed.

(** X18.  The source-target mask of the decoder block is the product of the
    two padding masks: for padding masks with one row per batch element,
    [xmax] and [ymax] entries long, the mask is built and its entry at
    [b, h, i, j] is [xpad[b][j] * ypad[b][i]] in uint8; it is 0 as soon as
    the source position [j] or the target position [i] is padding. *)
Theorem source_target_mask_is_product
        (n_heads bs ymax xmax : nat) (xpad ypad : bmask2) :
  length xpad = bs -> rows_of xmax xpad ->
  length ypad = bs -> rows_of ymax ypad ->
  exists m, make_xy_mask n_heads bs ymax xmax xpad ypad = Ok m /\
    forall b h i j x y,
      (h < n_heads)%nat ->
      entry2 xpad b j = Some x -> entry2 ypad b i = Some y ->
      entry4 m b h i j = Some ((x * y) mod 256)%Z /\
      (x = 0%Z \/ y = 0%Z -> entry4 m b h i j = Some 0%Z).
Proof.
  intros Lx Fx Ly Fy. unfold make_xy_mask.
  rewrite (expand_rows_ok _ _ _ _ Lx Fx), (expand_cols_ok _ _ _ _ Ly Fy). cbn [bind].
  rewrite (zip3_same_shape _ _ _ ymax xmax).
  - cbn [bind]. eexists. split; [reflexivity|].
    intros b h i j x y Hh Hx Hy.
    assert (E : entry4 (expand_heads n_heads
                  (map (fun q => map (fun q' => map (fun c => bmul (fst c) (snd c))
                                                   (combine (fst q') (snd q')))
                                     (combine (fst q) (snd q)))
                       (combine (map (fun r => repeat r ymax) xpad)
                                (map (map (fun x => repeat x xmax)) ypad))))
                  b h i j = Some ((x * y) mod 256)%Z).
    { unfold entry2 in Hx, Hy.
      destruct (nth_error xpad b) as [rx|] eqn:Ex; [|discriminate].
      destruct (nth_error ypad b) as [ry|] eqn:Ey; [|discriminate].
      unfold rows_of in Fx, Fy. rewrite Forall_forall in Fx, Fy.
      assert (Lrx : length rx = xmax) by (apply Fx; eapply nth_error_In; eauto).
      assert (Lry : length ry = ymax) by (apply Fy; eapply nth_error_In; eauto).
      assert (Hi : (i < ymax)%nat)
        by (rewrite <- Lry; apply nth_error_Some; congruence).
      assert (Hj : (j < xmax)%nat)
        by (rewrite <- Lrx; apply nth_error_Some; congruence).
      unfold entry4, expand_heads. rewrite !nth_error_map.
      rewrite (nth_error_combine _ _ b (repeat rx ymax) (map (fun x => repeat x xmax) ry))
        by (rewrite nth_error_map; (rewrite Ex || rewrite Ey); reflexivity).
      cbn [option_map fst snd].
      etransitivity; [apply (entry3_repeat _ n_heads h i j Hh)|].
      unfold entry2. rewrite nth_error_map.
      rewrite (nth_error_combine _ _ i rx (repeat y xmax));
        [|now apply nth_error_repeat | rewrite nth_error_map, Hy; reflexivity].
      cbn [option_map fst snd]. rewrite nth_error_map.
      rewrite (nth_error_combine _ _ j x y); [reflexivity | exact Hx |].
      now apply nth_error_repeat. }
    split; [exact E|].
    intros [->| ->]; (etransitivity; [exact E|]); f_equal; try reflexivity.
    now rewrite Z.mul_0_r.
  - now rewrite !length_map, Lx, Ly.
  - apply Forall_map, Forall_forall. intros r Hr. split; [apply repeat_length|].
    apply Forall_forall. intros r' Hr'. apply repeat_spec in Hr'. subst r'.
    unfold rows_of in Fx. rewrite Forall_forall in Fx. now apply Fx.
  - apply Forall_map, Forall_forall. intros r Hr. split.
    + rewrite length_map. unfold rows_of in Fy. rewrite Forall_forall in Fy. now apply Fy.
    + apply Forall_map, Forall_forall. intros x _. apply repeat_length.
Qed.

Lemma nth_error_tril (n i j : nat) :
  (i < n)%nat -> (j < n)%nat ->
  entry2 (tril_ones n) i j = Some (if (j <=? i)%nat then 1%Z else 0%Z).
Proof.
  intros Hi Hj. unfold entry2, tril_ones.
  rewrite nth_error_map, nth_error_seq.
  destruct (Nat.ltb_spec i n); [|lia]. cbn [option_map].
  rewrite nth_error_map, nth_error_seq.
  destruct (Nat.ltb_spec j n); [|lia]. reflexivity.
Qed.

(** X19.  The self-attention mask of the decoder block, entry by entry: for
    a padding mask with one row of [ymax] entries per batch element, the
    entry at [b, h, i, j] is the padding bit of position [j] (its lowest
    bit) when [j <= i], and 0 when [j > i]. *)
Theorem decoder_mask_entries (n_heads bs ymax : nat) (pad : bmask2) :
  length pad = bs -> rows_of ymax pad ->
  exists m, make_yy_mask n_heads bs ymax pad = Ok m /\
    forall b h i j x,
      (h < n_heads)%nat -> (i < ymax)%nat -> entry2 pad b j = Some x ->
      entry4 m b h i j = Some (if (j <=? i)%nat then Z.land x 1 else 0%Z).
Proof.
  intros L F. destruct (make_yy_mask_ok n_heads bs ymax pad L F) as [m Hm].
  exists m. split; [exact Hm|].
  intros b h i j x Hh Hi Hx.
  unfold make_yy_mask in Hm. rewrite (expand_rows_ok _ _ _ _ L F) in Hm.
  cbn [bind] in Hm. unfold zip4, expand_heads in Hm.
  unfold entry2 in Hx. destruct (nth_error pad b) as [r|] eqn:Eb; [|discriminate].
  assert (Hb : (b < bs)%nat) by (rewrite <- L; apply nth_error_Some; congruence).
  assert (Lr : length r = ymax)
    by (unfold rows_of in F; rewrite Forall_forall in F; apply F;
        eapply nth_error_In; eauto).
  assert (Hj : (j < ymax)%nat) by (rewrite <- Lr; apply nth_error_Some; congruence).
  destruct (zipM_nth_fwd _ _ _ _ b (repeat (repeat r ymax) n_heads)
                         (repeat (tril_ones ymax) n_heads) Hm)
    as (mb & Mb & Zb);
    [rewrite !nth_error_map, Eb; reflexivity | now apply nth_error_repeat |].
  destruct (zipM_nth_fwd _ _ _ _ h (repeat r ymax) (tril_ones ymax) Zb)
    as (mh & Mh & Zh); [now apply nth_error_repeat | now apply nth_error_repeat |].
  pose proof (nth_error_tril ymax i j Hi Hj) as T. unfold entry2 in T.
  destruct (nth_error (tril_ones ymax) i) as [ti|] eqn:Ti; [|discriminate].
  destruct (zipM_nth_fwd _ _ _ _ i r ti Zh) as (mi & Mi & Zi);
    [now apply nth_error_repeat | exact Ti |].
  destruct (zipM_nth_fwd _ _ _ _ j x _ Zi Hx T) as (z & Mj & Zj).
  unfold entry4, entry3, entry2. unfold bmask4, bmask3, bmask2 in *.
  rewrite Mb, Mh, Mi, Mj.
  inversion Zj. unfold band.
  destruct (j <=? i)%nat; [reflexivity | now rewrite Z.land_0_r].
Qed.

End BlockMasks.

Lemma encoder_mask_hides_keys_only_witness :
  exists m, Transformer.make_xx_mask 2 1 2 [[1%Z; 0%Z]] = Ok m /\ Spec.key_only m.
Proof.
  destruct (encoder_mask_hides_keys_only unit unit (fun u => u) (fun _ => [[1%Z]]))
    as (H1 & H2 & _).
  destruct (H2 2%nat 1%nat 2%nat [[1%Z; 0%Z]]) as (m & Hm & _).
  - reflexivity.
  - repeat constructor.
  - exists m. split; [exact Hm|]. exact (H1 _ _ _ _ _ Hm).
Defined.

Lemma source_target_mask_is_product_witness :
  exists m, Transformer.make_xy_mask 2 1 2 3 [[1%Z; 1%Z; 0%Z]] [[1%Z; 0%Z]] = Ok m /\
    Spec.entry4 m 0 1 0 1 = Some 1%Z /\ Spec.entry4 m 0 1 1 1 = Some 0%Z.
Proof.
  destruct (source_target_mask_is_product 2 1 2 3 [[1%Z; 1%Z; 0%Z]] [[1%Z; 0%Z]])
    as (m & Hm & E); try reflexivity; try (repeat constructor).
  exists m. split; [exact Hm|]. split.
  - exact (proj1 (E 0%nat 1%nat 0%nat 1%nat 1%Z 1%Z (le_n 2) eq_refl eq_refl)).
  - exact (proj2 (E 0%nat 1%nat 1%nat 1%nat 1%Z 0%Z (le_n 2) eq_refl eq_refl)
                 (or_intror eq_refl)).
Defined.

Lemma decoder_mask_entries_witness :
  exists m, Transformer.make_yy_mask 1 1 2 [[1%Z; 1%Z]] = Ok m /\
    Spec.entry4 m 0 0 0 1 = Some 0%Z /\ Spec.entry4 m 0 0 1 1 = Some 1%Z.
Proof.
  destruct (decoder_mask_entries 1 1 2 [[1%Z; 1%Z]]) as (m & Hm & E);
    try reflexivity; try (repeat constructor).
  exists m. split; [exact Hm|]. split.
  - apply (E 0%nat 0%nat 0%nat 1%nat 1%Z); [lia | lia | reflexivity].
  - apply (E 0%nat 0%nat 1%nat 1%nat 1%Z); [lia | lia | reflexivity].
Defined.

(** * The decoder block *)

Section Decoder.
Import Torch Transformer Spec.

Variable MHA : Type.
Variable AW : Type.
Variable mha_reset : MHA -> MHA.
Variable mha_call : MHA -> tensor3 -> tensor3 -> tensor3 -> bmask4 -> MHA * result (tensor3 * AW).
Variable make_pad_mask : list Z -> bmask2.

Lemma decoder_tail_residual (blk : TransformerDecoderBlock MHA) (r : tensor3)
      (yy_aw : AW) (xy_aw : option AW) :
  p (dec_dropout3 MHA blk) = 0 ->
  decoder_tail MHA AW blk r yy_aw xy_aw
  = (y <- (h <- ff_forward (dec_feed_forward MHA blk) (dec_norm3 MHA blk r) ;; add3 r h) ;;
     Ok (y, yy_aw, xy_aw)).
Proof.
  intros H. unfold decoder_tail.
  destruct (ff_forward _ _) as [h|e]; cbn [bind]; [|reflexivity].
  now rewrite (dropout3_zero _ _ H), (add3_comm h r).
Qed.

(** X20.  With dropout probabilities 0, [TransformerDecoderBlock.forward]
    is three residual sub-layers on normalised inputs:
    [r1 = ys + self_attn(norm1(ys), norm1(ys), norm1(ys), yy_mask)],
    [r2 = r1 + src_attn(key=xs, value=xs, query=norm2(r1), xy_mask)] when
    the block attends to the encoder and [r2 = r1] otherwise, and the
    result [r2 + feed_forward(norm3(r2))]; the self-attention module is
    reset before its call, and so is the source attention.  The module
    after the call and every exception are the same on both sides. *)
Theorem decoder_block_prenorm_residual
        (blk : TransformerDecoderBlock MHA) (ys : tensor3) (ylens : list Z)
        (xs : option tensor3) (xlens : list Z) :
  p (dec_dropout1 MHA blk) = 0 ->
  (forall d, dec_dropout2 MHA blk = Some d -> p d = 0) ->
  p (dec_dropout3 MHA blk) = 0 ->
  decoder_forward MHA AW mha_reset mha_call make_pad_mask blk ys ylens xs xlens
  = decoder_spec MHA AW mha_reset mha_call make_pad_mask blk ys ylens xs xlens.
Proof.
  intros H1 H2 H3. unfold decoder_forward, decoder_spec.
  destruct (make_yy_mask _ _ _ _) as [yy|e]; [|reflexivity].
  destruct (String.eqb _ _); [reflexivity|]. cbv zeta.
  destruct (mha_call _ _ _ _ yy) as [sa1 a1].
  destruct a1 as [[att aw]|e]; cbn [bind fst snd]; [|reflexivity].
  rewrite (dropout3_zero _ _ H1), (add3_comm att ys).
  destruct (add3 ys att) as [r1|e]; cbn [bind]; [|reflexivity].
  unfold decoder_src.
  cbn [src_attention dec_set_self_attn dec_n_heads src_attn dec_norm2 dec_dropout2].
  destruct (src_attention MHA blk).
  - destruct xs as [x|]; [|reflexivity].
    destruct (make_xy_mask _ _ _ _ _ _) as [xy|e]; [|reflexivity].
    destruct (src_attn MHA blk) as [sa|]; [|reflexivity].
    destruct (dec_norm2 MHA blk) as [norm2|]; [|reflexivity].
    destruct (dec_dropout2 MHA blk) as [d2|] eqn:D2; [|reflexivity].
    cbv zeta. destruct (mha_call _ _ _ _ xy) as [sa2 a2]. f_equal.
    destruct a2 as [[att2 aw2]|e]; cbn [bind fst snd]; [|reflexivity].
    rewrite (dropout3_zero _ _ (H2 d2 eq_refl)), (add3_comm att2 r1).
    destruct (add3 r1 att2) as [r2|e]; cbn [bind]; [|reflexivity].
    now rewrite decoder_tail_residual by exact H3.
  - f_equal. now rewrite decoder_tail_residual by exact H3.
Qed.

(** X21.  A block created with [src_attention=False] ignores the encoder:
    the outcome of [forward] does not depend on [xs] and [xlens], the
    returned [xy_aw] is [None], and the place of the source-attention
    module is left as it was. *)
Theorem decoder_without_source_attention
        (blk : TransformerDecoderBlock MHA) (ys : tensor3) (ylens : list Z)
        (xs xs' : option tensor3) (xlens xlens' : list Z) :
  src_attention MHA blk = false ->
  decoder_forward MHA AW mha_reset mha_call make_pad_mask blk ys ylens xs xlens
  = decoder_forward MHA AW mha_reset mha_call make_pad_mask blk ys ylens xs' xlens'
  /\ src_attn MHA (fst (decoder_forward MHA AW mha_reset mha_call make_pad_mask
                                        blk ys ylens xs xlens))
     = src_attn MHA blk
  /\ forall out yy_aw xy_aw,
      snd (decoder_forward MHA AW mha_reset mha_call make_pad_mask blk ys ylens xs xlens)
      = Ok (out, yy_aw, xy_aw) ->
      xy_aw = None.
Proof.
  intros Hs. unfold decoder_forward.
  destruct (make_yy_mask _ _ _ _) as [yy|e];
    [|split; [reflexivity | split; [reflexivity | discriminate]]].
  destruct (String.eqb _ _);
    [split; [reflexivity | split; [reflexivity | discriminate]]|].
  cbv zeta. destruct (mha_call _ _ _ _ yy) as [sa1 a1].
  destruct (out <- a1 ;; _) as [[r1 aw]|e];
    [|split; [reflexivity | split; [reflexivity | discriminate]]].
  unfold decoder_src. cbn [src_attention dec_set_self_attn]. rewrite Hs.
  split; [reflexivity | split; [reflexivity|]].
  intros out yy_aw xy_aw. cbn [snd]. unfold decoder_tail.
  destruct (ff_forward _ _) as [h|e]; cbn [bind]; [|discriminate].
  destruct (add3 _ r1) as [y|e]; cbn [bind]; [|discriminate].
  congruence.
Qed.

(** X22.  A block that attends to the encoder cannot be called without
    encoder outputs: with [xs=None] the call never returns a result, and
    when the self-attention sub-layer succeeds the exception is
    AttributeError, raised after the self-attention module has been reset
    and called, whose new state the block keeps. *)
Theorem missing_encoder_outputs
        (blk : TransformerDecoderBlock MHA) (ys : tensor3) (ylens xlens : list Z) :
  src_attention MHA blk = true ->
  (forall r, snd (decoder_forward MHA AW mha_reset mha_call make_pad_mask
                                  blk ys ylens None xlens) <> Ok r)
  /\ (forall yy sa1 a aw r1,
         make_yy_mask (dec_n_heads MHA blk) (length ys) (size1 ys) (make_pad_mask ylens)
         = Ok yy ->
         dec_attn_type MHA blk <> "average"%string ->
         mha_call (mha_reset (dec_self_attn MHA blk)) (dec_norm1 MHA blk ys)
                  (dec_norm1 MHA blk ys) (dec_norm1 MHA blk ys) yy = (sa1, Ok (a, aw)) ->
         add3 (dropout3 (dec_dropout1 MHA blk) a) ys = Ok r1 ->
         decoder_forward MHA AW mha_reset mha_call make_pad_mask blk ys ylens None xlens
         = (dec_set_self_attn MHA blk sa1, Raise AttributeError)).
Proof.
  intros Hs. split.
  - intros r. unfold decoder_forward.
    destruct (make_yy_mask _ _ _ _) as [yy|e]; [|discriminate].
    destruct (String.eqb _ _); [discriminate|].
    cbv zeta. destruct (mha_call _ _ _ _ yy) as [sa1 a1].
    destruct (out <- a1 ;; _) as [[r1 aw]|e]; [|discriminate].
    unfold decoder_src. cbn [src_attention dec_set_self_attn]. rewrite Hs.
    discriminate.
  - intros yy sa1 a aw r1 Hm Ht Hc Ha. unfold decoder_forward. rewrite Hm.
    destruct (String.eqb_spec (dec_attn_type MHA blk) "average") as [E|_];
      [contradiction|].
    cbv zeta. rewrite Hc. cbn [bind]. rewrite Ha. cbn [bind].
    unfold decoder_src. cbn [src_attention dec_set_self_attn]. now rewrite Hs.
Qed.

Ltac unchanged :=
  cbn [fst]; split; [exact (fun W => W) | repeat split].

(** X23.  What [__init__] establishes, [forward] keeps: a block that
    [__init__] returns has an attention type other than "average" and has
    the source-attention layers exactly when [src_attention] is set; a
    call of [forward], whatever its outcome, preserves this and changes
    nothing of the block but the state of its attention modules. *)
Theorem decoder_invariant :
  (forall attn_type n_heads src self_attn norm1 dropout1 src_attn0 norm2 dropout2
          feed_forward norm3 dropout3 blk,
      decoder_init MHA attn_type n_heads src self_attn norm1 dropout1
                   src_attn0 norm2 dropout2 feed_forward norm3 dropout3 = Ok blk ->
      decoder_wf MHA blk)
  /\ (forall blk ys ylens xs xlens,
         let blk' := fst (decoder_forward MHA AW mha_reset mha_call make_pad_mask
                                          blk ys ylens xs xlens) in
         (decoder_wf MHA blk -> decoder_wf MHA blk')
         /\ dec_attn_type MHA blk' = dec_attn_type MHA blk
         /\ dec_n_heads MHA blk' = dec_n_heads MHA blk
         /\ src_attention MHA blk' = src_attention MHA blk
         /\ dec_norm1 MHA blk' = dec_norm1 MHA blk
         /\ dec_dropout1 MHA blk' = dec_dropout1 MHA blk
         /\ dec_norm2 MHA blk' = dec_norm2 MHA blk
         /\ dec_dropout2 MHA blk' = dec_dropout2 MHA blk
         /\ dec_feed_forward MHA blk' = dec_feed_forward MHA blk
         /\ dec_norm3 MHA blk' = dec_norm3 MHA blk
         /\ dec_dropout3 MHA blk' = dec_dropout3 MHA blk).
Proof.
  split.
  - intros attn_type n_heads src self_attn norm1 dropout1 src_attn0 norm2 dropout2
           feed_forward norm3 dropout3 blk. unfold decoder_init.
    destruct (String.eqb_spec attn_type "average") as [E|E]; [discriminate|].
    intros H. inversion H; subst blk; clear H. unfold decoder_wf.
    cbn [dec_attn_type src_attention src_attn dec_norm2 dec_dropout2].
    split; [exact E|]. destruct src; repeat split; discriminate.
  - intros blk ys ylens xs xlens blk'. subst blk'. unfold decoder_forward.
    destruct (make_yy_mask _ _ _ _) as [yy|e]; [|now unchanged].
    destruct (String.eqb _ _); [now unchanged|].
    cbv zeta. destruct (mha_call _ _ _ _ yy) as [sa1 a1].
    destruct (out <- a1 ;; _) as [[r1 aw]|e]; [|now unchanged].
    unfold decoder_src. cbn [src_attention dec_set_self_attn dec_n_heads src_attn
                              dec_norm2 dec_dropout2].
    destruct (src_attention MHA blk) eqn:Hs; [|now unchanged].
    destruct xs as [x|]; [|now unchanged].
    destruct (make_xy_mask _ _ _ _ _ _) as [xy|e]; [|now unchanged].
    destruct (src_attn MHA blk) as [sa|] eqn:Sa; [|now unchanged].
    destruct (dec_norm2 MHA blk) as [norm2|] eqn:N2; [|now unchanged].
    destruct (dec_dropout2 MHA blk) as [d2|] eqn:D2; [|now unchanged].
    cbv zeta. destruct (mha_call _ _ _ _ xy) as [sa2 a2]. cbn [fst].
    split; [|cbn; repeat split; auto].
    intros [Ht W]. unfold decoder_wf in *.
    cbn [dec_attn_type src_attention src_attn dec_norm2 dec_dropout2
         dec_set_src_attn dec_set_self_attn].
    split; [exact Ht|]. rewrite Hs in *. rewrite N2, D2.
    repeat split; discriminate.
Qed.

End Decoder.

Lemma decoder_block_prenorm_residual_witness :
  Transformer.decoder_forward unit unit (fun u => u) Examples.echo_call (fun _ => [[1%Z]])
    (Examples.decoder_block true) [[[1]]] [1%Z] (Some [[[2]]]) [1%Z]
  = Spec.decoder_spec unit unit (fun u => u) Examples.echo_call (fun _ => [[1%Z]])
      (Examples.decoder_block true) [[[1]]] [1%Z] (Some [[[2]]]) [1%Z].
Proof.
  apply decoder_block_prenorm_residual.
  - reflexivity.
  - intros d H. cbn in H. inversion H. reflexivity.
  - reflexivity.
Defined.

Lemma decoder_without_source_attention_witness :
  Transformer.decoder_forward unit unit (fun u => u) Examples.echo_call (fun _ => [[1%Z]])
    (Examples.decoder_block false) [[[1]]] [1%Z] (Some [[[2]]]) [1%Z]
  = Transformer.decoder_forward unit unit (fun u => u) Examples.echo_call (fun _ => [[1%Z]])
      (Examples.decoder_block false) [[[1]]] [1%Z] None [].
Proof.
  apply (decoder_without_source_attention unit unit (fun u => u) Examples.echo_call
           (fun _ => [[1%Z]]) (Examples.decoder_block false)).
  reflexivity.
Defined.

Lemma missing_encoder_outputs_witness :
  Transformer.decoder_forward unit unit (fun u => u) Examples.echo_call (fun _ => [[1%Z]])
    (Examples.decoder_block true) [[[1]]] [1%Z] None []
  = (Transformer.dec_set_self_attn unit (Examples.decoder_block true) tt,
     Raise AttributeError).
Proof.
  destruct (missing_encoder_outputs unit unit (fun u => u) Examples.echo_call
              (fun _ => [[1%Z]]) (Examples.decoder_block true) [[[1]]] [1%Z] [] eq_refl)
    as [_ H].
  apply (H [[[[1%Z]]]] tt [[[1]]] tt [[[1 + 1]]]).
  - reflexivity.
  - discriminate.
  - reflexivity.
  - cbn. unfold Torch.dropout3, Torch.drop_active. cbn.
    destruct (Req_dec_T 0 0); [|lra]. reflexivity.
Defined.

Lemma decoder_invariant_witness :
  Spec.decoder_wf unit
    (fst (Transformer.decoder_forward unit unit (fun u => u) Examples.echo_call
            (fun _ => [[1%Z]]) (Examples.decoder_block true) [[[1]]] [1%Z]
            (Some [[[2]]]) [1%Z])).
Proof.
  destruct (decoder_invariant unit unit (fun u => u) Examples.echo_call (fun _ => [[1%Z]]))
    as [Hinit Hfwd].
  apply (proj1 (Hfwd (Examples.decoder_block true) [[[1]]] [1%Z] (Some [[[2]]]) [1%Z])).
  apply (Hinit "scaled_dot"%string 1%nat true tt (fun t => t) Examples.no_drop
               tt (fun t => t) Examples.no_drop Examples.ffn (fun t => t) Examples.no_drop).
  reflexivity.
Defined.

(** * The exceptions of the transformer blocks *)

Section Exceptions.
Import Torch Transformer Spec.

Lemma ok_shape_error_only {A : Type} (a : A) : shape_error_only (Ok a).
Proof. intros e H. discriminate. Qed.

Lemma raise_shape_error_only {A : Type} : shape_error_only (@Raise A RuntimeError).
Proof. intros e H. now inversion H. Qed.

Lemma bind_shape_error_only {A B : Type} (c : result A) (k : A -> result B) :
  shape_error_only c -> (forall a, shape_error_only (k a)) ->
  shape_error_only (bind c k).
Proof.
  intros Hc Hk e. destruct c as [a|e']; cbn [bind].
  - apply Hk.
  - intros H. inversion H; subst e'. now apply Hc.
Qed.

Lemma mapM_shape_error_only {A B : Type} (f : A -> result B) (l : list A) :
  (forall x, shape_error_only (f x)) -> shape_error_only (mapM f l).
Proof.
  intros H. induction l as [|a l IH]; cbn [mapM]; [apply ok_shape_error_only|].
  apply bind_shape_error_only; [apply H|]. intros b.
  apply bind_shape_error_only; [exact IH|]. intros bs. apply ok_shape_error_only.
Qed.

Lemma zipM_shape_error_only {A B C : Type} (f : A -> B -> result C)
      (xs : list A) (ys : list B) :
  (forall x y, shape_error_only (f x y)) -> shape_error_only (zipM f xs ys).
Proof.
  intros H. revert ys. induction xs as [|x xs IH]; intros [|y ys]; cbn [zipM];
    try apply ok_shape_error_only; try apply raise_shape_error_only.
  apply bind_shape_error_only; [apply H|]. intros c.
  apply bind_shape_error_only; [apply IH|]. intros cs. apply ok_shape_error_only.
Qed.

Lemma bzip_shape_error_only {A B C : Type} (f : A -> B -> result C)
      (xs : list A) (ys : list B) :
  (forall x y, shape_error_only (f x y)) -> shape_error_only (bzip f xs ys).
Proof.
  intros H. unfold bzip. destruct (Nat.eqb _ _); [now apply zipM_shape_error_only|].
  destruct xs as [|x0 [|x1 xs]]; destruct ys as [|y0 [|y1 ys]];
    try apply raise_shape_error_only;
    apply mapM_shape_error_only; intros; apply H.
Qed.

Lemma add3_shape_error_only (a b : tensor3) : shape_error_only (add3 a b).
Proof.
  apply bzip_shape_error_only. intros x y.
  apply bzip_shape_error_only. intros u w.
  apply bzip_shape_error_only. intros r s. apply ok_shape_error_only.
Qed.

Lemma dot_shape_error_only (x y : vec) : shape_error_only (dot x y).
Proof.
  revert y. induction x as [|a x IH]; intros [|b y]; cbn [dot];
    try apply ok_shape_error_only; try apply raise_shape_error_only.
  apply bind_shape_error_only; [apply IH|]. intros r. apply ok_shape_error_only.
Qed.

Lemma linear_shape_error_only (l : Linear) (xs : tensor3) :
  shape_error_only (linear l xs).
Proof.
  unfold linear, mm. cbv zeta.
  apply bind_shape_error_only; [|intros r; apply add3_shape_error_only].
  apply mapM_shape_error_only. intros m.
  apply mapM_shape_error_only. intros row.
  apply mapM_shape_error_only. intros w. apply dot_shape_error_only.
Qed.

Lemma ff_forward_shape_error_only (f : PositionwiseFeedForward) (xs : tensor3) :
  shape_error_only (ff_forward f xs).
Proof.
  unfold ff_forward.
  apply bind_shape_error_only; [apply linear_shape_error_only|].
  intros h. apply linear_shape_error_only.
Qed.

Lemma expand0_shape_error_only {A : Type} (n : nat) (t : list A) :
  shape_error_only (expand0 n t).
Proof.
  unfold expand0. destruct (Nat.eqb _ _); [apply ok_shape_error_only|].
  destruct t as [|x [|y t]];
    try apply ok_shape_error_only; apply raise_shape_error_only.
Qed.

Lemma expand_rows_shape_error_only (bs rows cols : nat) (pad : bmask2) :
  shape_error_only (expand_rows bs rows cols pad).
Proof.
  unfold expand_rows.
  apply bind_shape_error_only; [apply expand0_shape_error_only|]. intros r0.
  apply mapM_shape_error_only. intros row.
  apply bind_shape_error_only; [apply expand0_shape_error_only|]. intros row'.
  apply ok_shape_error_only.
Qed.

Lemma expand_cols_shape_error_only (bs rows cols : nat) (pad : bmask2) :
  shape_error_only (expand_cols bs rows cols pad).
Proof.
  unfold expand_cols.
  apply bind_shape_error_only; [apply expand0_shape_error_only|]. intros r0.
  apply mapM_shape_error_only. intros row.
  apply bind_shape_error_only; [apply expand0_shape_error_only|]. intros row'.
  apply ok_shape_error_only.
Qed.

Lemma masks_shape_error_only (n_heads bs ymax xmax : nat) (xpad ypad : bmask2) :
  shape_error_only (make_xx_mask n_heads bs xmax xpad)
  /\ shape_error_only (make_yy_mask n_heads bs ymax ypad)
  /\ shape_error_only (make_xy_mask n_heads bs ymax xmax xpad ypad).
Proof.
  split; [|split].
  - unfold make_xx_mask.
    apply bind_shape_error_only; [apply expand_rows_shape_error_only|].
    intros xx. apply ok_shape_error_only.
  - unfold make_yy_mask, zip4.
    apply bind_shape_error_only; [apply expand_rows_shape_error_only|].
    intros yy. repeat (apply zipM_shape_error_only; intros).
    apply ok_shape_error_only.
  - unfold make_xy_mask, zip3.
    apply bind_shape_error_only; [apply expand_rows_shape_error_only|]. intros xm.
    apply bind_shape_error_only; [apply expand_cols_shape_error_only|]. intros ym.
    apply bind_shape_error_only; [|intros xy; apply ok_shape_error_only].
    repeat (apply zipM_shape_error_only; intros).
    apply ok_shape_error_only.
Qed.

Variable MHA : Type.
Variable AW : Type.
Variable mha_reset : MHA -> MHA.
Variable mha_call : MHA -> tensor3 -> tensor3 -> tensor3 -> bmask4 -> MHA * result (tensor3 * AW).
Variable make_pad_mask : list Z -> bmask2.

Hypothesis attention_raises_shape_errors_only :
  forall st k v q m, shape_error_only (snd (mha_call st k v q m)).

Lemma decoder_tail_shape_error_only (blk : TransformerDecoderBlock MHA) (ys : tensor3)
      (yy_aw : AW) (xy_aw : option AW) :
  shape_error_only (decoder_tail MHA AW blk ys yy_aw xy_aw).
Proof.
  unfold decoder_tail. cbv zeta.
  apply bind_shape_error_only; [apply ff_forward_shape_error_only|]. intros h.
  apply bind_shape_error_only; [apply add3_shape_error_only|]. intros y.
  apply ok_shape_error_only.
Qed.

(** X24.  The blocks add no exception of their own to those of the
    attention layer: with [make_pad_mask] and the layer normalisations
    returning, if the attention layer raises nothing but RuntimeError, then
    [TransformerEncoderBlock.forward] raises nothing but RuntimeError (from
    a mask, a residual sum or a linear layer whose shapes do not fit), and
    so does [TransformerDecoderBlock.forward] on a block that [__init__]
    built, provided [xs] is given when the block attends to the encoder. *)
Theorem blocks_raise_shape_errors_only :
  (forall (blk : TransformerEncoderBlock MHA) xs xlens cache,
      shape_error_only
        (snd (encoder_forward MHA AW mha_reset mha_call make_pad_mask blk xs xlens cache)))
  /\ (forall (blk : TransformerDecoderBlock MHA) ys ylens xs xlens,
         decoder_wf MHA blk ->
         (src_attention MHA blk = true -> xs <> None) ->
         shape_error_only
           (snd (decoder_forward MHA AW mha_reset mha_call make_pad_mask
                                 blk ys ylens xs xlens))).
Proof.
  split.
  - intros blk xs xlens cache. unfold encoder_forward.
    destruct (make_xx_mask _ _ _ _) as [mask|e] eqn:M.
    + cbv zeta.
      pose proof (attention_raises_shape_errors_only
                    (if negb cache then mha_reset (enc_self_attn MHA blk)
                     else enc_self_attn MHA blk)
                    (enc_norm1 MHA blk xs) (enc_norm1 MHA blk xs) (enc_norm1 MHA blk xs)
                    mask) as Hc.
      destruct (mha_call _ _ _ _ mask) as [sa r]. cbn [snd] in *.
      apply bind_shape_error_only; [exact Hc|]. intros [a aw].
      apply bind_shape_error_only; [apply add3_shape_error_only|]. intros xs1.
      apply bind_shape_error_only; [apply ff_forward_shape_error_only|]. intros h.
      apply bind_shape_error_only; [apply add3_shape_error_only|]. intros xs2.
      apply ok_shape_error_only.
    + cbn [snd].
      rewrite (proj1 (masks_shape_error_only (enc_n_heads MHA blk) (length xs) 0
                                             (size1 xs) (make_pad_mask xlens) []) e M).
      apply raise_shape_error_only.
  - intros blk ys ylens xs xlens [Ht W] Hxs. unfold decoder_forward.
    destruct (make_yy_mask _ _ _ _) as [yy|e] eqn:M.
    + destruct (String.eqb_spec (dec_attn_type MHA blk) "average") as [E|_];
        [contradiction|].
      cbv zeta.
      pose proof (attention_raises_shape_errors_only
                    (mha_reset (dec_self_attn MHA blk))
                    (dec_norm1 MHA blk ys) (dec_norm1 MHA blk ys) (dec_norm1 MHA blk ys)
                    yy) as Hc.
      destruct (mha_call _ _ _ _ yy) as [sa1 r]. cbn [snd] in Hc.
      assert (S1 : shape_error_only
                     (out <- r ;;
                      let '(_ys, yy_aw) := out in
                      ys1 <- add3 (dropout3 (dec_dropout1 MHA blk) _ys) ys ;;
                      Ok (ys1, yy_aw))).
      { apply bind_shape_error_only; [exact Hc|]. intros [a aw].
        apply bind_shape_error_only; [apply add3_shape_error_only|]. intros ys1.
        apply ok_shape_error_only. }
      destruct (out <- r ;; _) as [[ys1 yy_aw]|e];
        [|cbn [snd]; rewrite (S1 e eq_refl); apply raise_shape_error_only].
      unfold decoder_src.
      cbn [src_attention dec_set_self_attn dec_n_heads src_attn dec_norm2 dec_dropout2].
      destruct (src_attention MHA blk).
      * destruct W as (W1 & W2 & W3).
        destruct xs as [x|]; [|exfalso; now apply Hxs].
        destruct (make_xy_mask _ _ _ _ _ _) as [xy|e] eqn:Mxy.
        -- destruct (src_attn MHA blk) as [sa|]; [|contradiction].
           destruct (dec_norm2 MHA blk) as [norm2|]; [|contradiction].
           destruct (dec_dropout2 MHA blk) as [d2|]; [|contradiction].
           cbv zeta.
           pose proof (attention_raises_shape_errors_only
                         (mha_reset sa) x x (norm2 ys1) xy) as Hc2.
           destruct (mha_call _ _ _ _ xy) as [sa2 r2]. cbn [snd] in *.
           apply bind_shape_error_only; [exact Hc2|]. intros [a2 aw2].
           apply bind_shape_error_only; [apply add3_shape_error_only|]. intros ys2.
           apply decoder_tail_shape_error_only.
        -- rewrite (proj2 (proj2 (masks_shape_error_only (dec_n_heads MHA blk)
                                      (length ys) (size1 ys) (size1 x)
                                      (make_pad_mask xlens) (make_pad_mask ylens)))
                          e Mxy).
           destruct (src_attn MHA blk), (dec_norm2 MHA blk), (dec_dropout2 MHA blk);
             cbn [snd]; apply raise_shape_error_only.
      * cbn [snd]. apply decoder_tail_shape_error_only.
    + cbn [snd].
      rewrite (proj1 (proj2 (masks_shape_error_only (dec_n_heads MHA blk) (length ys)
                               (size1 ys) 0 [] (make_pad_mask ylens))) e M).
      apply raise_shape_error_only.
Qed.

End Exceptions.

Lemma blocks_raise_shape_errors_only_witness :
  Spec.shape_error_only
    (snd (Transformer.encoder_forward unit unit (fun u => u) Examples.echo_call
            (fun _ => [[1%Z]; [1%Z]; [1%Z]]) Examples.encoder_block [[[1]]; [[2]]] [1%Z] false))
  /\ Spec.shape_error_only
       (snd (Transformer.decoder_forward unit unit (fun u => u) Examples.echo_call
               (fun _ => [[1%Z]]) (Examples.decoder_block true) [[[1]]] [1%Z]
               (Some [[[2]]]) [1%Z])).
Proof.
  destruct (blocks_raise_shape_errors_only unit unit (fun u => u) Examples.echo_call
              (fun _ => [[1%Z]; [1%Z]; [1%Z]])) as [He _].
  - intros st k v q m e H. discriminate H.
  - destruct (blocks_raise_shape_errors_only unit unit (fun u => u) Examples.echo_call
                (fun _ => [[1%Z]])) as [_ Hd].
    + intros st k v q m e H. discriminate H.
    + split; [apply He|]. apply Hd.
      * split; [discriminate|]. cbn. repeat split; discriminate.
      * intros _. discriminate.
Defined.

(** * The positional encoding from construction to use *)

Section Encode.
Import Torch Transformer Spec.

Lemma zipM_pure_mismatch {A B C : Type} (g : A -> B -> C) (xs : list A) (ys : list B) :
  length xs <> length ys ->
  zipM (fun a b => Ok (g a b)) xs ys = Raise RuntimeError.
Proof.
  revert ys; induction xs as [|x xs IH]; intros [|y ys] L; cbn [length] in L;
    try reflexivity; try congruence.
  cbn [zipM bind]. rewrite IH by lia. reflexivity.
Qed.

Lemma add2_longer_raises (a b : mat) :
  (2 <= length b)%nat -> (length b < length a)%nat -> add2 a b = Raise RuntimeError.
Proof.
  intros Hb Ha. unfold add2, bzip.
  destruct (Nat.eqb_spec (length a) (length b)) as [E|_]; [lia|].
  destruct a as [|a0 [|a1 a]]; cbn [length] in Ha; try lia.
  destruct b as [|b0 [|b1 b]]; cbn [length] in Hb; try lia.
  reflexivity.
Qed.

(** X25.  An input longer than the table is rejected: for a table of
    [max_len >= 2] positions and an input with more than [max_len]
    positions, [PositionalEncoding.forward] raises RuntimeError, both when
    adding and when concatenating. *)
Theorem input_longer_than_table
        (m : PositionalEncoding) (tbl : mat) (d : Dropout) (xs : tensor3) :
  pe_type m = Some "add"%string \/ pe_type m = Some "concat"%string ->
  pe m = Some [tbl] -> pe_dropout m = Some d ->
  (2 <= length tbl)%nat -> (length tbl < size1 xs)%nat ->
  pe_forward m xs = Raise RuntimeError.
Proof.
  intros Ty Hpe Hdrop Lt LT. unfold pe_forward.
  destruct xs as [|xb xs]; [unfold size1 in LT; cbn [hd length] in LT; lia|].
  unfold size1 in LT. cbn [hd] in LT.
  rewrite Hpe, Hdrop. rewrite size1_scale3. unfold size1. cbn [hd attr bind map].
  rewrite firstn_all2 by (unfold mat, vec in *; lia).
  set (c := sqrt (INR (d_model m))).
  destruct Ty as [Ty|Ty]; rewrite Ty; cbn [truthy is_type negb].
  - change (String.eqb "add" "") with false.
    change (String.eqb "add" "add") with true. cbn [negb].
    assert (E : add2 (map (map (fun x => x * c)) xb) tbl = Raise RuntimeError)
      by (apply add2_longer_raises; [exact Lt | now rewrite length_map]).
    unfold add3, bzip, scale3. cbn [map length].
    destruct xs as [|xb' xs]; cbn [map length Nat.eqb zipM mapM]; now rewrite E.
  - change (String.eqb "concat" "") with false.
    change (String.eqb "concat" "add") with false.
    change (String.eqb "concat" "concat") with true. cbn [negb].
    unfold cat_last, scale3. cbn [map zipM].
    rewrite (zipM_pure_mismatch (fun x y : vec => x ++ y))
      by (rewrite length_map; unfold mat, vec in *; lia).
    reflexivity.
Qed.

Lemma pe_row_entries (h pos i : nat) :
  (1 <= h)%nat -> (i < h)%nat ->
  nth_error (pe_row (2 * h) (INR pos)) (2 * i) = Some (sin (pe_angle (2 * h) pos (2 * i)))
  /\ nth_error (pe_row (2 * h) (INR pos)) (2 * i + 1)
     = Some (cos (pe_angle (2 * h) pos (2 * i))).
Proof.
  intros Hh Hi. unfold pe_row, pe_angle.
  rewrite interleave_even, interleave_odd by (now rewrite !length_map).
  rewrite !nth_error_map, nth_error_div_term by lia. cbn [option_map].
  now rewrite div_term_power.
Qed.

Lemma nth_error_firstn_lt {A : Type} (l : list A) (n i : nat) :
  (i < n)%nat -> nth_error (firstn n l) i = nth_error l i.
Proof.
  revert n i; induction l as [|a l IH]; intros [|n] [|i] H; cbn [firstn nth_error];
    try reflexivity; try lia.
  apply IH. lia.
Qed.

Lemma nth_error_vadd (x y : vec) (k : nat) (a b : R) :
  nth_error x k = Some a -> nth_error y k = Some b ->
  nth_error (vadd x y) k = Some (a + b).
Proof.
  intros Hx Hy. unfold vadd.
  now rewrite nth_error_map, (nth_error_combine _ _ _ _ _ Hx Hy).
Qed.

Lemma pe_forward_add (m : PositionalEncoding) (tbl : mat) (d : Dropout) (xs : tensor3) :
  pe_type m = Some "add"%string -> pe m = Some [tbl] -> pe_dropout m = Some d ->
  rows_of (size1 xs) xs -> last_dim (d_model m) xs ->
  rows_of (d_model m) tbl -> (size1 xs <= length tbl)%nat ->
  pe_forward m xs
  = Ok (dropout3 d (map (fun xb => madd xb (firstn (size1 xs) tbl))
                        (scale3 (sqrt (INR (d_model m))) xs))).
Proof.
  intros Ty Hpe Hdrop Rx Lx Rt LT. unfold pe_forward.
  rewrite Ty, Hpe, Hdrop. cbn [truthy is_type negb attr bind map].
  change (String.eqb "add" "") with false.
  change (String.eqb "add" "add") with true. cbn [negb].
  rewrite size1_scale3. unfold add3. rewrite bzip_singleton_r.
  rewrite (mapM_total _ (fun xb => madd xb (firstn (size1 xs) tbl))); [reflexivity|].
  intros xb Hxb. unfold scale3 in Hxb.
  apply in_map_iff in Hxb as (xb0 & <- & Hxb0).
  unfold rows_of, last_dim in *. rewrite Forall_forall in Rx, Lx.
  apply (add2_same_shape (d_model m)).
  - pose proof (Rx xb0 Hxb0) as E. rewrite length_map, length_firstn.
    unfold mat, vec in *. lia.
  - unfold rows_of. apply Forall_map. specialize (Lx xb0 Hxb0).
    eapply Forall_impl; [|exact Lx]. intros x Hx. cbn beta. now rewrite length_map.
  - now apply Forall_firstn.
Qed.

(** X26.  Construction and use together: a module that [__init__] builds
    with [pe_type = 'add'], an even [d_model >= 2] and a dropout
    probability in [0, 1] never fails on an input of shape
    [B, T, d_model] with [T <= max_len]; before dropout its output is
    [xs[b, t, 2i] * sqrt(d_model) + sin(t * 10000^(-2i/d_model))] at the
    even and
    [xs[b, t, 2i+1] * sqrt(d_model) + cos(t * 10000^(-2i/d_model))] at the
    odd indices. *)
Theorem encode_positions
        (d : nat) (dropout : R) (keep : list nat -> bool) (max_len : nat) (xs : tensor3) :
  Nat.Even d -> (2 <= d)%nat -> 0 <= dropout <= 1 ->
  rows_of (size1 xs) xs -> last_dim d xs -> (size1 xs <= max_len)%nat ->
  exists m S,
    pe_init d dropout keep (Some "add"%string) max_len = Ok m /\
    pe_forward m xs = Ok (dropout3 (mkDropout dropout true keep) S) /\
    forall b t i x0 x1,
      entry3 xs b t (2 * i) = Some x0 -> entry3 xs b t (2 * i + 1) = Some x1 ->
      entry3 S b t (2 * i) = Some (x0 * sqrt (INR d) + sin (pe_angle d t (2 * i))) /\
      entry3 S b t (2 * i + 1) = Some (x1 * sqrt (INR d) + cos (pe_angle d t (2 * i))).
Proof.
  intros [h ->] Hd2 Hd Rx Lx LT.
  assert (Hh : (1 <= h)%nat) by lia.
  set (tbl := map (pe_row (2 * h)) (map INR (seq 0 max_len))).
  assert (Ltbl : length tbl = max_len)
    by (unfold tbl; now rewrite !length_map, length_seq).
  assert (Rtbl : rows_of (2 * h) tbl).
  { unfold rows_of, tbl. apply Forall_map, Forall_forall. intros pos _.
    unfold pe_row. rewrite interleave_length by (now rewrite !length_map).
    now rewrite length_map, div_term_length. }
  eexists. eexists. split; [apply (pe_init_even h dropout keep (Some "add"%string) max_len eq_refl Hh Hd)|].
  split.
  - apply (pe_forward_add _ tbl); try reflexivity; try assumption.
    unfold mat, vec in *. lia.
  - cbn [d_model]. intros b t i x0 x1 H0 H1.
    unfold entry3, entry2 in H0, H1. unfold tensor3, mat, vec in *.
    destruct (nth_error xs b) as [xb|] eqn:Eb; [|discriminate].
    destruct (nth_error xb t) as [v|] eqn:Et; [|discriminate].
    assert (Txb : length xb = size1 xs).
    { unfold rows_of in Rx. rewrite Forall_forall in Rx. apply Rx.
      eapply nth_error_In; eauto. }
    assert (Ht : (t < size1 xs)%nat).
    { rewrite <- Txb. apply nth_error_Some. unfold mat, vec in *. congruence. }
    assert (Lv : length v = (2 * h)%nat).
    { unfold last_dim in Lx. rewrite Forall_forall in Lx.
      specialize (Lx xb (nth_error_In _ _ Eb)). rewrite Forall_forall in Lx.
      apply Lx. eapply nth_error_In; eauto. }
    assert (Hi : (i < h)%nat).
    { assert (2 * i + 1 < length v)%nat by (apply nth_error_Some; congruence). lia. }
    assert (Row : nth_error (firstn (size1 xs) tbl) t = Some (pe_row (2 * h) (INR t))).
    { rewrite nth_error_firstn_lt by exact Ht. unfold tbl.
      rewrite !nth_error_map, nth_error_seq.
      destruct (Nat.ltb_spec t max_len); [reflexivity | lia]. }
    assert (Cell : nth_error
                     (madd (map (map (fun x => x * sqrt (INR (2 * h)))) xb)
                           (firstn (size1 xs) tbl)) t
                   = Some (vadd (map (fun x => x * sqrt (INR (2 * h))) v)
                                (pe_row (2 * h) (INR t)))).
    { unfold madd. rewrite nth_error_map.
      rewrite (nth_error_combine _ _ t (map (fun x => x * sqrt (INR (2 * h))) v)
                                 (pe_row (2 * h) (INR t)));
        [reflexivity | | exact Row].
      rewrite nth_error_map. unfold mat, vec in *. now rewrite Et. }
    destruct (pe_row_entries h t i Hh Hi) as [Ps Pc].
    unfold entry3, entry2, scale3. rewrite !nth_error_map.
    unfold tensor3, mat, vec in *. rewrite Eb. cbn [option_map].
    rewrite Cell. split.
    + apply nth_error_vadd; [|exact Ps]. rewrite nth_error_map, H0. reflexivity.
    + apply nth_error_vadd; [|exact Pc]. rewrite nth_error_map, H1. reflexivity.
Qed.

End Encode.

Lemma input_longer_than_table_witness :
  Transformer.pe_forward
    (Transformer.mkPositionalEncoding 2 (Some "add"%string) (Some [[[0; 1]; [0; 1]]])
                                      (Some Examples.no_drop))
    [[[1; 1]; [2; 2]; [3; 3]]]
  = Raise RuntimeError.
Proof.
  apply (input_longer_than_table _ [[0; 1]; [0; 1]] Examples.no_drop).
  - left. reflexivity.
  - reflexivity.
  - reflexivity.
  - apply le_n.
  - apply le_n.
Defined.

Lemma encode_positions_witness :
  exists m S,
    Transformer.pe_init 2 0 (fun _ => true) (Some "add"%string) 3 = Ok m /\
    Transformer.pe_forward m [[[1; 1]; [2; 2]]]
    = Ok (Torch.dropout3 (Torch.mkDropout 0 true (fun _ => true)) S) /\
    Spec.entry3 S 0 1 0 = Some (2 * sqrt (INR 2) + sin (Spec.pe_angle 2 1 0)).
Proof.
  destruct (encode_positions 2 0 (fun _ => true) 3 [[[1; 1]; [2; 2]]])
    as (m & S & Hi & Hf & He).
  - exists 1%nat. reflexivity.
  - apply le_n.
  - lra.
  - repeat constructor.
  - repeat constructor.
  - unfold Torch.size1. cbn. lia.
  - exists m, S. split; [exact Hi|]. split; [exact Hf|].
    exact (proj1 (He 0%nat 1%nat 0%nat 2 2 eq_refl eq_refl)).
Defined.
